(** * Stardust Neon: projection math and simulation core

    A shallow embedding of [services/vectorMath.ts], [types.ts] and the
    simulation loop of [components/GameEngine.tsx].

    Numbers.  A TypeScript [number] is modelled as a real number ([R]):
    the statements below are statements over real arithmetic.  NaN and the
    infinities are outside the model; a quotient whose divisor is zero
    follows the convention of the library ([x / 0 = 0]), and every theorem
    that depends on a quotient carries the hypotheses that keep its
    divisor away from zero.

    Comparisons of the source ([<], [<=], [>], [!==], [===]) are the
    boolean tests [Rltb], [Rleb], [Rgtb], [Rneqb], [Reqb] below. *)

From Stdlib Require Import Reals Lra Lia List String ZArith Bool.
Import ListNotations.
Open Scope R_scope.

(** ** Boolean comparisons on numbers *)

Definition Rltb (a b : R) : bool := if Rlt_dec a b then true else false.
Definition Rleb (a b : R) : bool := if Rle_dec a b then true else false.
Definition Rgtb (a b : R) : bool := Rltb b a.
Definition Reqb (a b : R) : bool := if Req_dec_T a b then true else false.
Definition Rneqb (a b : R) : bool := negb (Reqb a b).

(** ** types.ts *)

Module Vector3.
Record t : Type := mk { x : R; y : R; z : R }.
End Vector3.

Module Vector2.
Record t : Type := mk { x : R; y : R }.
End Vector2.

(** ** services/vectorMath.ts *)

Module VectorMath.

(* Camera Configuration *)
Definition FOV : R := 500.
Definition NEAR_CLIP : R := 1.
Definition VIEW_DISTANCE : R := 5000.

(* Camera Position (Chase View) *)
Definition CAMERA_POS : Vector3.t := Vector3.mk 0 8 (-30).
Definition CAMERA_PITCH : R := 0.2.

(** [projectVector]: [None] is the source's [null]. *)
Definition projectVector (v : Vector3.t) (width height _cameraZ : R)
  : option Vector2.t :=
  let rX := Vector3.x v - Vector3.x CAMERA_POS in
  let rY := Vector3.y v - Vector3.y CAMERA_POS in
  let rZ := Vector3.z v - Vector3.z CAMERA_POS in
  let cos := cos CAMERA_PITCH in
  let sin := sin CAMERA_PITCH in
  let pitchY := rY * cos - rZ * sin in
  let pitchZ := rY * sin + rZ * cos in
  if Rleb pitchZ NEAR_CLIP || Rgtb pitchZ VIEW_DISTANCE then None
  else
    let scale := FOV / pitchZ in
    let x := rX * scale + width / 2 in
    let y := - pitchY * scale + height / 2 in
    Some (Vector2.mk x y).

Definition unprojectVector (normX normY targetZ width height : R)
  : Vector3.t :=
  let rZ := targetZ - Vector3.z CAMERA_POS in
  let cos := cos CAMERA_PITCH in
  let sin := sin CAMERA_PITCH in
  let tan := tan CAMERA_PITCH in
  let sy := normY * (height / 2) in
  let slopeY := - sy / FOV in
  let pitchZ := (rZ * (sin * tan + cos)) / (1 - slopeY * tan) in
  let scale := FOV / pitchZ in
  let sx := normX * (width / 2) in
  let rX := sx / scale in
  let pitchY := slopeY * pitchZ in
  let rY := pitchY * cos + pitchZ * sin in
  Vector3.mk (rX + Vector3.x CAMERA_POS) (rY + Vector3.y CAMERA_POS) targetZ.

Definition getScaleFactor (z _cameraZ : R) : R :=
  let rZ := z - Vector3.z CAMERA_POS in
  let pitchZ :=
    (0 - Vector3.y CAMERA_POS) * sin CAMERA_PITCH + rZ * cos CAMERA_PITCH in
  if Rleb pitchZ NEAR_CLIP then 0 else FOV / pitchZ.

Definition checkCollision (a : Vector3.t) (rA : R) (b : Vector3.t) (rB : R)
  : bool :=
  let dx := Vector3.x a - Vector3.x b in
  let dy := Vector3.y a - Vector3.y b in
  let dz := Vector3.z a - Vector3.z b in
  let distSq := dx*dx + dy*dy + dz*dz in
  let radSum := rA + rB in
  Rltb distSq (radSum * radSum).

(** The two camera-space coordinates [projectVector] computes after the
    pitch rotation, named for use in statements. *)
Definition pitchedY (p : Vector3.t) : R :=
  (Vector3.y p - 8) * cos 0.2 - (Vector3.z p + 30) * sin 0.2.
Definition pitchedDepth (p : Vector3.t) : R :=
  (Vector3.y p - 8) * sin 0.2 + (Vector3.z p + 30) * cos 0.2.

(** The screen slope [unprojectVector] derives from the wanted pixel
    row; the inverse is degenerate where [1 - slopeY * tan] vanishes. *)
Definition slopeY (normY height : R) : R := - (normY * (height / 2)) / FOV.

(** The squared distance between two centres, as [checkCollision]
    computes it. *)
Definition distSq (a b : Vector3.t) : R :=
  (Vector3.x a - Vector3.x b) * (Vector3.x a - Vector3.x b)
  + (Vector3.y a - Vector3.y b) * (Vector3.y a - Vector3.y b)
  + (Vector3.z a - Vector3.z b) * (Vector3.z a - Vector3.z b).

End VectorMath.

(** ** types.ts, continued: entities, particles, mission data *)

Module Entity.

Inductive type_t : Type :=
| PLAYER | ENEMY_Interceptor | ENEMY_Turret | OBSTACLE_Pillar
| PROJECTILE_Player | PROJECTILE_Enemy | DEBRIS.

(** [id: string].  The engine writes two kinds of id: the literal
    ['player'], and [Math.random().toString()], which [Number(id)] reads
    back as the number it was made from. *)
Inductive id_t : Type :=
| Literal (s : string)
| OfNumber (r : R).

Record t : Type := mk {
  id : id_t;
  position : Vector3.t;
  velocity : Vector3.t;
  scale : Vector3.t;
  type : type_t;
  active : bool;
  color : string;
  rotation : R;
  health : R;
  scoreValue : R;
  radius : R
}.

(** [ent.type.startsWith('ENEMY')] *)
Definition isEnemy (ty : type_t) : bool :=
  match ty with ENEMY_Interceptor | ENEMY_Turret => true | _ => false end.

(** [ent.type === 'PROJECTILE_Player'], [ent.type === 'PROJECTILE_Enemy'] *)
Definition isPlayerProjectile (ty : type_t) : bool :=
  match ty with PROJECTILE_Player => true | _ => false end.
Definition isEnemyProjectile (ty : type_t) : bool :=
  match ty with PROJECTILE_Enemy => true | _ => false end.

(** [Number(ent.id)].  [Number('player')] is NaN, which the model does
    not have; statements that depend on it assume an id [OfNumber r]. *)
Definition idNumber (i : id_t) : R :=
  match i with OfNumber r => r | Literal _ => 0 end.

(** Field assignments [ent.f = v]. *)
Definition set_position (p : Vector3.t) (e : t) : t :=
  mk (id e) p (velocity e) (scale e) (type e) (active e) (color e)
     (rotation e) (health e) (scoreValue e) (radius e).
Definition set_active (b : bool) (e : t) : t :=
  mk (id e) (position e) (velocity e) (scale e) (type e) b (color e)
     (rotation e) (health e) (scoreValue e) (radius e).
Definition set_rotation (r : R) (e : t) : t :=
  mk (id e) (position e) (velocity e) (scale e) (type e) (active e) (color e)
     r (health e) (scoreValue e) (radius e).
Definition set_health (h : R) (e : t) : t :=
  mk (id e) (position e) (velocity e) (scale e) (type e) (active e) (color e)
     (rotation e) h (scoreValue e) (radius e).

End Entity.

Module Particle.
Record t : Type := mk {
  position : Vector3.t;
  velocity : Vector3.t;
  life : R;
  maxLife : R;
  color : string
}.
End Particle.

Module MissionData.
Record t : Type := mk {
  title : string;
  briefing : string;
  themeColor : string;
  enemyDensity : R;
  speedModifier : R
}.
End MissionData.

(** [KeyState]: a key that was never written reads as [undefined], which
    is falsy; the model reads it as [false]. *)
Definition KeyState : Type := string -> bool.

Definition setKey (code : string) (b : bool) (k : KeyState) : KeyState :=
  fun c => if String.eqb c code then b else k c.

(** ** components/GameEngine.tsx *)

Module Input.
(** [inputRef.current]: the raw pointer position, normalized to [-1, 1]. *)
Record t : Type := mk { x : R; y : R; active : bool }.
End Input.

Module Reticle.
(** [reticleRef.current]: the lagged copy drawn as the big bracket. *)
Record t : Type := mk { x : R; y : R }.
End Reticle.

Module GameEngine.
Import VectorMath.

(** [GameEngineProps].  The three callbacks are not fields: a call of
    one of them is recorded as an [Event] in the state's [log]. *)
Record Props : Type := mkProps {
  mission : MissionData.t;
  width : R;
  height : R;
  paused : bool
}.

(** What the component does to the outside: [render()] draws the frame
    (the drawing commands themselves are not modelled; [render] reads
    the state and writes none of it), the others are the props'
    callbacks with their argument. *)
Inductive Event : Type :=
| Render
| OnScoreUpdate (score : R)
| OnHealthUpdate (health : R)
| OnGameOver (score : R).

(* System Constants *)
Definition BASE_SCROLL_SPEED : R := 2.5.
Definition FIRE_RATE : R := 100.
Definition FLOOR_Y : R := -6.
Definition SHIP_LAG : R := 0.08.
Definition RETICLE_LAG : R := 0.15.
Definition AIM_DISTANCE : R := 400.
Definition SHIP_MARGIN : R := 5.

(** The component's mutable cells ([useRef]), with the part of the
    environment the loop reads and writes:
    - [requestRef]: whether a frame callback is pending (the source keeps
      the request's handle);
    - [randomSource]: the values the coming calls of [Math.random()]
      return, in order;
    - [clock]: the values the coming calls of [timeNow()] return;
    - [log]: the events so far, oldest first. *)
Record State : Type := mkState {
  lastTimeRef : R;
  playerRef : Entity.t;
  entitiesRef : list Entity.t;
  particlesRef : list Particle.t;
  scoreRef : R;
  lastReportedScoreRef : R;
  lastReportedHealthRef : R;
  gameTimeRef : R;
  keysRef : KeyState;
  lastFireTimeRef : R;
  inputRef : Input.t;
  reticleRef : Reticle.t;
  requestRef : bool;
  randomSource : nat -> R;
  clock : nat -> R;
  log : list Event
}.

(** Assignments to one cell, [xRef.current = v]. *)
Definition set_lastTimeRef (v : R) (st : State) : State :=
  mkState v (playerRef st) (entitiesRef st) (particlesRef st) (scoreRef
    st) (lastReportedScoreRef st) (lastReportedHealthRef st) (gameTimeRef
    st) (keysRef st) (lastFireTimeRef st) (inputRef st) (reticleRef st)
    (requestRef st) (randomSource st) (clock st) (log st).
Definition set_playerRef (v : Entity.t) (st : State) : State :=
  mkState (lastTimeRef st) v (entitiesRef st) (particlesRef st) (scoreRef
    st) (lastReportedScoreRef st) (lastReportedHealthRef st) (gameTimeRef
    st) (keysRef st) (lastFireTimeRef st) (inputRef st) (reticleRef st)
    (requestRef st) (randomSource st) (clock st) (log st).
Definition set_entitiesRef (v : list Entity.t) (st : State) : State :=
  mkState (lastTimeRef st) (playerRef st) v (particlesRef st) (scoreRef
    st) (lastReportedScoreRef st) (lastReportedHealthRef st) (gameTimeRef
    st) (keysRef st) (lastFireTimeRef st) (inputRef st) (reticleRef st)
    (requestRef st) (randomSource st) (clock st) (log st).
Definition set_particlesRef (v : list Particle.t) (st : State) : State :=
  mkState (lastTimeRef st) (playerRef st) (entitiesRef st) v (scoreRef st)
    (lastReportedScoreRef st) (lastReportedHealthRef st) (gameTimeRef st)
    (keysRef st) (lastFireTimeRef st) (inputRef st) (reticleRef st)
    (requestRef st) (randomSource st) (clock st) (log st).
Definition set_scoreRef (v : R) (st : State) : State :=
  mkState (lastTimeRef st) (playerRef st) (entitiesRef st) (particlesRef
    st) v (lastReportedScoreRef st) (lastReportedHealthRef st)
    (gameTimeRef st) (keysRef st) (lastFireTimeRef st) (inputRef st)
    (reticleRef st) (requestRef st) (randomSource st) (clock st) (log st).
Definition set_lastReportedScoreRef (v : R) (st : State) : State :=
  mkState (lastTimeRef st) (playerRef st) (entitiesRef st) (particlesRef
    st) (scoreRef st) v (lastReportedHealthRef st) (gameTimeRef st)
    (keysRef st) (lastFireTimeRef st) (inputRef st) (reticleRef st)
    (requestRef st) (randomSource st) (clock st) (log st).
Definition set_lastReportedHealthRef (v : R) (st : State) : State :=
  mkState (lastTimeRef st) (playerRef st) (entitiesRef st) (particlesRef
    st) (scoreRef st) (lastReportedScoreRef st) v (gameTimeRef st)
    (keysRef st) (lastFireTimeRef st) (inputRef st) (reticleRef st)
    (requestRef st) (randomSource st) (clock st) (log st).
Definition set_gameTimeRef (v : R) (st : State) : State :=
  mkState (lastTimeRef st) (playerRef st) (entitiesRef st) (particlesRef
    st) (scoreRef st) (lastReportedScoreRef st) (lastReportedHealthRef st)
    v (keysRef st) (lastFireTimeRef st) (inputRef st) (reticleRef st)
    (requestRef st) (randomSource st) (clock st) (log st).
Definition set_keysRef (v : KeyState) (st : State) : State :=
  mkState (lastTimeRef st) (playerRef st) (entitiesRef st) (particlesRef
    st) (scoreRef st) (lastReportedScoreRef st) (lastReportedHealthRef st)
    (gameTimeRef st) v (lastFireTimeRef st) (inputRef st) (reticleRef st)
    (requestRef st) (randomSource st) (clock st) (log st).
Definition set_lastFireTimeRef (v : R) (st : State) : State :=
  mkState (lastTimeRef st) (playerRef st) (entitiesRef st) (particlesRef
    st) (scoreRef st) (lastReportedScoreRef st) (lastReportedHealthRef st)
    (gameTimeRef st) (keysRef st) v (inputRef st) (reticleRef st)
    (requestRef st) (randomSource st) (clock st) (log st).
Definition set_inputRef (v : Input.t) (st : State) : State :=
  mkState (lastTimeRef st) (playerRef st) (entitiesRef st) (particlesRef
    st) (scoreRef st) (lastReportedScoreRef st) (lastReportedHealthRef st)
    (gameTimeRef st) (keysRef st) (lastFireTimeRef st) v (reticleRef st)
    (requestRef st) (randomSource st) (clock st) (log st).
Definition set_reticleRef (v : Reticle.t) (st : State) : State :=
  mkState (lastTimeRef st) (playerRef st) (entitiesRef st) (particlesRef
    st) (scoreRef st) (lastReportedScoreRef st) (lastReportedHealthRef st)
    (gameTimeRef st) (keysRef st) (lastFireTimeRef st) (inputRef st) v
    (requestRef st) (randomSource st) (clock st) (log st).
Definition set_requestRef (v : bool) (st : State) : State :=
  mkState (lastTimeRef st) (playerRef st) (entitiesRef st) (particlesRef
    st) (scoreRef st) (lastReportedScoreRef st) (lastReportedHealthRef st)
    (gameTimeRef st) (keysRef st) (lastFireTimeRef st) (inputRef st)
    (reticleRef st) v (randomSource st) (clock st) (log st).
Definition set_randomSource (v : nat -> R) (st : State) : State :=
  mkState (lastTimeRef st) (playerRef st) (entitiesRef st) (particlesRef
    st) (scoreRef st) (lastReportedScoreRef st) (lastReportedHealthRef st)
    (gameTimeRef st) (keysRef st) (lastFireTimeRef st) (inputRef st)
    (reticleRef st) (requestRef st) v (clock st) (log st).
Definition set_clock (v : nat -> R) (st : State) : State :=
  mkState (lastTimeRef st) (playerRef st) (entitiesRef st) (particlesRef
    st) (scoreRef st) (lastReportedScoreRef st) (lastReportedHealthRef st)
    (gameTimeRef st) (keysRef st) (lastFireTimeRef st) (inputRef st)
    (reticleRef st) (requestRef st) (randomSource st) v (log st).
Definition set_log (v : list Event) (st : State) : State :=
  mkState (lastTimeRef st) (playerRef st) (entitiesRef st) (particlesRef
    st) (scoreRef st) (lastReportedScoreRef st) (lastReportedHealthRef st)
    (gameTimeRef st) (keysRef st) (lastFireTimeRef st) (inputRef st)
    (reticleRef st) (requestRef st) (randomSource st) (clock st) v.

(** The first render: every cell at its [useRef] initial value, the
    mount effect has requested the first frame. *)
Definition initialPlayer : Entity.t :=
  Entity.mk (Entity.Literal "player") (Vector3.mk 0 0 0) (Vector3.mk 0 0 0)
    (Vector3.mk 1 1 1) Entity.PLAYER true "#00ffff" 0 100 0 3.

Definition initialState (rnd clk : nat -> R) : State :=
  mkState 0 initialPlayer [] [] 0 0 100 0 (fun _ => false) 0
    (Input.mk 0 0 false) (Reticle.mk 0 0) true rnd clk [].

(** [Math.random()] and [timeNow()]: take the next value. *)
Definition random (st : State) : R * State :=
  (randomSource st 0%nat,
   set_randomSource (fun n => randomSource st (S n)) st).

Definition timeNow (st : State) : R * State :=
  (clock st 0%nat, set_clock (fun n => clock st (S n)) st).

Definition emit (e : Event) (st : State) : State :=
  set_log (log st ++ [e]) st.

(** [a % b] on numbers: the remainder of the division truncated toward
    zero, so the result has the sign of [a]. *)
Definition Ztrunc (a : R) : Z := if Rle_dec 0 a then Zfloor a else Zceil a.
Definition jsRem (a b : R) : R := a - b * IZR (Ztrunc (a / b)).

(** [Math.ceil] *)
Definition ceil (a : R) : R := IZR (Zceil a).

(** [entitiesRef.current.push(e)], [particlesRef.current.push(p)] *)
Definition pushEntity (e : Entity.t) (st : State) : State :=
  set_entitiesRef (entitiesRef st ++ [e]) st.
Definition pushParticle (p : Particle.t) (st : State) : State :=
  set_particlesRef (particlesRef st ++ [p]) st.

(** Lines 254-262. *)
Definition spawnThrusterParticle (pos : Vector3.t) (rot : R) (st : State)
  : State :=
  fold_left
    (fun st offset =>
       let '(r1, st) := random st in
       let '(r2, st) := random st in
       pushParticle
         (Particle.mk
            (Vector3.mk (Vector3.x pos + offset) (Vector3.y pos)
               (Vector3.z pos - 2))
            (Vector3.mk ((r1 - 0.5) * 0.2) ((r2 - 0.5) * 0.2) (-2))
            200 200 "#00ffff") st)
    [-1; 1] st.

(** Lines 264-273. *)
Definition spawnEnemy (color : string) (st : State) : State :=
  let '(rid, st) := random st in
  let '(rx, st) := random st in
  let '(ry, st) := random st in
  pushEntity
    (Entity.mk (Entity.OfNumber rid)
       (Vector3.mk (rx * 80 - 40) (ry * 20) 400)
       (Vector3.mk 0 0 0) (Vector3.mk 2.5 2.5 2.5)
       Entity.ENEMY_Interceptor true color 0 50 100 4) st.

(** Lines 275-296. *)
Definition spawnProjectile (startPos targetPos : Vector3.t)
  (isPlayer : bool) (st : State) : State :=
  let speed := if isPlayer then 6.0 else 2.0 in
  let dx := Vector3.x targetPos - Vector3.x startPos in
  let dy := Vector3.y targetPos - Vector3.y startPos in
  let dz := Vector3.z targetPos - Vector3.z startPos in
  let dist := sqrt (dx*dx + dy*dy + dz*dz) in
  let vel :=
    Vector3.mk ((dx / dist) * speed) ((dy / dist) * speed)
      ((dz / dist) * speed) in
  let '(rid, st) := random st in
  pushEntity
    (Entity.mk (Entity.OfNumber rid)
       (Vector3.mk (Vector3.x startPos) (Vector3.y startPos)
          (Vector3.z startPos + (if isPlayer then 5 else -5)))
       vel (Vector3.mk 1 1 1)
       (if isPlayer then Entity.PROJECTILE_Player
        else Entity.PROJECTILE_Enemy)
       true (if isPlayer then "#00ffaa" else "#ff5555") 0 1 0 2) st.

(** Lines 298-306: one turn of the loop, then the loop. *)
Definition explosionParticle (pos : Vector3.t) (color : string)
  (st : State) : State :=
  let '(r1, st) := random st in
  let '(r2, st) := random st in
  let '(r3, st) := random st in
  pushParticle
    (Particle.mk pos
       (Vector3.mk ((r1 - 0.5) * 3) ((r2 - 0.5) * 3) ((r3 - 0.5) * 3))
       500 500 color) st.

Definition spawnExplosion (pos : Vector3.t) (color : string) (st : State)
  : State :=
  Nat.iter 15 (explosionParticle pos color) st.

(** *** [update], lines 138-252, phase by phase *)

(** Lines 141-143: the big square follows the small dot. *)
Definition updateReticle (st : State) : State :=
  let i := inputRef st in
  let r := reticleRef st in
  let rx := Reticle.x r + (Input.x i - Reticle.x r) * RETICLE_LAG in
  let ry := Reticle.y r + (Input.y i - Reticle.y r) * RETICLE_LAG in
  set_reticleRef (Reticle.mk rx ry) st.

(** Lines 147-171: the ship follows the clamped, unprojected input. *)
Definition moveShip (props : Props) (st : State) : State :=
  let player := playerRef st in
  let rightEdge :=
    Vector3.x (unprojectVector 1 0 0 (width props) (height props)) in
  let xLimit := Rmax 10 (rightEdge - SHIP_MARGIN) in
  let topEdge :=
    Vector3.y (unprojectVector 0 (-1) 0 (width props) (height props)) in
  let yMax := topEdge - 3 in
  let moveTargetPos :=
    unprojectVector (Input.x (inputRef st)) (Input.y (inputRef st)) 0
      (width props) (height props) in
  let targetX := Rmax (- xLimit) (Rmin xLimit (Vector3.x moveTargetPos)) in
  let targetY :=
    Rmax (FLOOR_Y + 1) (Rmin yMax (Vector3.y moveTargetPos)) in
  let lerpFactor := SHIP_LAG in
  let pos := Entity.position player in
  let px := Vector3.x pos + (targetX - Vector3.x pos) * lerpFactor in
  let py := Vector3.y pos + (targetY - Vector3.y pos) * lerpFactor in
  let player := Entity.set_position (Vector3.mk px py (Vector3.z pos)) player in
  let player := Entity.set_rotation ((px - targetX) * 0.06) player in
  set_playerRef player st.

(** Lines 174-176. *)
Definition thrusters (st : State) : State :=
  if Rltb (jsRem (gameTimeRef st) 30) 16
  then spawnThrusterParticle (Entity.position (playerRef st))
         (Entity.rotation (playerRef st)) st
  else st.

(** Line 178. *)
Definition scrollSpeedOf (props : Props) (dt : R) : R :=
  BASE_SCROLL_SPEED * MissionData.speedModifier (mission props) * (dt / 16).

(** Lines 181-183; [&&] calls [Math.random()] only past the grace
    period. *)
Definition spawning (props : Props) (st : State) : State :=
  if Rgtb (gameTimeRef st) 1500 then
    let '(r, st) := random st in
    if Rltb r (0.02 * MissionData.enemyDensity (mission props))
    then spawnEnemy (MissionData.themeColor (mission props)) st
    else st
  else st.

(** Lines 186-193. *)
Definition isFiring (st : State) : bool :=
  keysRef st "Space"%string || keysRef st "Enter"%string || true.

Definition firing (props : Props) (st : State) : State :=
  if isFiring st then
    let '(now, st) := timeNow st in
    if Rgtb (now - lastFireTimeRef st) FIRE_RATE then
      let aimPos :=
        unprojectVector (Input.x (inputRef st)) (Input.y (inputRef st))
          AIM_DISTANCE (width props) (height props) in
      let st :=
        spawnProjectile (Entity.position (playerRef st)) aimPos true st in
      let '(now', st) := timeNow st in
      set_lastFireTimeRef now' st
    else st
  else st.

(** *** The entity pass, lines 196-240

    The callback of [forEach] mutates its element [ent] in place.  The
    model carries [ent] as a value and stores it back at its index
    ([storeEntity]) before another element of the array is read; pushes
    made meanwhile go to the end of the array and leave the index
    alone. *)
Fixpoint replaceAt {A : Type} (i : nat) (a : A) (l : list A) : list A :=
  match l, i with
  | [], _ => []
  | _ :: t, O => a :: t
  | h :: t, S i' => h :: replaceAt i' a t
  end.

Definition storeEntity (i : nat) (ent : Entity.t) (st : State) : State :=
  set_entitiesRef (replaceAt i ent (entitiesRef st)) st.

(** Lines 199-212: motion by type, and the enemy's shot. *)
Definition moveEntity (dt scrollSpeed : R) (ent : Entity.t) (st : State)
  : Entity.t * State :=
  let pos := Entity.position ent in
  let vel := Entity.velocity ent in
  match Entity.type ent with
  | Entity.PROJECTILE_Player =>
      (Entity.set_position
         (Vector3.mk (Vector3.x pos + Vector3.x vel * (dt / 16))
            (Vector3.y pos + Vector3.y vel * (dt / 16))
            (Vector3.z pos + Vector3.z vel * (dt / 16))) ent, st)
  | Entity.PROJECTILE_Enemy =>
      (Entity.set_position
         (Vector3.mk (Vector3.x pos) (Vector3.y pos)
            (Vector3.z pos - 2.0 * (dt / 16))) ent, st)
  | Entity.ENEMY_Interceptor | Entity.ENEMY_Turret =>
      let z' := Vector3.z pos - scrollSpeed in
      let x' :=
        Vector3.x pos
        + sin (z' * 0.02 + Entity.idNumber (Entity.id ent)) * 0.3 in
      let ent := Entity.set_position (Vector3.mk x' (Vector3.y pos) z') ent in
      let '(r, st) := random st in
      if Rltb r 0.015 && Rgtb z' 50 && Rltb z' 300
      then (ent,
            spawnProjectile (Entity.position ent)
              (Entity.position (playerRef st)) false st)
      else (ent, st)
  | _ => (ent, st)
  end.

(** Line 214. *)
Definition cull (ent : Entity.t) : Entity.t :=
  let z := Vector3.z (Entity.position ent) in
  if Rltb z (-40) || Rgtb z 500 then Entity.set_active false ent else ent.

(** Line 218: the array [filter] returns, as the indices of its
    elements. *)
Definition activePlayerProjectiles (st : State) : list nat :=
  filter
    (fun j =>
       match nth_error (entitiesRef st) j with
       | Some p =>
           Entity.isPlayerProjectile (Entity.type p) && Entity.active p
       | None => false
       end)
    (seq 0 (List.length (entitiesRef st))).

(** Lines 219-227: the callback of the inner [forEach], for the
    projectile at index [j]. *)
Definition projectileHit (acc : Entity.t * State) (j : nat)
  : Entity.t * State :=
  let '(ent, st) := acc in
  match nth_error (entitiesRef st) j with
  | None => acc
  | Some proj =>
      if checkCollision (Entity.position ent) (Entity.radius ent)
           (Entity.position proj) (Entity.radius proj)
      then
        let ent := Entity.set_health (Entity.health ent - 50) ent in
        let st := storeEntity j (Entity.set_active false proj) st in
        let st := spawnExplosion (Entity.position ent) (Entity.color ent) st in
        if Rleb (Entity.health ent) 0
        then (Entity.set_active false ent,
              set_scoreRef (scoreRef st + Entity.scoreValue ent) st)
        else (ent, st)
      else acc
  end.

(** Lines 229-233. *)
Definition enemyHitsPlayer (ent : Entity.t) (st : State)
  : Entity.t * State :=
  let player := playerRef st in
  if checkCollision (Entity.position player) (Entity.radius player)
       (Entity.position ent) (Entity.radius ent)
  then
    let ent := Entity.set_active false ent in
    let st :=
      set_playerRef (Entity.set_health (Entity.health player - 20) player) st in
    (ent, spawnExplosion (Entity.position (playerRef st)) "#ff0000" st)
  else (ent, st).

(** Lines 235-239. *)
Definition enemyProjectileHitsPlayer (ent : Entity.t) (st : State)
  : Entity.t * State :=
  let player := playerRef st in
  if Entity.isEnemyProjectile (Entity.type ent) && Entity.active ent
     && checkCollision (Entity.position player) (Entity.radius player)
          (Entity.position ent) (Entity.radius ent)
  then
    let ent := Entity.set_active false ent in
    let st :=
      set_playerRef (Entity.set_health (Entity.health player - 10) player) st in
    (ent, spawnExplosion (Entity.position (playerRef st)) "#ffaa00" st)
  else (ent, st).

(** Lines 217-234. *)
Definition enemyCollisions (ent : Entity.t) (st : State)
  : Entity.t * State :=
  if Entity.isEnemy (Entity.type ent) && Entity.active ent then
    let '(ent, st) :=
      fold_left projectileHit (activePlayerProjectiles st) (ent, st) in
    enemyHitsPlayer ent st
  else (ent, st).

(** The callback of the outer [forEach], for the element at index [i]. *)
Definition entityCallback (dt scrollSpeed : R) (st : State) (i : nat)
  : State :=
  match nth_error (entitiesRef st) i with
  | None => st
  | Some ent =>
      if negb (Entity.active ent) then st
      else
        let '(ent, st) := moveEntity dt scrollSpeed ent st in
        let ent := cull ent in
        let st := storeEntity i ent st in
        let '(ent, st) := enemyCollisions ent st in
        let '(ent, st) := enemyProjectileHitsPlayer ent st in
        storeEntity i ent st
  end.

(** [forEach] visits the indices the array has when the call starts;
    elements pushed by the callback are not visited. *)
Definition entitiesPass (dt scrollSpeed : R) (st : State) : State :=
  fold_left (entityCallback dt scrollSpeed)
    (seq 0 (List.length (entitiesRef st))) st.

(** Line 242. *)
Definition compactEntities (st : State) : State :=
  set_entitiesRef (filter Entity.active (entitiesRef st)) st.

(** Lines 245-251. *)
Definition integrateParticle (dt : R) (p : Particle.t) : Particle.t :=
  let pos := Particle.position p in
  let vel := Particle.velocity p in
  Particle.mk
    (Vector3.mk (Vector3.x pos + Vector3.x vel * (dt / 16))
       (Vector3.y pos + Vector3.y vel * (dt / 16))
       (Vector3.z pos + Vector3.z vel * (dt / 16)))
    vel (Particle.life p - dt) (Particle.maxLife p) (Particle.color p).

Definition particlesPass (dt : R) (st : State) : State :=
  set_particlesRef
    (filter (fun p => Rgtb (Particle.life p) 0)
       (map (integrateParticle dt) (particlesRef st))) st.

Definition update (props : Props) (dt : R) (st : State) : State :=
  let st := updateReticle st in
  let st := moveShip props st in
  let st := thrusters st in
  let scrollSpeed := scrollSpeedOf props dt in
  let st := spawning props st in
  let st := firing props st in
  let st := entitiesPass dt scrollSpeed st in
  let st := compactEntities st in
  particlesPass dt st.

(** *** [animate], lines 97-130, and the host that calls it *)

(** Lines 111-128, after [render()]. *)
Definition report (props : Props) (st : State) : State :=
  if negb (paused props) then
    let st :=
      if Rneqb (scoreRef st) (lastReportedScoreRef st)
      then set_lastReportedScoreRef (scoreRef st)
             (emit (OnScoreUpdate (scoreRef st)) st)
      else st in
    let st :=
      if Rneqb (ceil (Entity.health (playerRef st)))
           (lastReportedHealthRef st)
      then
        let st :=
          set_lastReportedHealthRef
            (ceil (Entity.health (playerRef st))) st in
        emit (OnHealthUpdate (lastReportedHealthRef st)) st
      else st in
    if Rgtb (Entity.health (playerRef st)) 0
    then set_requestRef true st
    else emit (OnGameOver (scoreRef st)) st
  else set_requestRef true st.

Definition animate (props : Props) (time : R) (st : State) : State :=
  let st :=
    if Reqb (lastTimeRef st) 0 then set_lastTimeRef time st else st in
  let deltaTime := time - lastTimeRef st in
  let st := set_lastTimeRef time st in
  let st :=
    if negb (paused props)
    then update props deltaTime
           (set_gameTimeRef (gameTimeRef st + deltaTime) st)
    else st in
  let st := emit Render st in
  report props st.

(** What the host does between two renders of the component, with the
    props fixed: it delivers input events to the handlers of lines
    60-69, and at a display refresh it runs the pending frame callback,
    if there is one ([requestAnimationFrame] runs a callback once). *)
Inductive HostEvent : Type :=
| KeyDown (code : string)
| KeyUp (code : string)
| PointerMove (x y : R)
| Refresh (time : R).

Definition handleMove (props : Props) (x y : R) (st : State) : State :=
  if paused props then st
  else
    let normX := (x - width props / 2) / (width props / 2) in
    let normY := (y - height props / 2) / (height props / 2) in
    set_inputRef (Input.mk normX normY true) st.

Definition host (props : Props) (st : State) (e : HostEvent) : State :=
  match e with
  | KeyDown code => set_keysRef (setKey code true (keysRef st)) st
  | KeyUp code => set_keysRef (setKey code false (keysRef st)) st
  | PointerMove x y => handleMove props x y st
  | Refresh time =>
      if requestRef st then animate props time (set_requestRef false st)
      else st
  end.

Definition run (props : Props) (es : list HostEvent) (st : State) : State :=
  fold_left (host props) es st.

End GameEngine.

(** * Vocabulary of the statements

    Definitions used to state the facts below; none of them is part of
    the program. *)

Module Vocabulary.
Import GameEngine.

(** [st'] differs from [st] at most in the particles and in how far the
    random source has been read. *)
Definition cosmetic (st st' : State) : Prop :=
  exists ps r, st' = set_particlesRef ps (set_randomSource r st).

(** The entity [spawnProjectile] pushes, given the number its id is made
    from. *)
Definition projectileOf (startPos targetPos : Vector3.t) (isPlayer : bool)
  (rid : R) : Entity.t :=
  let speed := if isPlayer then 6.0 else 2.0 in
  let dx := Vector3.x targetPos - Vector3.x startPos in
  let dy := Vector3.y targetPos - Vector3.y startPos in
  let dz := Vector3.z targetPos - Vector3.z startPos in
  let dist := sqrt (dx*dx + dy*dy + dz*dz) in
  Entity.mk (Entity.OfNumber rid)
    (Vector3.mk (Vector3.x startPos) (Vector3.y startPos)
       (Vector3.z startPos + (if isPlayer then 5 else -5)))
    (Vector3.mk ((dx / dist) * speed) ((dy / dist) * speed)
       ((dz / dist) * speed))
    (Vector3.mk 1 1 1)
    (if isPlayer then Entity.PROJECTILE_Player else Entity.PROJECTILE_Enemy)
    true (if isPlayer then "#00ffaa" else "#ff5555")%string 0 1 0 2.

(** The entity [spawnEnemy] pushes, given the three random numbers. *)
Definition enemyOf (color : string) (rid rx ry : R) : Entity.t :=
  Entity.mk (Entity.OfNumber rid) (Vector3.mk (rx * 80 - 40) (ry * 20) 400)
    (Vector3.mk 0 0 0) (Vector3.mk 2.5 2.5 2.5)
    Entity.ENEMY_Interceptor true color 0 50 100 4.

(** [st'] keeps what the simulation step never writes (the log, the
    pending request, the last reported values, the clocks of the loop,
    the input) and has not raised the player's health. *)
Record steady (st st' : State) : Prop := mkSteady {
  steady_log : log st' = log st;
  steady_requestRef : requestRef st' = requestRef st;
  steady_lastReportedScoreRef :
    lastReportedScoreRef st' = lastReportedScoreRef st;
  steady_lastReportedHealthRef :
    lastReportedHealthRef st' = lastReportedHealthRef st;
  steady_lastTimeRef : lastTimeRef st' = lastTimeRef st;
  steady_gameTimeRef : gameTimeRef st' = gameTimeRef st;
  steady_keysRef : keysRef st' = keysRef st;
  steady_inputRef : inputRef st' = inputRef st;
  steady_health :
    Entity.health (playerRef st') <= Entity.health (playerRef st)
}.

(** Score bookkeeping: every entity of the store awards a non-negative
    number of points. *)
Definition nonnegScore (e : Entity.t) : Prop := 0 <= Entity.scoreValue e.

Definition scoresNonneg (st : State) : Prop :=
  Forall nonnegScore (entitiesRef st).

(** A sequence of simulation steps, each with its props and its elapsed
    time. *)
Definition simulate (steps : list (Props * R)) (st : State) : State :=
  fold_left (fun st step => update (fst step) (snd step) st) steps st.

(** What a helper does to the score and to the store's score values. *)
Definition scoreStep (st st' : State) : Prop :=
  scoresNonneg st' /\ scoreRef st <= scoreRef st'.

(** Score awards.  [sumR vs] is the sum of a list of awards.  A value
    is an enemy's value for [st] if it is the score value of an enemy of
    the store of [st], or the score value [spawnEnemy] gives the enemy
    it pushes.  An entity fits a set of values [V] if, being an enemy,
    its score value is in [V]; [awards V st st']: the store of [st']
    fits [V], and the score of [st'] is the score of [st] plus a list of
    values of [V]. *)
Definition sumR (vs : list R) : R := fold_right Rplus 0 vs.

Definition spawnedEnemyValue (v : R) : Prop :=
  exists c s e,
    entitiesRef (spawnEnemy c s) = entitiesRef s ++ [e]
    /\ Entity.scoreValue e = v.

Definition enemyValue (st : State) (v : R) : Prop :=
  (exists e, In e (entitiesRef st)
             /\ Entity.isEnemy (Entity.type e) = true
             /\ Entity.scoreValue e = v)
  \/ spawnedEnemyValue v.

Definition fitsValues (V : R -> Prop) (e : Entity.t) : Prop :=
  Entity.isEnemy (Entity.type e) = true -> V (Entity.scoreValue e).

Definition awards (V : R -> Prop) (st st' : State) : Prop :=
  Forall (fitsValues V) (entitiesRef st')
  /\ exists vs, scoreRef st' = scoreRef st + sumR vs /\ Forall V vs.

(** The element at index [i] of the store is [e]. *)
Definition holds (i : nat) (e : Entity.t) (st : State) : Prop :=
  nth_error (entitiesRef st) i = Some e.

(** Firing.  The point the raw input aims at, the velocity of a shot
    from [ship] toward [aim] (speed 6 along the normalized difference),
    and the wall time since the last shot, read at the step's first
    call of [timeNow()]. *)
Definition aimPoint (props : Props) (st : State) : Vector3.t :=
  VectorMath.unprojectVector (Input.x (inputRef st)) (Input.y (inputRef st))
    400 (width props) (height props).

Definition norm (v : Vector3.t) : R :=
  sqrt (Vector3.x v * Vector3.x v + Vector3.y v * Vector3.y v
        + Vector3.z v * Vector3.z v).

Definition minus (a b : Vector3.t) : Vector3.t :=
  Vector3.mk (Vector3.x a - Vector3.x b) (Vector3.y a - Vector3.y b)
    (Vector3.z a - Vector3.z b).

Definition aimVelocity (ship aim : Vector3.t) : Vector3.t :=
  let d := minus aim ship in
  Vector3.mk (Vector3.x d / norm d * 6) (Vector3.y d / norm d * 6)
    (Vector3.z d / norm d * 6).

Definition sinceLastShot (st : State) : R :=
  clock st 0%nat - lastFireTimeRef st.

(** The types of the store's entities, in order, and the number of
    player projectiles among them. *)
Definition typesOf (st : State) : list Entity.type_t :=
  map Entity.type (entitiesRef st).

Definition countPlayerProjectiles (ts : list Entity.type_t) : nat :=
  List.length (filter Entity.isPlayerProjectile ts).

(** [st'] has the entities of [st], type for type, followed by enemy
    projectiles only. *)
Definition appendsEnemyShots (st st' : State) : Prop :=
  exists extra,
    typesOf st' = typesOf st ++ extra
    /\ Forall (fun ty => ty = Entity.PROJECTILE_Enemy) extra.

(** The step up to the end of the entity pass, before compaction. *)
Definition beforeCompaction (props : Props) (dt : R) (st : State) : State :=
  entitiesPass dt (scrollSpeedOf props dt)
    (firing props
       (spawning props (thrusters (moveShip props (updateReticle st))))).

(** Reporting.  The state [animate] has reached when it calls
    [render()], and the notifications it sends after it. *)
Definition simulated (props : Props) (time : R) (st : State) : State :=
  let st :=
    if Reqb (lastTimeRef st) 0 then set_lastTimeRef time st else st in
  let deltaTime := time - lastTimeRef st in
  let st := set_lastTimeRef time st in
  if negb (paused props)
  then update props deltaTime
         (set_gameTimeRef (gameTimeRef st + deltaTime) st)
  else st.

Definition scoreReport (st : State) : list Event :=
  if Rneqb (scoreRef st) (lastReportedScoreRef st)
  then [OnScoreUpdate (scoreRef st)] else [].

Definition healthReport (st : State) : list Event :=
  if Rneqb (ceil (Entity.health (playerRef st))) (lastReportedHealthRef st)
  then [OnHealthUpdate (ceil (Entity.health (playerRef st)))] else [].

Definition gameOverReport (st : State) : list Event :=
  if Rgtb (Entity.health (playerRef st)) 0 then []
  else [OnGameOver (scoreRef st)].

Definition reports (props : Props) (st : State) : list Event :=
  if paused props then []
  else scoreReport st ++ healthReport st ++ gameOverReport st.


Definition isGameOver (e : Event) : bool :=
  match e with OnGameOver _ => true | _ => false end.

Definition isRender (e : Event) : bool :=
  match e with Render => true | _ => false end.

(** The position an enemy has after its own move of the frame, and a
    player projectile after its own. *)
Definition enemyMoved (scrollSpeed : R) (e : Entity.t) : Vector3.t :=
  let pos := Entity.position e in
  let z' := Vector3.z pos - scrollSpeed in
  Vector3.mk
    (Vector3.x pos
     + sin (z' * 0.02 + Entity.idNumber (Entity.id e)) * 0.3)
    (Vector3.y pos) z'.

Definition projectileMoved (dt : R) (e : Entity.t) : Vector3.t :=
  let pos := Entity.position e in
  let vel := Entity.velocity e in
  Vector3.mk (Vector3.x pos + Vector3.x vel * (dt / 16))
    (Vector3.y pos + Vector3.y vel * (dt / 16))
    (Vector3.z pos + Vector3.z vel * (dt / 16)).

(** [z] is inside the band the out-of-bounds test of line 214 keeps. *)
Definition inBounds (p : Vector3.t) : Prop :=
  -40 <= Vector3.z p <= 500.

(** The enemy's shot of line 209: whether it is fired, and the entity
    pushed (its id is made from the random number after the one the
    test has read). *)
Definition enemyShoots (scrollSpeed : R) (e : Entity.t) (st : State) : bool :=
  Rltb (randomSource st 0%nat) 0.015
  && Rgtb (Vector3.z (enemyMoved scrollSpeed e)) 50
  && Rltb (Vector3.z (enemyMoved scrollSpeed e)) 300.

Definition enemyShot (scrollSpeed : R) (e : Entity.t) (st : State)
  : list Entity.t :=
  if enemyShoots scrollSpeed e st
  then [projectileOf (enemyMoved scrollSpeed e)
          (Entity.position (playerRef st)) false (randomSource st 1%nat)]
  else [].

(** The indices of the active player projectiles of a list of entities
    that starts at index [k]. *)
Fixpoint activeFrom (k : nat) (l : list Entity.t) : list nat :=
  match l with
  | [] => []
  | e :: t =>
      if Entity.isPlayerProjectile (Entity.type e) && Entity.active e
      then k :: activeFrom (S k) t
      else activeFrom (S k) t
  end.

(** A scenario.  The ship, down to 10 points of health, sits at the
    origin with the pointer at the centre of an 800 x 600 surface; one
    interceptor is 9 units ahead of it; the last shot was 50 ms ago;
    the last frame was at time 1000 and the next one comes at 1016. *)
Definition rammingProps : Props :=
  mkProps (MissionData.mk "Sector" "Hold the line" "#ff00ff" 0.5 1)
    800 600 false.

Definition rammingEnemy : Entity.t :=
  Entity.mk (Entity.OfNumber 0.5) (Vector3.mk 0 0 9) (Vector3.mk 0 0 0)
    (Vector3.mk 2.5 2.5 2.5) Entity.ENEMY_Interceptor true "#ff00ff"
    0 50 100 4.

Definition rammingState : State :=
  mkState 1000 (Entity.set_health 10 initialPlayer) [rammingEnemy] []
    0 0 10 1000 (fun _ => false) 1700000000000
    (Input.mk 0 0 false) (Reticle.mk 0 0) true
    (fun _ => 0.5) (fun _ => 1700000000050) [].



(** An enemy as its callback leaves it after a hit by a player
    projectile and a collision with the player. *)
Definition rammedEnemy (scrollSpeed : R) (B : Entity.t) : Entity.t :=
  Entity.set_active false
    (Entity.set_health (Entity.health B - 50)
       (Entity.set_position (enemyMoved scrollSpeed B) B)).

(** The points a hit is worth: the enemy's score value if the hit
    brings its health to zero or below, nothing otherwise. *)
Definition killBonus (B : Entity.t) : R :=
  if Rleb (Entity.health B - 50) 0 then Entity.scoreValue B else 0.

(** A second scenario: a ship at full health at the origin, a player
    projectile fired from it (5 units ahead, speed 6 straight on), an
    interceptor in front of it, a 16 ms frame at scroll speed 2.5. *)
Definition duelShot : Entity.t :=
  Entity.mk (Entity.OfNumber 0.25) (Vector3.mk 0 0 5) (Vector3.mk 0 0 6)
    (Vector3.mk 1 1 1) Entity.PROJECTILE_Player true "#00ffaa" 0 1 0 2.

Definition duelEnemy (z : R) : Entity.t :=
  Entity.mk (Entity.OfNumber 0.5) (Vector3.mk 0 0 z) (Vector3.mk 0 0 0)
    (Vector3.mk 2.5 2.5 2.5) Entity.ENEMY_Interceptor true "#ff00ff"
    0 50 100 4.

Definition duelState (store : list Entity.t) : State :=
  set_entitiesRef store
    (initialState (fun _ => 0.5) (fun _ => 1700000000000)).

(** A third scenario: the second one with the interceptor in reach of
    the shot and of the ship, and with the last shot fired at the very
    time the clock shows, so that the frame fires nothing. *)
Definition killState : State :=
  set_lastFireTimeRef 1700000000000 (duelState [duelEnemy 6.9; duelShot]).

(** The display refreshes among the events the host delivers. *)
Definition isRefresh (e : HostEvent) : bool :=
  match e with Refresh _ => true | _ => false end.

Definition refreshes (es : list HostEvent) : nat :=
  List.length (filter isRefresh es).

Definition isScoreUpdate (e : Event) : bool :=
  match e with OnScoreUpdate _ => true | _ => false end.

(** The log holds no game-over notification, or it ends with the only
    one it holds and no frame is pending. *)
Definition gameOverOnceLast (st : State) : Prop :=
  filter isGameOver (log st) = []
  \/ (requestRef st = false
      /\ exists l s,
          log st = l ++ [OnGameOver s] /\ filter isGameOver l = []).

(** [st'] is [st] after some simulation that leaves the ship where it is:
    it differs from [st] at most in the ship's health, which has not
    grown, in the store, the particles, the score, and in how far the
    random source and the clock have been read and when the last shot
    was fired. *)
Definition simulationOnly (st st' : State) : Prop :=
  exists h es ps sc r c lf,
    h <= Entity.health (playerRef st)
    /\ st' = set_playerRef (Entity.set_health h (playerRef st))
               (set_entitiesRef es
                  (set_particlesRef ps
                     (set_scoreRef sc
                        (set_randomSource r
                           (set_clock c (set_lastFireTimeRef lf st)))))).

(** The step after the reticle and the ship have moved. *)
Definition afterShip (props : Props) (dt : R) (st : State) : State :=
  particlesPass dt
    (compactEntities
       (entitiesPass dt (scrollSpeedOf props dt)
          (firing props (spawning props (thrusters st))))).

(** The bounds [moveShip] clamps its target to. *)
Definition xLimit (props : Props) : R :=
  Rmax 10
    (Vector3.x (VectorMath.unprojectVector 1 0 0 (width props) (height props))
     - SHIP_MARGIN).

Definition yMax (props : Props) : R :=
  Vector3.y (VectorMath.unprojectVector 0 (-1) 0 (width props) (height props))
  - 3.

Definition shipTarget (props : Props) (i : Input.t) : R * R :=
  let m :=
    VectorMath.unprojectVector (Input.x i) (Input.y i) 0
      (width props) (height props) in
  (Rmax (- xLimit props) (Rmin (xLimit props) (Vector3.x m)),
   Rmax (FLOOR_Y + 1) (Rmin (yMax props) (Vector3.y m))).

(** The random source returns numbers of [0, 1), as [Math.random()] does. *)
Definition unitRandoms (st : State) : Prop :=
  forall n, 0 <= randomSource st n < 1.

(** A particle of an explosion at [pos] in colour [c]: it starts there,
    lives 500 ms, and (for a random source in [0, 1)) flies off at no
    more than 1.5 units per axis. *)
Definition explosionParticleAt (pos : Vector3.t) (c : string)
  (p : Particle.t) : Prop :=
  Particle.position p = pos /\ Particle.life p = 500
  /\ Particle.maxLife p = 500 /\ Particle.color p = c.

Definition slowParticle (p : Particle.t) : Prop :=
  -1.5 <= Vector3.x (Particle.velocity p) <= 1.5
  /\ -1.5 <= Vector3.y (Particle.velocity p) <= 1.5
  /\ -1.5 <= Vector3.z (Particle.velocity p) <= 1.5.

(** Keyboard events, and a run of the host with them taken out. *)
Definition isKeyEvent (e : HostEvent) : bool :=
  match e with KeyDown _ | KeyUp _ => true | _ => false end.

Definition withoutKeys (es : list HostEvent) : list HostEvent :=
  filter (fun e => negb (isKeyEvent e)) es.

(** The result of a callback step, with the key map replaced. *)
Definition withKeys (k : KeyState) (p : Entity.t * State)
  : Entity.t * State :=
  (fst p, set_keysRef k (snd p)).

(** The entity pass, element by element. *)

(** Where an entity is after its own move of the frame. *)
Definition turnOf (dt scrollSpeed : R) (e : Entity.t) : Vector3.t :=
  match Entity.type e with
  | Entity.PROJECTILE_Player => projectileMoved dt e
  | Entity.PROJECTILE_Enemy =>
      Vector3.mk (Vector3.x (Entity.position e))
        (Vector3.y (Entity.position e))
        (Vector3.z (Entity.position e) - 2.0 * (dt / 16))
  | Entity.ENEMY_Interceptor | Entity.ENEMY_Turret =>
      enemyMoved scrollSpeed e
  | _ => Entity.position e
  end.

(** What the callback of another element can do to an element: nothing,
    or, to a player projectile, switch it off. *)
Definition fades (e e' : Entity.t) : Prop :=
  e' = e
  \/ (Entity.isPlayerProjectile (Entity.type e) = true
      /\ e' = Entity.set_active false e).

(** What a callback can do to its own element besides moving it: the
    place, the type and the velocity stay, the liveness flag can only
    fall. *)
Definition settles (e e' : Entity.t) : Prop :=
  Entity.position e' = Entity.position e
  /\ Entity.type e' = Entity.type e
  /\ Entity.velocity e' = Entity.velocity e
  /\ (Entity.active e' = true -> Entity.active e = true).

(** An enemy's shot as it is pushed: live, and inside the band
    z in (45, 295). *)
Definition shotLike (e : Entity.t) : Prop :=
  Entity.type e = Entity.PROJECTILE_Enemy
  /\ Entity.active e = true
  /\ 45 < Vector3.z (Entity.position e) < 295.

(** What the callback of index [k] does to the rest of the store. *)
Definition spares (k : nat) (st st' : State) : Prop :=
  (List.length (entitiesRef st) <= List.length (entitiesRef st'))%nat
  /\ (forall i e, i <> k -> holds i e st ->
        exists e', holds i e' st' /\ fades e e')
  /\ (forall i e', (List.length (entitiesRef st) <= i)%nat ->
        holds i e' st' -> shotLike e').

(** The entity is fit to stay in the store. *)
Definition keptEntity (e : Entity.t) : Prop :=
  Entity.active e = true /\ inBounds (Entity.position e).

(** Particles.  A particle has not outlived its allowance; a state adds
    such particles behind the ones another state has. *)
Definition withinLife (p : Particle.t) : Prop :=
  Particle.life p <= Particle.maxLife p.

Definition addsParticles (st st' : State) : Prop :=
  exists ps,
    particlesRef st' = particlesRef st ++ ps /\ Forall withinLife ps.

(** The opacity [p.life / p.maxLife] the renderer gives a particle is
    in (0, 1]. *)
Definition litParticle (p : Particle.t) : Prop :=
  0 < Particle.life p <= Particle.maxLife p.

End Vocabulary.

(** * Facts *)

(** ** The boolean comparisons decide the order of the reals *)

Lemma Rltb_true (a b : R) : Rltb a b = true <-> a < b.
Proof. unfold Rltb. destruct (Rlt_dec a b); split; auto; discriminate. Qed.

Lemma Rltb_false (a b : R) : Rltb a b = false <-> b <= a.
Proof.
  unfold Rltb. destruct (Rlt_dec a b); split; intros; try discriminate; lra.
Qed.

Lemma Rleb_true (a b : R) : Rleb a b = true <-> a <= b.
Proof. unfold Rleb. destruct (Rle_dec a b); split; auto; discriminate. Qed.

Lemma Rleb_false (a b : R) : Rleb a b = false <-> b < a.
Proof.
  unfold Rleb. destruct (Rle_dec a b); split; intros; try discriminate; lra.
Qed.

Lemma Rgtb_true (a b : R) : Rgtb a b = true <-> a > b.
Proof. unfold Rgtb. rewrite Rltb_true. lra. Qed.

Lemma Rgtb_false (a b : R) : Rgtb a b = false <-> a <= b.
Proof. unfold Rgtb. apply Rltb_false. Qed.

Lemma Reqb_true (a b : R) : Reqb a b = true <-> a = b.
Proof. unfold Reqb. destruct (Req_dec_T a b); split; auto; discriminate. Qed.

Lemma Reqb_false (a b : R) : Reqb a b = false <-> a <> b.
Proof.
  unfold Reqb. destruct (Req_dec_T a b); split; intros; try discriminate;
    congruence.
Qed.

Lemma Rneqb_true (a b : R) : Rneqb a b = true <-> a <> b.
Proof. unfold Rneqb. rewrite negb_true_iff. apply Reqb_false. Qed.

Lemma Rneqb_false (a b : R) : Rneqb a b = false <-> a = b.
Proof. unfold Rneqb. rewrite negb_false_iff. apply Reqb_true. Qed.

(** Rewriting a comparison whose outcome is known. *)
Lemma Rltb_true_intro (a b : R) : a < b -> Rltb a b = true.
Proof. apply Rltb_true. Qed.

Lemma Rltb_false_intro (a b : R) : b <= a -> Rltb a b = false.
Proof. apply Rltb_false. Qed.

Lemma Rleb_true_intro (a b : R) : a <= b -> Rleb a b = true.
Proof. apply Rleb_true. Qed.

Lemma Rleb_false_intro (a b : R) : b < a -> Rleb a b = false.
Proof. apply Rleb_false. Qed.

Lemma Rgtb_true_intro (a b : R) : b < a -> Rgtb a b = true.
Proof. intros. apply Rgtb_true. lra. Qed.

Lemma Rgtb_false_intro (a b : R) : a <= b -> Rgtb a b = false.
Proof. apply Rgtb_false. Qed.

(** ** The camera pitch *)

Section Pitch.

Lemma pitch_in_quadrant : - (PI / 2) < 0.2 < PI / 2.
Proof. generalize PI2_3_2; lra. Qed.

Lemma cos_pitch_pos : 0 < cos 0.2.
Proof. apply cos_gt_0; apply pitch_in_quadrant. Qed.

Lemma sin_pitch_bounds : 0 < sin 0.2 < 0.2.
Proof.
  split.
  - apply sin_gt_0; [lra | generalize PI2_3_2; lra].
  - apply sin_lt_x; lra.
Qed.

Lemma cos_pitch_bounds : 0.98 < cos 0.2 <= 1.
Proof.
  split; [| apply COS_bound].
  replace 0.2 with (2 * 0.1) by lra.
  rewrite cos_2a_sin.
  assert (H1 : 0 < sin 0.1) by (apply sin_gt_0; [lra | generalize PI2_3_2; lra]).
  assert (H2 : sin 0.1 < 0.1) by (apply sin_lt_x; lra).
  nra.
Qed.

Lemma pythagoras_pitch : sin 0.2 * sin 0.2 + cos 0.2 * cos 0.2 = 1.
Proof. generalize (sin2_cos2 0.2). unfold Rsqr. tauto. Qed.

Lemma tan_pitch : tan 0.2 = sin 0.2 / cos 0.2.
Proof. reflexivity. Qed.

End Pitch.

(** ** The projection module *)

Section Projection.
Import VectorMath.

Lemma checkCollision_spec (a : Vector3.t) (rA : R) (b : Vector3.t) (rB : R) :
  checkCollision a rA b rB = true <-> distSq a b < (rA + rB) * (rA + rB).
Proof. unfold checkCollision, distSq. cbv zeta. apply Rltb_true. Qed.

Lemma checkCollision_false (a : Vector3.t) (rA : R) (b : Vector3.t) (rB : R) :
  checkCollision a rA b rB = false <-> (rA + rB) * (rA + rB) <= distSq a b.
Proof. unfold checkCollision, distSq. cbv zeta. apply Rltb_false. Qed.

(** C4.  [checkCollision] answers [true] exactly when the squared
    distance between the centres is strictly below the squared sum of
    the radii; a tie is not a collision.  Two unit spheres whose centres
    are exactly 2 apart do not collide, and they do at 1.999 apart. *)
Theorem checkCollision_boundary :
  (forall a rA b rB,
      checkCollision a rA b rB = true
      <-> distSq a b < (rA + rB) * (rA + rB))
  /\ (forall a rA b rB,
         distSq a b = (rA + rB) * (rA + rB) ->
         checkCollision a rA b rB = false)
  /\ (forall a b, distSq a b = 2 * 2 -> checkCollision a 1 b 1 = false)
  /\ (forall a b,
         distSq a b = 1.999 * 1.999 -> checkCollision a 1 b 1 = true)
  /\ checkCollision (Vector3.mk 0 0 0) 1 (Vector3.mk 2 0 0) 1 = false
  /\ checkCollision (Vector3.mk 0 0 0) 1 (Vector3.mk 0 1.999 0) 1 = true.
Proof.
  repeat split.
  - apply checkCollision_spec.
  - apply checkCollision_spec.
  - intros a rA b rB H. apply checkCollision_false. lra.
  - intros a b H. apply checkCollision_false. lra.
  - intros a b H. apply checkCollision_spec. lra.
  - apply checkCollision_false. unfold distSq. simpl. lra.
  - apply checkCollision_spec. unfold distSq. simpl. lra.
Qed.

(** [projectVector] in terms of the pitched coordinates. *)
Lemma projectVector_unfold (p : Vector3.t) (W H c : R) :
  projectVector p W H c =
  if Rleb (pitchedDepth p) 1 || Rgtb (pitchedDepth p) 5000 then None
  else Some (Vector2.mk
               ((Vector3.x p - 0) * (500 / pitchedDepth p) + W / 2)
               (- pitchedY p * (500 / pitchedDepth p) + H / 2)).
Proof.
  unfold projectVector, pitchedDepth, pitchedY, CAMERA_POS, CAMERA_PITCH,
    NEAR_CLIP, VIEW_DISTANCE, FOV.
  cbn [Vector3.x Vector3.y Vector3.z].
  replace (Vector3.z p - -30) with (Vector3.z p + 30) by lra.
  reflexivity.
Qed.

Lemma projectVector_clipped (p : Vector3.t) (W H c : R) :
  pitchedDepth p <= 1 \/ pitchedDepth p > 5000 ->
  projectVector p W H c = None.
Proof.
  intros Hc. rewrite projectVector_unfold.
  destruct Hc as [Hc | Hc].
  - rewrite (Rleb_true_intro _ _ Hc). reflexivity.
  - rewrite (Rgtb_true_intro _ _ Hc). rewrite orb_true_r. reflexivity.
Qed.

Lemma projectVector_visible (p : Vector3.t) (W H c : R) :
  1 < pitchedDepth p <= 5000 ->
  projectVector p W H c =
  Some (Vector2.mk
          ((Vector3.x p - 0) * (500 / pitchedDepth p) + W / 2)
          (- pitchedY p * (500 / pitchedDepth p) + H / 2)).
Proof.
  intros [Hn Hf]. rewrite projectVector_unfold.
  rewrite (Rleb_false_intro _ _ Hn), (Rgtb_false_intro _ _ Hf).
  reflexivity.
Qed.

(** C5.  [projectVector] is a total function (it raises nothing): it
    returns the sentinel exactly when the pitched depth [pz] is at most
    the near clip 1 or beyond the view distance 5000, and otherwise the
    screen point [((p.x - 0) * (500 / pz) + W/2, - py * (500 / pz) + H/2)]. *)
Theorem projectVector_clipping (p : Vector3.t) (W H c : R) :
  (projectVector p W H c = None
   <-> pitchedDepth p <= 1 \/ pitchedDepth p > 5000)
  /\ (~ (pitchedDepth p <= 1 \/ pitchedDepth p > 5000) ->
      projectVector p W H c =
      Some (Vector2.mk
              ((Vector3.x p - 0) * (500 / pitchedDepth p) + W / 2)
              (- pitchedY p * (500 / pitchedDepth p) + H / 2))).
Proof.
  destruct (Rle_dec (pitchedDepth p) 1) as [Hn | Hn].
  { split; [split; [auto | intros _; apply projectVector_clipped; auto] |].
    intros Hne. exfalso. apply Hne. auto. }
  destruct (Rlt_dec 5000 (pitchedDepth p)) as [Hf | Hf].
  { split; [split; [auto | intros _; apply projectVector_clipped; auto] |].
    intros Hne. exfalso. apply Hne. auto. }
  assert (Hv : 1 < pitchedDepth p <= 5000) by lra.
  split.
  - split; [| lra].
    rewrite (projectVector_visible p W H c Hv). discriminate.
  - intros _. apply projectVector_visible. exact Hv.
Qed.

(** C10.  The last argument of [projectVector] and of [getScaleFactor]
    is dead: the result does not depend on it. *)
Theorem cameraZ_noninterference :
  (forall v W H c1 c2, projectVector v W H c1 = projectVector v W H c2)
  /\ (forall z c1 c2, getScaleFactor z c1 = getScaleFactor z c2).
Proof. split; reflexivity. Qed.

(** The depth [unprojectVector] solves for, in closed form. *)
Lemma unproject_depth (normY targetZ H : R) :
  1 - slopeY normY H * tan 0.2 <> 0 ->
  ((targetZ + 30) * (sin 0.2 * tan 0.2 + cos 0.2))
  / (1 - slopeY normY H * tan 0.2)
  = (targetZ + 30) / (cos 0.2 - slopeY normY H * sin 0.2).
Proof.
  intros Hd.
  pose proof cos_pitch_pos as Hc.
  pose proof pythagoras_pitch as Hp.
  rewrite tan_pitch in *.
  assert (Hd' : cos 0.2 - slopeY normY H * sin 0.2 <> 0).
  { intros E. apply Hd.
    replace (1 - slopeY normY H * (sin 0.2 / cos 0.2))
      with ((cos 0.2 - slopeY normY H * sin 0.2) / cos 0.2)
      by (field; lra).
    rewrite E. lra. }
  replace (sin 0.2 * (sin 0.2 / cos 0.2) + cos 0.2)
    with ((sin 0.2 * sin 0.2 + cos 0.2 * cos 0.2) / cos 0.2)
    by (field; lra).
  rewrite Hp. field. split; [lra |].
  intros E. apply Hd'. lra.
Qed.

(** The three coordinates of the unprojected point, with [P] the depth
    solved for. *)
Lemma unprojectVector_unfold (normX normY targetZ W H : R) :
  let P := ((targetZ + 30) * (sin 0.2 * tan 0.2 + cos 0.2))
           / (1 - slopeY normY H * tan 0.2) in
  unprojectVector normX normY targetZ W H =
  Vector3.mk (normX * (W / 2) / (500 / P) + 0)
    (slopeY normY H * P * cos 0.2 + P * sin 0.2 + 8) targetZ.
Proof.
  unfold unprojectVector, slopeY, CAMERA_POS, CAMERA_PITCH, FOV.
  cbn [Vector3.x Vector3.y Vector3.z].
  replace (targetZ - -30) with (targetZ + 30) by lra.
  reflexivity.
Qed.

(** Pitching the unprojected point gives back the depth solved for and
    the wanted slope. *)
Lemma unproject_pitched (normX normY targetZ W H : R) :
  1 - slopeY normY H * tan 0.2 <> 0 ->
  let P := (targetZ + 30) / (cos 0.2 - slopeY normY H * sin 0.2) in
  pitchedDepth (unprojectVector normX normY targetZ W H) = P
  /\ pitchedY (unprojectVector normX normY targetZ W H)
     = slopeY normY H * P.
Proof.
  intros Hd P.
  pose proof cos_pitch_pos as Hc.
  pose proof pythagoras_pitch as Hp.
  assert (Hd' : cos 0.2 - slopeY normY H * sin 0.2 <> 0).
  { intros E. apply Hd. rewrite tan_pitch.
    replace (1 - slopeY normY H * (sin 0.2 / cos 0.2))
      with ((cos 0.2 - slopeY normY H * sin 0.2) / cos 0.2)
      by (field; lra).
    rewrite E. lra. }
  assert (HZ : targetZ + 30 = P * (cos 0.2 - slopeY normY H * sin 0.2)).
  { unfold P. field. exact Hd'. }
  rewrite unprojectVector_unfold. cbv zeta.
  rewrite (unproject_depth normY targetZ H Hd). fold P.
  unfold pitchedDepth, pitchedY. cbn [Vector3.x Vector3.y Vector3.z].
  rewrite HZ.
  split.
  - replace ((slopeY normY H * P * cos 0.2 + P * sin 0.2 + 8 - 8) * sin 0.2
             + P * (cos 0.2 - slopeY normY H * sin 0.2) * cos 0.2)
      with (P * (sin 0.2 * sin 0.2 + cos 0.2 * cos 0.2)) by ring.
    rewrite Hp. ring.
  - replace ((slopeY normY H * P * cos 0.2 + P * sin 0.2 + 8 - 8) * cos 0.2
             - P * (cos 0.2 - slopeY normY H * sin 0.2) * sin 0.2)
      with (slopeY normY H * P * (sin 0.2 * sin 0.2 + cos 0.2 * cos 0.2))
      by ring.
    rewrite Hp. ring.
Qed.

(** C1.  Round trip over the reals: where the inverse is not degenerate
    ([1 - slopeY * tan 0.2] is not zero) and the unprojected point lies
    in the visible depth range (pitched depth above 1 and at most 5000),
    projecting the unprojected point gives back the screen point
    [(normX * W/2 + W/2, normY * H/2 + H/2)]. *)
Theorem project_unproject_roundtrip (normX normY z W H c : R) :
  1 - slopeY normY H * tan 0.2 <> 0 ->
  1 < pitchedDepth (unprojectVector normX normY z W H) <= 5000 ->
  projectVector (unprojectVector normX normY z W H) W H c
  = Some (Vector2.mk (normX * W / 2 + W / 2) (normY * H / 2 + H / 2)).
Proof.
  intros Hd Hv.
  rewrite (projectVector_visible _ W H c Hv).
  destruct (unproject_pitched normX normY z W H Hd) as [HP HY].
  cbv zeta in HP, HY.
  set (P := (z + 30) / (cos 0.2 - slopeY normY H * sin 0.2)) in *.
  rewrite HY, HP in *.
  assert (HP0 : P <> 0) by lra.
  f_equal. f_equal.
  - rewrite unprojectVector_unfold. cbv zeta.
    rewrite (unproject_depth normY z H Hd). fold P.
    cbn [Vector3.x]. field. exact HP0.
  - unfold slopeY, FOV. field. exact HP0.
Qed.

Lemma unproject_origin_depth :
  1 < pitchedDepth (unprojectVector 0 0 0 800 600) <= 5000.
Proof.
  assert (Hd : 1 - slopeY 0 600 * tan 0.2 <> 0).
  { unfold slopeY, FOV. lra. }
  destruct (unproject_pitched 0 0 0 800 600 Hd) as [HP _].
  cbv zeta in HP. rewrite HP.
  unfold slopeY, FOV.
  pose proof cos_pitch_bounds as [Hl Hu].
  replace (cos 0.2 - - (0 * (600 / 2)) / 500 * sin 0.2) with (cos 0.2)
    by lra.
  replace (0 + 30) with 30 by lra.
  assert (H1 : 30 / cos 0.2 = 30 * / cos 0.2) by reflexivity.
  assert (Hi : 1 <= / cos 0.2 < / 0.98).
  { split.
    - rewrite <- Rinv_1 at 1. apply Rinv_le_contravar; lra.
    - apply Rinv_lt_contravar; nra. }
  rewrite H1. split; [lra |].
  assert (/ 0.98 < 2) by lra. lra.
Qed.

Lemma project_unproject_roundtrip_witness :
  projectVector (unprojectVector 0 0 0 800 600) 800 600 0
  = Some (Vector2.mk (0 * 800 / 2 + 800 / 2) (0 * 600 / 2 + 600 / 2)).
Proof.
  apply project_unproject_roundtrip.
  - unfold slopeY, FOV. lra.
  - exact unproject_origin_depth.
Defined.

End Projection.

(** ** The simulation step: what each helper leaves alone *)

Section Frames.
Import GameEngine Vocabulary.


Lemma cosmetic_refl (st : State) : cosmetic st st.
Proof. exists (particlesRef st), (randomSource st). destruct st; reflexivity. Qed.

Lemma cosmetic_trans (a b c : State) :
  cosmetic a b -> cosmetic b c -> cosmetic a c.
Proof.
  intros (ps & r & ->) (ps' & r' & ->). exists ps', r'.
  destruct a; reflexivity.
Qed.

Lemma random_cosmetic (st : State) : cosmetic st (snd (random st)).
Proof.
  exists (particlesRef st), (fun n => randomSource st (S n)).
  destruct st; reflexivity.
Qed.

Lemma pushParticle_cosmetic (p : Particle.t) (st : State) :
  cosmetic st (pushParticle p st).
Proof.
  exists (particlesRef st ++ [p]), (randomSource st).
  destruct st; reflexivity.
Qed.

Lemma explosionParticle_cosmetic pos color (st : State) :
  cosmetic st (explosionParticle pos color st).
Proof.
  unfold explosionParticle. cbn.
  eapply cosmetic_trans; [| apply pushParticle_cosmetic].
  eapply cosmetic_trans; [| apply random_cosmetic].
  eapply cosmetic_trans; [| apply random_cosmetic].
  apply random_cosmetic.
Qed.

Lemma spawnExplosion_cosmetic pos color (st : State) :
  cosmetic st (spawnExplosion pos color st).
Proof.
  unfold spawnExplosion. generalize 15%nat. intros n.
  induction n as [| n IH]; cbn [Nat.iter].
  - apply cosmetic_refl.
  - eapply cosmetic_trans; [exact IH | apply explosionParticle_cosmetic].
Qed.

End Frames.

(** Replace every explosion of the goal by the little it does: some
    particles, some reads of the random source. *)
Ltac forget_explosions :=
  repeat match goal with
    | |- context [GameEngine.spawnExplosion ?p ?c ?s] =>
        let ps := fresh "ps" in
        let r := fresh "r" in
        let E := fresh "E" in
        destruct (spawnExplosion_cosmetic p c s) as (ps & r & E);
        rewrite E; clear E
    end.

Section Steady.
Import GameEngine Vocabulary.

Lemma spawnThrusterParticle_cosmetic pos rot (st : State) :
  cosmetic st (spawnThrusterParticle pos rot st).
Proof.
  unfold spawnThrusterParticle. cbn.
  do 5 (eapply cosmetic_trans;
        [| first [apply pushParticle_cosmetic | apply random_cosmetic]]).
  apply random_cosmetic.
Qed.

Lemma thrusters_cosmetic (st : State) : cosmetic st (thrusters st).
Proof.
  unfold thrusters. destruct (Rltb _ _).
  - apply spawnThrusterParticle_cosmetic.
  - apply cosmetic_refl.
Qed.

Lemma particlesPass_cosmetic dt (st : State) :
  cosmetic st (particlesPass dt st).
Proof.
  unfold particlesPass. eexists _, (randomSource st).
  destruct st; reflexivity.
Qed.

(** A cosmetic change is invisible to every other cell. *)
Lemma cosmetic_entitiesRef st st' :
  cosmetic st st' -> entitiesRef st' = entitiesRef st.
Proof. intros (ps & r & ->). reflexivity. Qed.

Lemma cosmetic_playerRef st st' :
  cosmetic st st' -> playerRef st' = playerRef st.
Proof. intros (ps & r & ->). reflexivity. Qed.

Lemma cosmetic_scoreRef st st' :
  cosmetic st st' -> scoreRef st' = scoreRef st.
Proof. intros (ps & r & ->). reflexivity. Qed.

Lemma cosmetic_clock st st' : cosmetic st st' -> clock st' = clock st.
Proof. intros (ps & r & ->). reflexivity. Qed.

Lemma cosmetic_lastFireTimeRef st st' :
  cosmetic st st' -> lastFireTimeRef st' = lastFireTimeRef st.
Proof. intros (ps & r & ->). reflexivity. Qed.

Lemma cosmetic_inputRef st st' :
  cosmetic st st' -> inputRef st' = inputRef st.
Proof. intros (ps & r & ->). reflexivity. Qed.

Lemma cosmetic_keysRef st st' :
  cosmetic st st' -> keysRef st' = keysRef st.
Proof. intros (ps & r & ->). reflexivity. Qed.

Lemma cosmetic_gameTimeRef st st' :
  cosmetic st st' -> gameTimeRef st' = gameTimeRef st.
Proof. intros (ps & r & ->). reflexivity. Qed.


Lemma spawnProjectile_eq startPos targetPos isPlayer (st : State) :
  spawnProjectile startPos targetPos isPlayer st
  = pushEntity (projectileOf startPos targetPos isPlayer (randomSource st 0%nat))
      (snd (random st)).
Proof. reflexivity. Qed.


Lemma spawnEnemy_eq color (st : State) :
  spawnEnemy color st
  = pushEntity
      (enemyOf color (randomSource st 0%nat) (randomSource st 1%nat)
         (randomSource st 2%nat))
      (snd (random (snd (random (snd (random st)))))).
Proof. reflexivity. Qed.


Ltac steady_by_computation :=
  constructor; cbn; try reflexivity; try lra.

Lemma steady_refl (st : State) : steady st st.
Proof. steady_by_computation. Qed.

Lemma steady_trans (a b c : State) : steady a b -> steady b c -> steady a c.
Proof.
  intros [] []. constructor; try congruence. lra.
Qed.

Lemma cosmetic_steady (st st' : State) : cosmetic st st' -> steady st st'.
Proof. intros (ps & r & ->). steady_by_computation. Qed.

Lemma updateReticle_steady st : steady st (updateReticle st).
Proof. steady_by_computation. Qed.

Lemma moveShip_steady props st : steady st (moveShip props st).
Proof. steady_by_computation. Qed.

Lemma pushEntity_steady e st : steady st (pushEntity e st).
Proof. steady_by_computation. Qed.

Lemma storeEntity_steady i e st : steady st (storeEntity i e st).
Proof. steady_by_computation. Qed.

Lemma random_steady st : steady st (snd (random st)).
Proof. apply cosmetic_steady, random_cosmetic. Qed.

Lemma spawnProjectile_steady s t b st : steady st (spawnProjectile s t b st).
Proof.
  rewrite spawnProjectile_eq.
  eapply steady_trans; [apply random_steady | apply pushEntity_steady].
Qed.

Lemma spawnEnemy_steady c st : steady st (spawnEnemy c st).
Proof. rewrite spawnEnemy_eq. steady_by_computation. Qed.

Lemma spawning_steady props st : steady st (spawning props st).
Proof.
  unfold spawning. destruct (Rgtb _ _); [| apply steady_refl].
  cbn. destruct (Rltb _ _).
  - eapply steady_trans; [apply random_steady | apply spawnEnemy_steady].
  - apply random_steady.
Qed.

Lemma firing_steady props st : steady st (firing props st).
Proof.
  unfold firing. destruct (isFiring st); [| apply steady_refl].
  cbn. destruct (Rgtb _ _); steady_by_computation.
Qed.

Lemma moveEntity_steady dt ss ent st :
  steady st (snd (moveEntity dt ss ent st)).
Proof.
  unfold moveEntity.
  destruct (Entity.type ent); cbn; try apply steady_refl;
    destruct (_ && _); cbn; steady_by_computation.
Qed.

Lemma projectileHit_steady ent st j :
  steady st (snd (projectileHit (ent, st) j)).
Proof.
  unfold projectileHit.
  destruct (nth_error _ _) as [proj |]; [| apply steady_refl].
  destruct (VectorMath.checkCollision _ _ _ _); [| apply steady_refl].
  cbv zeta.
  set (st1 := storeEntity j _ st).
  pose proof (spawnExplosion_cosmetic
                (Entity.position (Entity.set_health (Entity.health ent - 50) ent))
                (Entity.color (Entity.set_health (Entity.health ent - 50) ent))
                st1) as Hc.
  apply cosmetic_steady in Hc.
  assert (H1 : steady st st1) by apply storeEntity_steady.
  destruct (Rleb _ _); cbn [snd].
  - eapply steady_trans; [exact H1 |].
    eapply steady_trans; [exact Hc |].
    steady_by_computation.
  - eapply steady_trans; eassumption.
Qed.

Lemma fold_projectileHit_steady js : forall ent st,
  steady st (snd (fold_left projectileHit js (ent, st))).
Proof.
  induction js as [| j js IH]; intros ent st; cbn [fold_left].
  - apply steady_refl.
  - pose proof (projectileHit_steady ent st j) as H.
    destruct (projectileHit (ent, st) j) as [ent' st'].
    eapply steady_trans; [exact H | apply IH].
Qed.

Lemma enemyHitsPlayer_steady ent st :
  steady st (snd (enemyHitsPlayer ent st)).
Proof.
  unfold enemyHitsPlayer.
  destruct (VectorMath.checkCollision _ _ _ _); [| apply steady_refl].
  cbv zeta. cbn [snd].
  eapply steady_trans;
    [| apply cosmetic_steady, spawnExplosion_cosmetic].
  steady_by_computation.
Qed.

Lemma enemyProjectileHitsPlayer_steady ent st :
  steady st (snd (enemyProjectileHitsPlayer ent st)).
Proof.
  unfold enemyProjectileHitsPlayer.
  destruct (_ && _); [| apply steady_refl].
  cbv zeta. cbn [snd].
  eapply steady_trans;
    [| apply cosmetic_steady, spawnExplosion_cosmetic].
  steady_by_computation.
Qed.

Lemma enemyCollisions_steady ent st :
  steady st (snd (enemyCollisions ent st)).
Proof.
  unfold enemyCollisions.
  destruct (_ && _); [| apply steady_refl].
  pose proof (fold_projectileHit_steady (activePlayerProjectiles st) ent st)
    as H.
  destruct (fold_left _ _ _) as [ent' st'].
  eapply steady_trans; [exact H | apply enemyHitsPlayer_steady].
Qed.

Lemma entityCallback_steady dt ss st i :
  steady st (entityCallback dt ss st i).
Proof.
  unfold entityCallback.
  destruct (nth_error _ _) as [ent |]; [| apply steady_refl].
  destruct (negb _); [apply steady_refl |].
  pose proof (moveEntity_steady dt ss ent st) as H1.
  destruct (moveEntity dt ss ent st) as [ent1 st1]. cbn [snd] in H1.
  cbv zeta.
  pose proof (enemyCollisions_steady (cull ent1)
                (storeEntity i (cull ent1) st1)) as H2.
  destruct (enemyCollisions _ _) as [ent2 st2]. cbn [snd] in H2.
  pose proof (enemyProjectileHitsPlayer_steady ent2 st2) as H3.
  destruct (enemyProjectileHitsPlayer ent2 st2) as [ent3 st3].
  cbn [snd] in H3.
  eapply steady_trans; [exact H1 |].
  eapply steady_trans; [apply storeEntity_steady |].
  eapply steady_trans; [exact H2 |].
  eapply steady_trans; [exact H3 |].
  apply storeEntity_steady.
Qed.

Lemma fold_entityCallback_steady dt ss idx : forall st,
  steady st (fold_left (entityCallback dt ss) idx st).
Proof.
  induction idx as [| i idx IH]; intros st; cbn [fold_left].
  - apply steady_refl.
  - eapply steady_trans; [apply entityCallback_steady | apply IH].
Qed.

Lemma entitiesPass_steady dt ss st : steady st (entitiesPass dt ss st).
Proof. apply fold_entityCallback_steady. Qed.

Lemma compactEntities_steady st : steady st (compactEntities st).
Proof. steady_by_computation. Qed.

Lemma update_steady props dt st : steady st (update props dt st).
Proof.
  unfold update.
  eapply steady_trans; [apply updateReticle_steady |].
  eapply steady_trans; [apply moveShip_steady |].
  eapply steady_trans; [apply cosmetic_steady, thrusters_cosmetic |].
  eapply steady_trans; [apply spawning_steady |].
  eapply steady_trans; [apply firing_steady |].
  eapply steady_trans; [apply entitiesPass_steady |].
  eapply steady_trans; [apply compactEntities_steady |].
  apply cosmetic_steady, particlesPass_cosmetic.
Qed.

End Steady.

(** ** Score *)

Section Score.
Import GameEngine Vocabulary.

Lemma replaceAt_length {A : Type} (i : nat) (a : A) (l : list A) :
  List.length (replaceAt i a l) = List.length l.
Proof.
  revert i. induction l as [| h t IH]; intros [| i]; cbn; auto.
Qed.

Lemma replaceAt_Forall {A : Type} (P : A -> Prop) (i : nat) (a : A)
  (l : list A) :
  Forall P l -> P a -> Forall P (replaceAt i a l).
Proof.
  intros Hl Ha. revert i.
  induction Hl as [| h t Hh Ht IH]; intros [| i]; cbn; auto.
Qed.

Lemma nth_error_Forall {A : Type} (P : A -> Prop) (l : list A) (i : nat)
  (a : A) :
  Forall P l -> nth_error l i = Some a -> P a.
Proof.
  intros Hl Hn. rewrite Forall_forall in Hl. apply Hl.
  eapply nth_error_In; eauto.
Qed.


Lemma scoreStep_refl st : scoresNonneg st -> scoreStep st st.
Proof. intros H; split; [exact H | lra]. Qed.

Lemma scoreStep_trans a b c : scoreStep a b -> scoreStep b c -> scoreStep a c.
Proof. intros [_ H1] [H2 H3]. split; [exact H2 | lra]. Qed.

Lemma cosmetic_scoreStep st st' :
  scoresNonneg st -> cosmetic st st' -> scoreStep st st'.
Proof.
  intros H Hc. unfold scoreStep, scoresNonneg.
  rewrite (cosmetic_entitiesRef _ _ Hc), (cosmetic_scoreRef _ _ Hc).
  split; [exact H | lra].
Qed.

Lemma pushEntity_scoreStep e st :
  scoresNonneg st -> nonnegScore e -> scoreStep st (pushEntity e st).
Proof.
  intros H He. split; [| cbn; lra].
  unfold scoresNonneg. cbn. apply Forall_app. split; auto.
Qed.

Lemma storeEntity_scoreStep i e st :
  scoresNonneg st -> nonnegScore e -> scoreStep st (storeEntity i e st).
Proof.
  intros H He. split; [| cbn; lra].
  unfold scoresNonneg. cbn. apply replaceAt_Forall; auto.
Qed.

(** Every entity the core creates awards 0 or 100 points. *)
Lemma projectileOf_nonneg s t b rid : nonnegScore (projectileOf s t b rid).
Proof. unfold nonnegScore. cbn. lra. Qed.

Lemma enemyOf_nonneg c rid rx ry : nonnegScore (enemyOf c rid rx ry).
Proof. unfold nonnegScore. cbn. lra. Qed.

Lemma spawnProjectile_scoreStep s t b st :
  scoresNonneg st -> scoreStep st (spawnProjectile s t b st).
Proof.
  intros H. rewrite spawnProjectile_eq.
  eapply scoreStep_trans.
  - apply (cosmetic_scoreStep _ _ H), random_cosmetic.
  - apply pushEntity_scoreStep; [| apply projectileOf_nonneg].
    apply (cosmetic_scoreStep _ _ H), random_cosmetic.
Qed.

Lemma spawnEnemy_scoreStep c st :
  scoresNonneg st -> scoreStep st (spawnEnemy c st).
Proof.
  intros H. rewrite spawnEnemy_eq.
  split; [| cbn; lra].
  unfold scoresNonneg. cbn. apply Forall_app. split; [exact H |].
  constructor; [apply enemyOf_nonneg | constructor].
Qed.

Lemma spawning_scoreStep props st :
  scoresNonneg st -> scoreStep st (spawning props st).
Proof.
  intros H. unfold spawning.
  destruct (Rgtb _ _); [| apply scoreStep_refl; exact H].
  pose proof (cosmetic_scoreStep _ _ H (random_cosmetic st)) as Hr.
  cbn. destruct (Rltb _ _).
  - eapply scoreStep_trans; [exact Hr |].
    apply spawnEnemy_scoreStep. apply Hr.
  - exact Hr.
Qed.

Lemma firing_scoreStep props st :
  scoresNonneg st -> scoreStep st (firing props st).
Proof.
  intros H. unfold firing.
  destruct (isFiring st); [| apply scoreStep_refl; exact H].
  cbn. destruct (Rgtb _ _); [| split; [exact H | cbn; lra]].
  split; [| cbn; lra].
  unfold scoresNonneg. cbn. apply Forall_app. split; [exact H |].
  constructor; [unfold nonnegScore; cbn; lra | constructor].
Qed.

Lemma moveEntity_scoreStep dt ss ent st :
  scoresNonneg st -> nonnegScore ent ->
  nonnegScore (fst (moveEntity dt ss ent st))
  /\ scoreStep st (snd (moveEntity dt ss ent st)).
Proof.
  intros H He.
  pose proof (cosmetic_scoreStep _ _ H (random_cosmetic st)) as Hr.
  unfold moveEntity.
  destruct (Entity.type ent); cbn -[spawnProjectile];
    try (split; [exact He | apply scoreStep_refl; exact H]);
    destruct (_ && _); cbn -[spawnProjectile];
    (split; [exact He |]); try exact Hr;
    (eapply scoreStep_trans; [exact Hr |]);
    apply spawnProjectile_scoreStep; apply Hr.
Qed.

Lemma cull_nonneg ent : nonnegScore ent -> nonnegScore (cull ent).
Proof. unfold cull. destruct (_ || _); auto. Qed.

Lemma projectileHit_scoreStep ent st j :
  scoresNonneg st -> nonnegScore ent ->
  nonnegScore (fst (projectileHit (ent, st) j))
  /\ scoreStep st (snd (projectileHit (ent, st) j)).
Proof.
  intros H He. unfold projectileHit.
  destruct (nth_error _ _) as [proj |] eqn:Ej;
    [| split; [exact He | apply scoreStep_refl; exact H]].
  destruct (VectorMath.checkCollision _ _ _ _);
    [| split; [exact He | apply scoreStep_refl; exact H]].
  cbv zeta.
  assert (Hp : nonnegScore proj) by (eapply nth_error_Forall; eauto).
  forget_explosions.
  assert (Hst : Forall nonnegScore
                  (replaceAt j (Entity.set_active false proj)
                     (entitiesRef st))).
  { apply replaceAt_Forall; [exact H | exact Hp]. }
  unfold nonnegScore in He.
  destruct (Rleb _ _); cbn [fst snd]; (split; [exact He |]);
    (split; [exact Hst | cbn; lra]).
Qed.

Lemma fold_projectileHit_scoreStep js : forall ent st,
  scoresNonneg st -> nonnegScore ent ->
  nonnegScore (fst (fold_left projectileHit js (ent, st)))
  /\ scoreStep st (snd (fold_left projectileHit js (ent, st))).
Proof.
  induction js as [| j js IH]; intros ent st H He; cbn [fold_left].
  - split; [exact He | apply scoreStep_refl; exact H].
  - destruct (projectileHit_scoreStep ent st j H He) as [He' Hs].
    destruct (projectileHit (ent, st) j) as [ent' st'].
    cbn [fst snd] in *.
    destruct (IH ent' st' (proj1 Hs) He') as [He'' Hs'].
    split; [exact He'' | eapply scoreStep_trans; eassumption].
Qed.

Lemma enemyHitsPlayer_scoreStep ent st :
  scoresNonneg st -> nonnegScore ent ->
  nonnegScore (fst (enemyHitsPlayer ent st))
  /\ scoreStep st (snd (enemyHitsPlayer ent st)).
Proof.
  intros H He. unfold enemyHitsPlayer.
  destruct (VectorMath.checkCollision _ _ _ _);
    [| split; [exact He | apply scoreStep_refl; exact H]].
  cbv zeta. cbn [fst snd]. split; [exact He |].
  set (st1 := set_playerRef _ st).
  assert (H1 : scoreStep st st1) by (split; [exact H | cbn; lra]).
  eapply scoreStep_trans; [exact H1 |].
  apply cosmetic_scoreStep; [apply H1 | apply spawnExplosion_cosmetic].
Qed.

Lemma enemyProjectileHitsPlayer_scoreStep ent st :
  scoresNonneg st -> nonnegScore ent ->
  nonnegScore (fst (enemyProjectileHitsPlayer ent st))
  /\ scoreStep st (snd (enemyProjectileHitsPlayer ent st)).
Proof.
  intros H He. unfold enemyProjectileHitsPlayer.
  destruct (_ && _);
    [| split; [exact He | apply scoreStep_refl; exact H]].
  cbv zeta. cbn [fst snd]. split; [exact He |].
  set (st1 := set_playerRef _ st).
  assert (H1 : scoreStep st st1) by (split; [exact H | cbn; lra]).
  eapply scoreStep_trans; [exact H1 |].
  apply cosmetic_scoreStep; [apply H1 | apply spawnExplosion_cosmetic].
Qed.

Lemma enemyCollisions_scoreStep ent st :
  scoresNonneg st -> nonnegScore ent ->
  nonnegScore (fst (enemyCollisions ent st))
  /\ scoreStep st (snd (enemyCollisions ent st)).
Proof.
  intros H He. unfold enemyCollisions.
  destruct (_ && _);
    [| split; [exact He | apply scoreStep_refl; exact H]].
  destruct (fold_projectileHit_scoreStep (activePlayerProjectiles st)
              ent st H He) as [He' Hs].
  destruct (fold_left _ _ _) as [ent' st']. cbn [fst snd] in *.
  destruct (enemyHitsPlayer_scoreStep ent' st' (proj1 Hs) He') as [He'' Hs'].
  split; [exact He'' | eapply scoreStep_trans; eassumption].
Qed.

Lemma entityCallback_scoreStep dt ss st i :
  scoresNonneg st -> scoreStep st (entityCallback dt ss st i).
Proof.
  intros H. unfold entityCallback.
  destruct (nth_error _ _) as [ent |] eqn:Ei;
    [| apply scoreStep_refl; exact H].
  destruct (negb _); [apply scoreStep_refl; exact H |].
  assert (He : nonnegScore ent) by (eapply nth_error_Forall; eauto).
  destruct (moveEntity_scoreStep dt ss ent st H He) as [He1 Hs1].
  destruct (moveEntity dt ss ent st) as [ent1 st1]. cbn [fst snd] in *.
  cbv zeta.
  pose proof (cull_nonneg ent1 He1) as Hc.
  pose proof (storeEntity_scoreStep i (cull ent1) st1 (proj1 Hs1) Hc) as Hs2.
  destruct (enemyCollisions_scoreStep (cull ent1)
              (storeEntity i (cull ent1) st1) (proj1 Hs2) Hc) as [He3 Hs3].
  destruct (enemyCollisions _ _) as [ent3 st3]. cbn [fst snd] in *.
  destruct (enemyProjectileHitsPlayer_scoreStep ent3 st3 (proj1 Hs3) He3)
    as [He4 Hs4].
  destruct (enemyProjectileHitsPlayer ent3 st3) as [ent4 st4].
  cbn [fst snd] in *.
  pose proof (storeEntity_scoreStep i ent4 st4 (proj1 Hs4) He4) as Hs5.
  eapply scoreStep_trans; [exact Hs1 |].
  eapply scoreStep_trans; [exact Hs2 |].
  eapply scoreStep_trans; [exact Hs3 |].
  eapply scoreStep_trans; [exact Hs4 | exact Hs5].
Qed.

Lemma fold_entityCallback_scoreStep dt ss idx : forall st,
  scoresNonneg st -> scoreStep st (fold_left (entityCallback dt ss) idx st).
Proof.
  induction idx as [| i idx IH]; intros st H; cbn [fold_left].
  - apply scoreStep_refl; exact H.
  - pose proof (entityCallback_scoreStep dt ss st i H) as Hs.
    eapply scoreStep_trans; [exact Hs | apply IH, Hs].
Qed.

Lemma compactEntities_scoreStep st :
  scoresNonneg st -> scoreStep st (compactEntities st).
Proof.
  intros H. split; [| cbn; lra].
  unfold scoresNonneg in *. cbn.
  rewrite Forall_forall in *. intros e He.
  apply filter_In in He. apply H, He.
Qed.

Lemma update_scoreStep props dt st :
  scoresNonneg st -> scoreStep st (update props dt st).
Proof.
  intros H. unfold update.
  assert (H1 : scoreStep st (updateReticle st))
    by (split; [exact H | cbn; lra]).
  eapply scoreStep_trans; [exact H1 |].
  set (s1 := updateReticle st) in *.
  assert (H2 : scoreStep s1 (moveShip props s1))
    by (split; [exact (proj1 H1) | cbn; lra]).
  eapply scoreStep_trans; [exact H2 |].
  set (s2 := moveShip props s1) in *.
  pose proof (cosmetic_scoreStep _ _ (proj1 H2) (thrusters_cosmetic s2)) as H3.
  eapply scoreStep_trans; [exact H3 |].
  set (s3 := thrusters s2) in *.
  pose proof (spawning_scoreStep props s3 (proj1 H3)) as H4.
  eapply scoreStep_trans; [exact H4 |].
  set (s4 := spawning props s3) in *.
  pose proof (firing_scoreStep props s4 (proj1 H4)) as H5.
  eapply scoreStep_trans; [exact H5 |].
  set (s5 := firing props s4) in *.
  pose proof (fold_entityCallback_scoreStep dt (scrollSpeedOf props dt)
                (seq 0 (List.length (entitiesRef s5))) s5 (proj1 H5)) as H6.
  fold (entitiesPass dt (scrollSpeedOf props dt) s5) in H6.
  eapply scoreStep_trans; [exact H6 |].
  set (s6 := entitiesPass dt (scrollSpeedOf props dt) s5) in *.
  pose proof (compactEntities_scoreStep s6 (proj1 H6)) as H7.
  eapply scoreStep_trans; [exact H7 |].
  apply cosmetic_scoreStep; [apply H7 | apply particlesPass_cosmetic].
Qed.

Lemma simulate_app steps1 steps2 st :
  simulate (steps1 ++ steps2) st = simulate steps2 (simulate steps1 st).
Proof. unfold simulate. apply fold_left_app. Qed.

Lemma simulate_scoreStep steps : forall st,
  scoresNonneg st -> scoreStep st (simulate steps st).
Proof.
  induction steps as [| [props dt] steps IH]; intros st H.
  - apply scoreStep_refl; exact H.
  - cbn. pose proof (update_scoreStep props dt st H) as Hs.
    eapply scoreStep_trans; [exact Hs | apply IH, Hs].
Qed.

End Score.

(** The same walk through the step, now keeping account of what is
    added to the score: every addition is the score value of the enemy
    being visited. *)
Section Awards.
Import GameEngine Vocabulary.

Variable V : R -> Prop.
Hypothesis spawned_in_V : forall v, spawnedEnemyValue v -> V v.

Let fits := fitsValues V.

Lemma sumR_app a b : sumR (a ++ b) = sumR a + sumR b.
Proof.
  unfold sumR. induction a as [| x a IH]; cbn; [lra | rewrite IH; lra].
Qed.

Lemma awards_quiet st st' :
  Forall fits (entitiesRef st') -> scoreRef st' = scoreRef st ->
  awards V st st'.
Proof.
  intros H E. split; [exact H |]. exists []. rewrite E. cbn.
  split; [lra | constructor].
Qed.

Lemma awards_refl st : Forall fits (entitiesRef st) -> awards V st st.
Proof. intros H. apply awards_quiet; [exact H | reflexivity]. Qed.

Lemma awards_trans a b c : awards V a b -> awards V b c -> awards V a c.
Proof.
  intros [_ (x & Ex & Fx)] [H (y & Ey & Fy)]. split; [exact H |].
  exists (x ++ y). rewrite Ey, Ex, sumR_app.
  split; [lra | apply Forall_app; split; assumption].
Qed.

Lemma cosmetic_awards st st' :
  Forall fits (entitiesRef st) -> cosmetic st st' -> awards V st st'.
Proof.
  intros H Hc. apply awards_quiet.
  - rewrite (cosmetic_entitiesRef _ _ Hc). exact H.
  - apply (cosmetic_scoreRef _ _ Hc).
Qed.

Lemma pushEntity_awards e st :
  Forall fits (entitiesRef st) -> fits e -> awards V st (pushEntity e st).
Proof.
  intros H He. apply awards_quiet; [| reflexivity].
  cbn. apply Forall_app. split; [exact H | constructor; [exact He | constructor]].
Qed.

Lemma storeEntity_awards i e st :
  Forall fits (entitiesRef st) -> fits e -> awards V st (storeEntity i e st).
Proof.
  intros H He. apply awards_quiet; [| reflexivity].
  cbn. apply replaceAt_Forall; assumption.
Qed.

(** A projectile is no enemy; the enemy [spawnEnemy] pushes has the
    value [spawnEnemy] gives. *)
Lemma projectileOf_fits s t b rid : fits (projectileOf s t b rid).
Proof. unfold fits, fitsValues. destruct b; cbn; discriminate. Qed.

Lemma spawnProjectile_awards s t b st :
  Forall fits (entitiesRef st) -> awards V st (spawnProjectile s t b st).
Proof.
  intros H. rewrite spawnProjectile_eq.
  apply awards_quiet; [| reflexivity].
  cbn. apply Forall_app. split; [exact H |].
  constructor; [apply projectileOf_fits | constructor].
Qed.

Lemma spawnEnemy_awards c st :
  Forall fits (entitiesRef st) -> awards V st (spawnEnemy c st).
Proof.
  intros H. apply awards_quiet; [| rewrite spawnEnemy_eq; reflexivity].
  rewrite spawnEnemy_eq. cbn. apply Forall_app. split; [exact H |].
  constructor; [| constructor].
  intros _. apply spawned_in_V.
  exists c, st, (enemyOf c (randomSource st 0%nat) (randomSource st 1%nat)
                   (randomSource st 2%nat)).
  split; [rewrite spawnEnemy_eq; reflexivity | reflexivity].
Qed.

Lemma spawning_awards props st :
  Forall fits (entitiesRef st) -> awards V st (spawning props st).
Proof.
  intros H. unfold spawning.
  destruct (Rgtb _ _); [| apply awards_refl; exact H].
  pose proof (cosmetic_awards _ _ H (random_cosmetic st)) as Hr.
  cbn -[spawnEnemy]. destruct (Rltb _ _).
  - eapply awards_trans; [exact Hr |].
    apply spawnEnemy_awards. apply Hr.
  - exact Hr.
Qed.

Lemma firing_awards props st :
  Forall fits (entitiesRef st) -> awards V st (firing props st).
Proof.
  intros H. unfold firing.
  destruct (isFiring st); [| apply awards_refl; exact H].
  cbn -[spawnProjectile].
  destruct (Rgtb _ _); [| apply awards_quiet; [exact H | reflexivity]].
  apply awards_quiet; [| reflexivity].
  cbn -[spawnProjectile]. rewrite spawnProjectile_eq. cbn.
  apply Forall_app. split; [exact H |].
  constructor; [apply projectileOf_fits | constructor].
Qed.

Lemma moveEntity_awards dt ss ent st :
  Forall fits (entitiesRef st) ->
  Entity.type (fst (moveEntity dt ss ent st)) = Entity.type ent
  /\ Entity.scoreValue (fst (moveEntity dt ss ent st))
     = Entity.scoreValue ent
  /\ awards V st (snd (moveEntity dt ss ent st)).
Proof.
  intros H.
  pose proof (cosmetic_awards _ _ H (random_cosmetic st)) as Hr.
  unfold moveEntity.
  destruct (Entity.type ent) eqn:Ety; cbn -[spawnProjectile];
    rewrite ?Ety;
    try (split; [reflexivity |]; split;
         [reflexivity | apply awards_refl; exact H]);
    destruct (_ && _); cbn -[spawnProjectile]; rewrite ?Ety;
    (split; [reflexivity |]); (split; [reflexivity |]); try exact Hr;
    (eapply awards_trans; [exact Hr |]);
    apply spawnProjectile_awards; apply Hr.
Qed.

(** Lines 219-227: the one place where the score is written.  What is
    added is the score value of the enemy that is hit. *)
Lemma projectileHit_awards ent st j :
  Forall fits (entitiesRef st) -> V (Entity.scoreValue ent) ->
  Entity.type (fst (projectileHit (ent, st) j)) = Entity.type ent
  /\ Entity.scoreValue (fst (projectileHit (ent, st) j))
     = Entity.scoreValue ent
  /\ awards V st (snd (projectileHit (ent, st) j)).
Proof.
  intros H He. unfold projectileHit.
  destruct (nth_error _ _) as [proj |] eqn:Ej;
    [| split; [reflexivity |]; split;
       [reflexivity | apply awards_refl; exact H]].
  destruct (VectorMath.checkCollision _ _ _ _);
    [| split; [reflexivity |]; split;
       [reflexivity | apply awards_refl; exact H]].
  cbv zeta.
  assert (Hp : fits proj) by (eapply nth_error_Forall; eauto).
  forget_explosions.
  assert (Hst : Forall fits
                  (replaceAt j (Entity.set_active false proj)
                     (entitiesRef st))).
  { apply replaceAt_Forall; [exact H | exact Hp]. }
  destruct (Rleb _ _); cbn [fst snd];
    (split; [reflexivity |]); (split; [reflexivity |]);
    (split; [exact Hst |]).
  - exists [Entity.scoreValue ent]. split; [cbn; lra |].
    constructor; [exact He | constructor].
  - exists []. split; [cbn; lra | constructor].
Qed.

Lemma fold_projectileHit_awards js : forall ent st,
  Forall fits (entitiesRef st) -> V (Entity.scoreValue ent) ->
  Entity.type (fst (fold_left projectileHit js (ent, st))) = Entity.type ent
  /\ Entity.scoreValue (fst (fold_left projectileHit js (ent, st)))
     = Entity.scoreValue ent
  /\ awards V st (snd (fold_left projectileHit js (ent, st))).
Proof.
  induction js as [| j js IH]; intros ent st H He; cbn [fold_left].
  - split; [reflexivity |]. split; [reflexivity | apply awards_refl; exact H].
  - destruct (projectileHit_awards ent st j H He) as (Ht & Hv & Hs).
    destruct (projectileHit (ent, st) j) as [ent' st'].
    cbn [fst snd] in *.
    assert (He' : V (Entity.scoreValue ent')) by (rewrite Hv; exact He).
    destruct (IH ent' st' (proj1 Hs) He') as (Ht' & Hv' & Hs').
    split; [congruence |]. split; [congruence |].
    eapply awards_trans; eassumption.
Qed.

Lemma enemyHitsPlayer_awards ent st :
  Forall fits (entitiesRef st) ->
  Entity.type (fst (enemyHitsPlayer ent st)) = Entity.type ent
  /\ Entity.scoreValue (fst (enemyHitsPlayer ent st)) = Entity.scoreValue ent
  /\ awards V st (snd (enemyHitsPlayer ent st)).
Proof.
  intros H. unfold enemyHitsPlayer.
  destruct (VectorMath.checkCollision _ _ _ _);
    [| split; [reflexivity |]; split;
       [reflexivity | apply awards_refl; exact H]].
  cbv zeta. cbn [fst snd].
  split; [reflexivity |]. split; [reflexivity |].
  set (st1 := set_playerRef _ st).
  assert (H1 : awards V st st1) by (apply awards_quiet; [exact H | reflexivity]).
  eapply awards_trans; [exact H1 |].
  apply cosmetic_awards; [apply H1 | apply spawnExplosion_cosmetic].
Qed.

Lemma enemyProjectileHitsPlayer_awards ent st :
  Forall fits (entitiesRef st) ->
  Entity.type (fst (enemyProjectileHitsPlayer ent st)) = Entity.type ent
  /\ Entity.scoreValue (fst (enemyProjectileHitsPlayer ent st))
     = Entity.scoreValue ent
  /\ awards V st (snd (enemyProjectileHitsPlayer ent st)).
Proof.
  intros H. unfold enemyProjectileHitsPlayer.
  destruct (_ && _);
    [| split; [reflexivity |]; split;
       [reflexivity | apply awards_refl; exact H]].
  cbv zeta. cbn [fst snd].
  split; [reflexivity |]. split; [reflexivity |].
  set (st1 := set_playerRef _ st).
  assert (H1 : awards V st st1) by (apply awards_quiet; [exact H | reflexivity]).
  eapply awards_trans; [exact H1 |].
  apply cosmetic_awards; [apply H1 | apply spawnExplosion_cosmetic].
Qed.

Lemma enemyCollisions_awards ent st :
  Forall fits (entitiesRef st) -> fits ent ->
  Entity.type (fst (enemyCollisions ent st)) = Entity.type ent
  /\ Entity.scoreValue (fst (enemyCollisions ent st)) = Entity.scoreValue ent
  /\ awards V st (snd (enemyCollisions ent st)).
Proof.
  intros H He. unfold enemyCollisions.
  destruct (Entity.isEnemy (Entity.type ent)) eqn:Hen; cbn [andb];
    [| split; [reflexivity |]; split;
       [reflexivity | apply awards_refl; exact H]].
  destruct (Entity.active ent);
    [| split; [reflexivity |]; split;
       [reflexivity | apply awards_refl; exact H]].
  destruct (fold_projectileHit_awards (activePlayerProjectiles st)
              ent st H (He Hen)) as (Ht & Hv & Hs).
  destruct (fold_left _ _ _) as [ent' st']. cbn [fst snd] in *.
  destruct (enemyHitsPlayer_awards ent' st' (proj1 Hs)) as (Ht' & Hv' & Hs').
  split; [congruence |]. split; [congruence |].
  eapply awards_trans; eassumption.
Qed.

Lemma fits_same e e' :
  Entity.type e' = Entity.type e ->
  Entity.scoreValue e' = Entity.scoreValue e -> fits e -> fits e'.
Proof. unfold fits, fitsValues. intros -> ->. auto. Qed.

Lemma cull_fits ent : fits ent -> fits (cull ent).
Proof. unfold cull. destruct (_ || _); auto. Qed.

Lemma entityCallback_awards dt ss st i :
  Forall fits (entitiesRef st) -> awards V st (entityCallback dt ss st i).
Proof.
  intros H. unfold entityCallback.
  destruct (nth_error _ _) as [ent |] eqn:Ei;
    [| apply awards_refl; exact H].
  destruct (negb _); [apply awards_refl; exact H |].
  assert (He : fits ent) by (eapply nth_error_Forall; eauto).
  destruct (moveEntity_awards dt ss ent st H) as (Ht1 & Hv1 & Hs1).
  destruct (moveEntity dt ss ent st) as [ent1 st1]. cbn [fst snd] in *.
  cbv zeta.
  assert (Hc : fits (cull ent1)).
  { apply cull_fits. apply (fits_same ent ent1 Ht1 Hv1 He). }
  pose proof (storeEntity_awards i (cull ent1) st1 (proj1 Hs1) Hc) as Hs2.
  destruct (enemyCollisions_awards (cull ent1)
              (storeEntity i (cull ent1) st1) (proj1 Hs2) Hc)
    as (Ht3 & Hv3 & Hs3).
  destruct (enemyCollisions _ _) as [ent3 st3]. cbn [fst snd] in *.
  destruct (enemyProjectileHitsPlayer_awards ent3 st3 (proj1 Hs3))
    as (Ht4 & Hv4 & Hs4).
  destruct (enemyProjectileHitsPlayer ent3 st3) as [ent4 st4].
  cbn [fst snd] in *.
  assert (He4 : fits ent4).
  { apply (fits_same (cull ent1) ent4); [congruence | congruence | exact Hc]. }
  pose proof (storeEntity_awards i ent4 st4 (proj1 Hs4) He4) as Hs5.
  eapply awards_trans; [exact Hs1 |].
  eapply awards_trans; [exact Hs2 |].
  eapply awards_trans; [exact Hs3 |].
  eapply awards_trans; [exact Hs4 | exact Hs5].
Qed.

Lemma fold_entityCallback_awards dt ss idx : forall st,
  Forall fits (entitiesRef st) ->
  awards V st (fold_left (entityCallback dt ss) idx st).
Proof.
  induction idx as [| i idx IH]; intros st H; cbn [fold_left].
  - apply awards_refl; exact H.
  - pose proof (entityCallback_awards dt ss st i H) as Hs.
    eapply awards_trans; [exact Hs | apply IH, Hs].
Qed.

Lemma compactEntities_awards st :
  Forall fits (entitiesRef st) -> awards V st (compactEntities st).
Proof.
  intros H. apply awards_quiet; [| reflexivity].
  cbn. rewrite Forall_forall in *. intros e He.
  apply filter_In in He. apply H, He.
Qed.

Lemma update_awards props dt st :
  Forall fits (entitiesRef st) -> awards V st (update props dt st).
Proof.
  intros H. unfold update.
  assert (H1 : awards V st (updateReticle st))
    by (apply awards_quiet; [exact H | reflexivity]).
  eapply awards_trans; [exact H1 |].
  set (s1 := updateReticle st) in *.
  assert (H2 : awards V s1 (moveShip props s1))
    by (apply awards_quiet; [exact (proj1 H1) | reflexivity]).
  eapply awards_trans; [exact H2 |].
  set (s2 := moveShip props s1) in *.
  pose proof (cosmetic_awards _ _ (proj1 H2) (thrusters_cosmetic s2)) as H3.
  eapply awards_trans; [exact H3 |].
  set (s3 := thrusters s2) in *.
  pose proof (spawning_awards props s3 (proj1 H3)) as H4.
  eapply awards_trans; [exact H4 |].
  set (s4 := spawning props s3) in *.
  pose proof (firing_awards props s4 (proj1 H4)) as H5.
  eapply awards_trans; [exact H5 |].
  set (s5 := firing props s4) in *.
  pose proof (fold_entityCallback_awards dt (scrollSpeedOf props dt)
                (seq 0 (List.length (entitiesRef s5))) s5 (proj1 H5)) as H6.
  fold (entitiesPass dt (scrollSpeedOf props dt) s5) in H6.
  eapply awards_trans; [exact H6 |].
  set (s6 := entitiesPass dt (scrollSpeedOf props dt) s5) in *.
  pose proof (compactEntities_awards s6 (proj1 H6)) as H7.
  eapply awards_trans; [exact H7 |].
  apply cosmetic_awards; [apply H7 | apply particlesPass_cosmetic].
Qed.

Lemma simulate_awards steps : forall st,
  Forall fits (entitiesRef st) -> awards V st (simulate steps st).
Proof.
  induction steps as [| [props dt] steps IH]; intros st H.
  - apply awards_refl; exact H.
  - cbn. pose proof (update_awards props dt st H) as Hs.
    eapply awards_trans; [exact Hs | apply IH, Hs].
Qed.

End Awards.

Section ScoreTheorem.
Import GameEngine Vocabulary.

Lemma spawnEnemy_pushes c s :
  exists e,
    entitiesRef (spawnEnemy c s) = entitiesRef s ++ [e]
    /\ Entity.type e = Entity.ENEMY_Interceptor
    /\ Entity.scoreValue e = 100.
Proof.
  rewrite spawnEnemy_eq. eexists. split; [reflexivity |].
  split; reflexivity.
Qed.

Lemma spawnProjectile_pushes a b p s :
  exists e,
    entitiesRef (spawnProjectile a b p s) = entitiesRef s ++ [e]
    /\ Entity.isEnemy (Entity.type e) = false
    /\ Entity.scoreValue e = 0.
Proof.
  rewrite spawnProjectile_eq. eexists. split; [reflexivity |].
  split; [destruct p; reflexivity | reflexivity].
Qed.

Lemma spawnedEnemyValue_100 v : spawnedEnemyValue v -> v = 100.
Proof.
  intros (c & s & e & He & <-).
  destruct (spawnEnemy_pushes c s) as (e' & He' & _ & Hv).
  rewrite He in He'. apply app_inv_head in He'.
  injection He' as ->. exact Hv.
Qed.

Lemma store_fits_its_values st :
  Forall (fitsValues (enemyValue st)) (entitiesRef st).
Proof.
  apply Forall_forall. intros e Hin Hen. left. exists e. auto.
Qed.

Lemma enemyValue_nonneg st v :
  scoresNonneg st -> enemyValue st v -> 0 <= v.
Proof.
  intros H [(e & Hin & _ & <-) | Hs].
  - unfold scoresNonneg in H. rewrite Forall_forall in H. apply (H e Hin).
  - rewrite (spawnedEnemyValue_100 v Hs). lra.
Qed.

(** C9.  Starting from a store whose entities all award a non-negative
    number of points (the initial store is empty), the score never goes
    down along a sequence of simulation steps: the score after any
    prefix of the sequence is at most the score after the whole of it,
    and the store keeps the property.  Every change of the score is an
    addition of an entity's score value: the score after the steps is
    the score before them plus a list of values, each of them the score
    value of an enemy of the starting store or the score value
    [spawnEnemy] gives the enemy it pushes, and none of them negative.
    The entities the core creates award 100 ([spawnEnemy]) or 0
    ([spawnProjectile], the player's ship). *)
Theorem score_monotone (steps more : list (Props * R)) (st : State) :
  scoresNonneg st ->
  scoreRef st <= scoreRef (simulate steps st)
  /\ scoreRef (simulate steps st) <= scoreRef (simulate (steps ++ more) st)
  /\ scoresNonneg (simulate (steps ++ more) st)
  /\ (exists vs,
        scoreRef (simulate steps st) = scoreRef st + sumR vs
        /\ Forall (enemyValue st) vs
        /\ Forall (fun v => 0 <= v) vs)
  /\ (forall c s, exists e,
        entitiesRef (spawnEnemy c s) = entitiesRef s ++ [e]
        /\ Entity.scoreValue e = 100)
  /\ (forall a b p s, exists e,
        entitiesRef (spawnProjectile a b p s) = entitiesRef s ++ [e]
        /\ Entity.scoreValue e = 0)
  /\ (forall rnd clk,
        Entity.scoreValue (playerRef (initialState rnd clk)) = 0).
Proof.
  intros H.
  destruct (simulate_scoreStep steps st H) as [H1 H2].
  destruct (simulate_scoreStep more (simulate steps st) H1) as [H3 H4].
  destruct (simulate_awards (enemyValue st) (fun v Hv => or_intror Hv)
              steps st (store_fits_its_values st))
    as [_ (vs & Evs & Fvs)].
  rewrite simulate_app.
  split; [exact H2 |]. split; [exact H4 |]. split; [exact H3 |].
  split.
  { exists vs. split; [exact Evs |]. split; [exact Fvs |].
    eapply Forall_impl; [| exact Fvs].
    intros v Hv. apply (enemyValue_nonneg st v H Hv). }
  split.
  { intros c s. destruct (spawnEnemy_pushes c s) as (e & He & _ & Hv).
    exists e. auto. }
  split.
  { intros a b p s.
    destruct (spawnProjectile_pushes a b p s) as (e & He & _ & Hv).
    exists e. auto. }
  reflexivity.
Qed.

End ScoreTheorem.

(** ** The entity pass: what happens to one element of the store *)

Section Store.
Import GameEngine Vocabulary.

Lemma nth_error_replaceAt_other {A : Type} (k i : nat) (a : A) (l : list A) :
  k <> i -> nth_error (replaceAt k a l) i = nth_error l i.
Proof.
  revert k i. induction l as [| h t IH]; intros [| k] [| i] Hne; cbn;
    try reflexivity; try congruence.
  apply IH. congruence.
Qed.

Lemma nth_error_replaceAt_same {A : Type} (i : nat) (a b : A) (l : list A) :
  nth_error l i = Some b -> nth_error (replaceAt i a l) i = Some a.
Proof.
  revert i. induction l as [| h t IH]; intros [| i] H; cbn in *;
    try discriminate; auto.
Qed.

Lemma nth_error_snoc_keep {A : Type} (l : list A) (x : A) (i : nat) (a : A) :
  nth_error l i = Some a -> nth_error (l ++ [x]) i = Some a.
Proof.
  intros H. rewrite nth_error_app1; [exact H |].
  apply nth_error_Some. congruence.
Qed.


Lemma holds_cosmetic i e st st' :
  cosmetic st st' -> holds i e st -> holds i e st'.
Proof. unfold holds. intros Hc. rewrite (cosmetic_entitiesRef _ _ Hc). auto. Qed.

Lemma holds_pushEntity i e x st : holds i e st -> holds i e (pushEntity x st).
Proof. unfold holds. cbn. apply nth_error_snoc_keep. Qed.

Lemma holds_storeEntity_other i e k a st :
  k <> i -> holds i e st -> holds i e (storeEntity k a st).
Proof.
  unfold holds. cbn. intros Hne. rewrite nth_error_replaceAt_other; auto.
Qed.

Lemma holds_storeEntity_same i e a st :
  holds i e st -> holds i a (storeEntity i a st).
Proof. unfold holds. cbn. apply nth_error_replaceAt_same. Qed.

Lemma holds_spawnProjectile i e s t b st :
  holds i e st -> holds i e (spawnProjectile s t b st).
Proof.
  intros H. rewrite spawnProjectile_eq.
  apply holds_pushEntity. eapply holds_cosmetic; [apply random_cosmetic | exact H].
Qed.

Lemma holds_moveEntity i e dt ss ent st :
  holds i e st -> holds i e (snd (moveEntity dt ss ent st)).
Proof.
  intros H.
  pose proof (holds_cosmetic i e _ _ (random_cosmetic st) H) as Hr.
  unfold moveEntity.
  destruct (Entity.type ent); cbn -[spawnProjectile]; try exact H;
    destruct (_ && _); cbn -[spawnProjectile]; try exact Hr;
    apply holds_spawnProjectile; exact Hr.
Qed.

Lemma holds_projectileHit i e ent st j :
  j <> i -> holds i e st -> holds i e (snd (projectileHit (ent, st) j)).
Proof.
  intros Hne H. unfold projectileHit.
  destruct (nth_error _ _) as [proj |]; [| exact H].
  destruct (VectorMath.checkCollision _ _ _ _); [| exact H].
  cbv zeta. forget_explosions.
  assert (H2 : nth_error
                 (replaceAt j (Entity.set_active false proj) (entitiesRef st))
                 i = Some e).
  { rewrite nth_error_replaceAt_other; assumption. }
  destruct (Rleb _ _); cbn [snd]; exact H2.
Qed.

Lemma holds_fold_projectileHit i e js : forall ent st,
  ~ In i js -> holds i e st ->
  holds i e (snd (fold_left projectileHit js (ent, st))).
Proof.
  induction js as [| j js IH]; intros ent st Hni H; cbn [fold_left].
  - exact H.
  - pose proof (holds_projectileHit i e ent st j) as Hj.
    destruct (projectileHit (ent, st) j) as [ent' st']. cbn [snd] in Hj.
    apply IH.
    + intros Hin. apply Hni. right. exact Hin.
    + apply Hj; [| exact H]. intros ->. apply Hni. left. reflexivity.
Qed.

Lemma holds_enemyHitsPlayer i e ent st :
  holds i e st -> holds i e (snd (enemyHitsPlayer ent st)).
Proof.
  intros H. unfold enemyHitsPlayer.
  destruct (VectorMath.checkCollision _ _ _ _); [| exact H].
  cbv zeta. cbn [snd].
  eapply holds_cosmetic; [apply spawnExplosion_cosmetic |]. exact H.
Qed.

Lemma holds_enemyProjectileHitsPlayer i e ent st :
  holds i e st -> holds i e (snd (enemyProjectileHitsPlayer ent st)).
Proof.
  intros H. unfold enemyProjectileHitsPlayer.
  destruct (_ && _); [| exact H].
  cbv zeta. cbn [snd].
  eapply holds_cosmetic; [apply spawnExplosion_cosmetic |]. exact H.
Qed.

(** An element that is not an active player projectile is not in the
    array the inner [filter] returns. *)
Lemma not_activePlayerProjectile i e st :
  holds i e st ->
  Entity.isPlayerProjectile (Entity.type e) && Entity.active e = false ->
  ~ In i (activePlayerProjectiles st).
Proof.
  unfold holds, activePlayerProjectiles. intros H Hn Hin.
  apply filter_In in Hin. destruct Hin as [_ Hin].
  rewrite H in Hin. congruence.
Qed.

Lemma holds_enemyCollisions i e ent st :
  holds i e st ->
  Entity.isPlayerProjectile (Entity.type e) && Entity.active e = false ->
  holds i e (snd (enemyCollisions ent st)).
Proof.
  intros H Hn. unfold enemyCollisions.
  destruct (Entity.isEnemy (Entity.type ent) && Entity.active ent);
    [| exact H].
  pose proof (holds_fold_projectileHit i e (activePlayerProjectiles st) ent st
                (not_activePlayerProjectile i e st H Hn) H) as Hf.
  destruct (fold_left _ _ _) as [ent' st']. cbn [snd] in Hf.
  apply holds_enemyHitsPlayer. exact Hf.
Qed.

(** The callback for index [k] leaves every other element alone, unless
    that element is an active player projectile (which an enemy at [k]
    may consume). *)
Lemma holds_entityCallback_other i e dt ss st k :
  k <> i -> holds i e st ->
  Entity.isPlayerProjectile (Entity.type e) && Entity.active e = false ->
  holds i e (entityCallback dt ss st k).
Proof.
  intros Hne H Hn. unfold entityCallback.
  destruct (nth_error _ _) as [ent |]; [| exact H].
  destruct (negb _); [exact H |].
  pose proof (holds_moveEntity i e dt ss ent st H) as H1.
  destruct (moveEntity dt ss ent st) as [ent1 st1]. cbn [snd] in H1.
  cbv zeta.
  pose proof (holds_storeEntity_other i e k (cull ent1) st1 Hne H1) as H2.
  pose proof (holds_enemyCollisions i e (cull ent1) _ H2 Hn) as H3.
  destruct (enemyCollisions _ _) as [ent3 st3]. cbn [snd] in H3.
  pose proof (holds_enemyProjectileHitsPlayer i e ent3 st3 H3) as H4.
  destruct (enemyProjectileHitsPlayer ent3 st3) as [ent4 st4].
  cbn [snd] in H4.
  apply holds_storeEntity_other; assumption.
Qed.

Lemma holds_fold_entityCallback_other i e dt ss idx : forall st,
  ~ In i idx -> holds i e st ->
  Entity.isPlayerProjectile (Entity.type e) && Entity.active e = false ->
  holds i e (fold_left (entityCallback dt ss) idx st).
Proof.
  induction idx as [| k idx IH]; intros st Hni H Hn; cbn [fold_left].
  - exact H.
  - apply IH; [intros Hin; apply Hni; right; exact Hin | | exact Hn].
    apply holds_entityCallback_other; [| exact H | exact Hn].
    intros ->. apply Hni. left. reflexivity.
Qed.

(** The indices [forEach] visits, split around one of them. *)
Lemma seq_split_at (n i : nat) :
  (i < n)%nat -> seq 0 n = seq 0 i ++ i :: seq (S i) (n - S i).
Proof.
  intros Hlt.
  replace n with (i + S (n - S i))%nat at 1 by lia.
  rewrite seq_app. cbn. reflexivity.
Qed.

Lemma not_in_seq_before (i : nat) : ~ In i (seq 0 i).
Proof. rewrite in_seq. lia. Qed.

Lemma not_in_seq_after (i m : nat) : ~ In i (seq (S i) m).
Proof. rewrite in_seq. lia. Qed.

(** The pass, seen from index [i]: the callbacks before it, its own,
    the callbacks after it. *)
Lemma entitiesPass_split dt ss st i :
  (i < List.length (entitiesRef st))%nat ->
  entitiesPass dt ss st =
  fold_left (entityCallback dt ss)
    (seq (S i) (List.length (entitiesRef st) - S i))
    (entityCallback dt ss
       (fold_left (entityCallback dt ss) (seq 0 i) st) i).
Proof.
  intros Hlt. unfold entitiesPass.
  rewrite (seq_split_at _ _ Hlt), fold_left_app. reflexivity.
Qed.

Lemma cull_type ent : Entity.type (cull ent) = Entity.type ent.
Proof. unfold cull. destruct (_ || _); reflexivity. Qed.

Lemma cull_position ent : Entity.position (cull ent) = Entity.position ent.
Proof. unfold cull. destruct (_ || _); reflexivity. Qed.

Lemma cull_velocity ent : Entity.velocity (cull ent) = Entity.velocity ent.
Proof. unfold cull. destruct (_ || _); reflexivity. Qed.

(** The callback of an active enemy projectile: the element moves along
    z only. *)
Lemma entityCallback_enemyProjectile dt ss st i e :
  holds i e st ->
  Entity.type e = Entity.PROJECTILE_Enemy ->
  Entity.active e = true ->
  exists e',
    holds i e' (entityCallback dt ss st i)
    /\ Entity.type e' = Entity.PROJECTILE_Enemy
    /\ Entity.velocity e' = Entity.velocity e
    /\ Entity.position e'
       = Vector3.mk (Vector3.x (Entity.position e))
           (Vector3.y (Entity.position e))
           (Vector3.z (Entity.position e) - 2.0 * (dt / 16)).
Proof.
  intros H Hty Hact. unfold entityCallback.
  rewrite H, Hact. cbn [negb].
  unfold moveEntity. rewrite Hty. cbv zeta.
  set (p := Vector3.mk _ _ _).
  set (e1 := cull (Entity.set_position p e)).
  assert (Hty1 : Entity.type e1 = Entity.PROJECTILE_Enemy).
  { unfold e1. rewrite cull_type. exact Hty. }
  assert (Hp1 : Entity.position e1 = p).
  { unfold e1. rewrite cull_position. reflexivity. }
  assert (Hv1 : Entity.velocity e1 = Entity.velocity e).
  { unfold e1. rewrite cull_velocity. reflexivity. }
  unfold enemyCollisions. rewrite Hty1. cbn [Entity.isEnemy andb].
  pose proof (holds_storeEntity_same i e e1 st H) as Hs.
  unfold enemyProjectileHitsPlayer.
  destruct (_ && _).
  - cbv zeta.
    exists (Entity.set_active false e1). split; [| auto].
    eapply holds_storeEntity_same.
    eapply holds_cosmetic; [apply spawnExplosion_cosmetic |]. exact Hs.
  - exists e1. split; [| auto].
    eapply holds_storeEntity_same. exact Hs.
Qed.

(** C8.  Through the entity pass of a step with elapsed time [dt], an
    active enemy projectile of the store keeps its x and y and has its z
    lowered by exactly [2.0 * (dt / 16)]; its stored velocity is left as
    it was and takes no part in the motion. *)
Theorem enemy_projectile_motion dt ss st i e :
  holds i e st ->
  Entity.type e = Entity.PROJECTILE_Enemy ->
  Entity.active e = true ->
  exists e',
    holds i e' (entitiesPass dt ss st)
    /\ Entity.velocity e' = Entity.velocity e
    /\ Vector3.x (Entity.position e') = Vector3.x (Entity.position e)
    /\ Vector3.y (Entity.position e') = Vector3.y (Entity.position e)
    /\ Vector3.z (Entity.position e')
       = Vector3.z (Entity.position e) - 2.0 * (dt / 16).
Proof.
  intros H Hty Hact.
  assert (Hlt : (i < List.length (entitiesRef st))%nat).
  { apply nth_error_Some. unfold holds in H. congruence. }
  rewrite (entitiesPass_split dt ss st i Hlt).
  assert (Hn : Entity.isPlayerProjectile (Entity.type e) && Entity.active e
               = false) by (rewrite Hty; reflexivity).
  pose proof (holds_fold_entityCallback_other i e dt ss (seq 0 i) st
                (not_in_seq_before i) H Hn) as Hbefore.
  destruct (entityCallback_enemyProjectile dt ss _ i e Hbefore Hty Hact)
    as (e' & Hown & Hty' & Hv' & Hp').
  assert (Hn' : Entity.isPlayerProjectile (Entity.type e') && Entity.active e'
                = false) by (rewrite Hty'; reflexivity).
  exists e'. split.
  - apply holds_fold_entityCallback_other;
      [apply not_in_seq_after | exact Hown | exact Hn'].
  - rewrite Hp'. cbn. auto.
Qed.

Lemma enemy_projectile_motion_witness :
  let e :=
    projectileOf (Vector3.mk 3 4 100) (Vector3.mk 0 0 0) false 0.5 in
  let st :=
    set_entitiesRef [e] (initialState (fun _ => 0) (fun _ => 0)) in
  exists e',
    holds 0 e' (entitiesPass 16 2.5 st)
    /\ Entity.velocity e' = Entity.velocity e
    /\ Vector3.x (Entity.position e') = Vector3.x (Entity.position e)
    /\ Vector3.y (Entity.position e') = Vector3.y (Entity.position e)
    /\ Vector3.z (Entity.position e')
       = Vector3.z (Entity.position e) - 2.0 * (16 / 16).
Proof.
  intros e st.
  apply (enemy_projectile_motion 16 2.5 st 0 e); reflexivity.
Defined.

End Store.

(** ** Firing *)

Section Firing.
Import GameEngine Vocabulary.

Lemma update_beforeCompaction props dt st :
  update props dt st
  = particlesPass dt (compactEntities (beforeCompaction props dt st)).
Proof. reflexivity. Qed.

Lemma appendsEnemyShots_refl st : appendsEnemyShots st st.
Proof. exists []. rewrite app_nil_r. split; [reflexivity | constructor]. Qed.

Lemma appendsEnemyShots_trans a b c :
  appendsEnemyShots a b -> appendsEnemyShots b c -> appendsEnemyShots a c.
Proof.
  intros (x & Hx & Fx) (y & Hy & Fy). exists (x ++ y).
  rewrite Hy, Hx, app_assoc. split; [reflexivity |].
  apply Forall_app. split; assumption.
Qed.

Lemma cosmetic_appendsEnemyShots st st' :
  cosmetic st st' -> appendsEnemyShots st st'.
Proof.
  intros Hc. exists []. unfold typesOf.
  rewrite (cosmetic_entitiesRef _ _ Hc), app_nil_r.
  split; [reflexivity | constructor].
Qed.

Lemma map_replaceAt_same_type {A B : Type} (f : A -> B) (i : nat) (a : A)
  (l : list A) :
  nth_error (map f l) i = Some (f a) -> map f (replaceAt i a l) = map f l.
Proof.
  revert i. induction l as [| h t IH]; intros [| i] H; cbn in *;
    try reflexivity.
  - congruence.
  - f_equal. apply IH. exact H.
Qed.

Lemma storeEntity_appendsEnemyShots i e st :
  nth_error (typesOf st) i = Some (Entity.type e) ->
  appendsEnemyShots st (storeEntity i e st).
Proof.
  intros H. exists []. unfold typesOf in *. cbn.
  rewrite (map_replaceAt_same_type _ _ _ _ H), app_nil_r.
  split; [reflexivity | constructor].
Qed.

Lemma enemyShot_appendsEnemyShots s t st :
  appendsEnemyShots st (spawnProjectile s t false st).
Proof.
  exists [Entity.PROJECTILE_Enemy]. unfold typesOf.
  rewrite spawnProjectile_eq. cbn. rewrite map_app. cbn.
  split; [reflexivity | repeat constructor].
Qed.

(** An index that has a type in [st] has the same one later. *)
Lemma appendsEnemyShots_nth st st' i ty :
  appendsEnemyShots st st' ->
  nth_error (typesOf st) i = Some ty -> nth_error (typesOf st') i = Some ty.
Proof.
  intros (x & Hx & _) H. rewrite Hx.
  rewrite nth_error_app1; [exact H |].
  apply nth_error_Some. congruence.
Qed.

Lemma moveEntity_appendsEnemyShots dt ss ent st :
  Entity.type (fst (moveEntity dt ss ent st)) = Entity.type ent
  /\ appendsEnemyShots st (snd (moveEntity dt ss ent st)).
Proof.
  pose proof (cosmetic_appendsEnemyShots _ _ (random_cosmetic st)) as Hr.
  unfold moveEntity.
  destruct (Entity.type ent) eqn:Hty; cbn -[spawnProjectile];
    try (split; [congruence | apply appendsEnemyShots_refl]);
    destruct (_ && _); cbn -[spawnProjectile];
    (split; [congruence |]); try exact Hr;
    (eapply appendsEnemyShots_trans; [exact Hr |]);
    apply enemyShot_appendsEnemyShots.
Qed.

Lemma projectileHit_appendsEnemyShots ent st j :
  Entity.type (fst (projectileHit (ent, st) j)) = Entity.type ent
  /\ appendsEnemyShots st (snd (projectileHit (ent, st) j)).
Proof.
  unfold projectileHit.
  destruct (nth_error _ _) as [proj |] eqn:Ej;
    [| split; [reflexivity | apply appendsEnemyShots_refl]].
  destruct (VectorMath.checkCollision _ _ _ _);
    [| split; [reflexivity | apply appendsEnemyShots_refl]].
  cbv zeta.
  set (st1 := storeEntity j _ st).
  assert (H1 : appendsEnemyShots st st1).
  { apply storeEntity_appendsEnemyShots. unfold typesOf.
    rewrite nth_error_map, Ej. reflexivity. }
  set (st2 := spawnExplosion _ _ st1).
  assert (H2 : appendsEnemyShots st st2).
  { eapply appendsEnemyShots_trans; [exact H1 |].
    apply cosmetic_appendsEnemyShots, spawnExplosion_cosmetic. }
  destruct (Rleb _ _); cbn [fst snd]; (split; [reflexivity |]).
  - eapply appendsEnemyShots_trans; [exact H2 |].
    exists []. unfold typesOf. cbn. rewrite app_nil_r.
    split; [reflexivity | constructor].
  - exact H2.
Qed.

Lemma fold_projectileHit_appendsEnemyShots js : forall ent st,
  Entity.type (fst (fold_left projectileHit js (ent, st))) = Entity.type ent
  /\ appendsEnemyShots st (snd (fold_left projectileHit js (ent, st))).
Proof.
  induction js as [| j js IH]; intros ent st; cbn [fold_left].
  - split; [reflexivity | apply appendsEnemyShots_refl].
  - destruct (projectileHit_appendsEnemyShots ent st j) as [Ht Hs].
    destruct (projectileHit (ent, st) j) as [ent' st'].
    cbn [fst snd] in *.
    destruct (IH ent' st') as [Ht' Hs'].
    split; [congruence | eapply appendsEnemyShots_trans; eassumption].
Qed.

Lemma enemyHitsPlayer_appendsEnemyShots ent st :
  Entity.type (fst (enemyHitsPlayer ent st)) = Entity.type ent
  /\ appendsEnemyShots st (snd (enemyHitsPlayer ent st)).
Proof.
  unfold enemyHitsPlayer.
  destruct (VectorMath.checkCollision _ _ _ _);
    [| split; [reflexivity | apply appendsEnemyShots_refl]].
  cbv zeta. cbn [fst snd]. split; [reflexivity |].
  eapply appendsEnemyShots_trans;
    [| apply cosmetic_appendsEnemyShots, spawnExplosion_cosmetic].
  exists []. unfold typesOf. cbn. rewrite app_nil_r.
  split; [reflexivity | constructor].
Qed.

Lemma enemyProjectileHitsPlayer_appendsEnemyShots ent st :
  Entity.type (fst (enemyProjectileHitsPlayer ent st)) = Entity.type ent
  /\ appendsEnemyShots st (snd (enemyProjectileHitsPlayer ent st)).
Proof.
  unfold enemyProjectileHitsPlayer.
  destruct (_ && _);
    [| split; [reflexivity | apply appendsEnemyShots_refl]].
  cbv zeta. cbn [fst snd]. split; [reflexivity |].
  eapply appendsEnemyShots_trans;
    [| apply cosmetic_appendsEnemyShots, spawnExplosion_cosmetic].
  exists []. unfold typesOf. cbn. rewrite app_nil_r.
  split; [reflexivity | constructor].
Qed.

Lemma enemyCollisions_appendsEnemyShots ent st :
  Entity.type (fst (enemyCollisions ent st)) = Entity.type ent
  /\ appendsEnemyShots st (snd (enemyCollisions ent st)).
Proof.
  unfold enemyCollisions.
  destruct (_ && _);
    [| split; [reflexivity | apply appendsEnemyShots_refl]].
  destruct (fold_projectileHit_appendsEnemyShots
              (activePlayerProjectiles st) ent st) as [Ht Hs].
  destruct (fold_left _ _ _) as [ent' st']. cbn [fst snd] in *.
  destruct (enemyHitsPlayer_appendsEnemyShots ent' st') as [Ht' Hs'].
  split; [congruence | eapply appendsEnemyShots_trans; eassumption].
Qed.

Lemma entityCallback_appendsEnemyShots dt ss st i :
  appendsEnemyShots st (entityCallback dt ss st i).
Proof.
  unfold entityCallback.
  destruct (nth_error _ _) as [ent |] eqn:Ei;
    [| apply appendsEnemyShots_refl].
  destruct (negb _); [apply appendsEnemyShots_refl |].
  assert (H0 : nth_error (typesOf st) i = Some (Entity.type ent)).
  { unfold typesOf. rewrite nth_error_map, Ei. reflexivity. }
  destruct (moveEntity_appendsEnemyShots dt ss ent st) as [Ht1 Hs1].
  destruct (moveEntity dt ss ent st) as [ent1 st1]. cbn [fst snd] in *.
  cbv zeta.
  assert (Hs2 : appendsEnemyShots st1 (storeEntity i (cull ent1) st1)).
  { apply storeEntity_appendsEnemyShots. rewrite cull_type, Ht1.
    eapply appendsEnemyShots_nth; eassumption. }
  destruct (enemyCollisions_appendsEnemyShots (cull ent1)
              (storeEntity i (cull ent1) st1)) as [Ht3 Hs3].
  destruct (enemyCollisions _ _) as [ent3 st3]. cbn [fst snd] in *.
  destruct (enemyProjectileHitsPlayer_appendsEnemyShots ent3 st3)
    as [Ht4 Hs4].
  destruct (enemyProjectileHitsPlayer ent3 st3) as [ent4 st4].
  cbn [fst snd] in *.
  assert (Hall : appendsEnemyShots st st4).
  { eapply appendsEnemyShots_trans; [exact Hs1 |].
    eapply appendsEnemyShots_trans; [exact Hs2 |].
    eapply appendsEnemyShots_trans; eassumption. }
  eapply appendsEnemyShots_trans; [exact Hall |].
  apply storeEntity_appendsEnemyShots.
  rewrite Ht4, Ht3, cull_type, Ht1.
  eapply appendsEnemyShots_nth; eassumption.
Qed.

Lemma entitiesPass_appendsEnemyShots dt ss st :
  appendsEnemyShots st (entitiesPass dt ss st).
Proof.
  unfold entitiesPass. generalize (seq 0 (List.length (entitiesRef st))).
  intros idx. revert st.
  induction idx as [| i idx IH]; intros st; cbn [fold_left].
  - apply appendsEnemyShots_refl.
  - eapply appendsEnemyShots_trans;
      [apply entityCallback_appendsEnemyShots | apply IH].
Qed.

Lemma appendsEnemyShots_count st st' :
  appendsEnemyShots st st' ->
  countPlayerProjectiles (typesOf st') = countPlayerProjectiles (typesOf st).
Proof.
  intros (x & Hx & Fx). rewrite Hx. unfold countPlayerProjectiles.
  rewrite filter_app, length_app. clear Hx.
  assert (E : filter Entity.isPlayerProjectile x = []).
  { induction Fx as [| ty x Hty _ IH]; [reflexivity |].
    cbn. rewrite Hty. cbn. exact IH. }
  rewrite E. cbn. lia.
Qed.

Lemma isFiring_always st : isFiring st = true.
Proof. unfold isFiring. apply orb_true_r. Qed.

Lemma firing_entitiesRef props st :
  entitiesRef (firing props st)
  = if Rgtb (sinceLastShot st) FIRE_RATE
    then entitiesRef st
         ++ [projectileOf (Entity.position (playerRef st))
               (aimPoint props st) true (randomSource st 0%nat)]
    else entitiesRef st.
Proof.
  unfold firing. rewrite isFiring_always. unfold sinceLastShot. cbn.
  destruct (Rgtb _ _); reflexivity.
Qed.

Lemma firing_lastFireTimeRef props st :
  lastFireTimeRef (firing props st)
  = if Rgtb (sinceLastShot st) FIRE_RATE then clock st 1%nat
    else lastFireTimeRef st.
Proof.
  unfold firing. rewrite isFiring_always. unfold sinceLastShot. cbn.
  destruct (Rgtb _ _); reflexivity.
Qed.

(** The earlier phases of the step leave the store's player projectiles,
    the clock and the time of the last shot as they were. *)
Lemma spawning_typesOf props st :
  exists extra,
    typesOf (spawning props st) = typesOf st ++ extra
    /\ countPlayerProjectiles extra = 0%nat.
Proof.
  unfold spawning.
  destruct (Rgtb _ _); [| exists []; rewrite app_nil_r; auto].
  cbn -[spawnEnemy]. destruct (Rltb _ _).
  - exists [Entity.ENEMY_Interceptor]. rewrite spawnEnemy_eq.
    unfold typesOf. cbn. rewrite map_app. auto.
  - exists []. rewrite app_nil_r. auto.
Qed.

Lemma spawning_sinceLastShot props st :
  sinceLastShot (spawning props st) = sinceLastShot st.
Proof.
  unfold spawning. destruct (Rgtb _ _); [| reflexivity].
  cbn. destruct (Rltb _ _); reflexivity.
Qed.

Lemma beforeFiring_sinceLastShot props st :
  sinceLastShot
    (spawning props (thrusters (moveShip props (updateReticle st))))
  = sinceLastShot st.
Proof.
  rewrite spawning_sinceLastShot. unfold sinceLastShot.
  pose proof (thrusters_cosmetic (moveShip props (updateReticle st))) as Hc.
  rewrite (cosmetic_clock _ _ Hc), (cosmetic_lastFireTimeRef _ _ Hc).
  reflexivity.
Qed.

Lemma count_app a b :
  countPlayerProjectiles (a ++ b)
  = (countPlayerProjectiles a + countPlayerProjectiles b)%nat.
Proof. unfold countPlayerProjectiles. rewrite filter_app, length_app. auto. Qed.

Lemma beforeCompaction_count props dt st :
  countPlayerProjectiles (typesOf (beforeCompaction props dt st))
  = (countPlayerProjectiles (typesOf st)
     + if Rgtb (sinceLastShot st) FIRE_RATE then 1 else 0)%nat.
Proof.
  unfold beforeCompaction.
  rewrite (appendsEnemyShots_count _ _ (entitiesPass_appendsEnemyShots _ _ _)).
  set (s3 := thrusters (moveShip props (updateReticle st))).
  assert (H3 : typesOf s3 = typesOf st).
  { unfold typesOf, s3.
    rewrite (cosmetic_entitiesRef _ _ (thrusters_cosmetic _)). reflexivity. }
  destruct (spawning_typesOf props s3) as (extra & H4 & Hc).
  pose proof (beforeFiring_sinceLastShot props st) as Hg. fold s3 in Hg.
  unfold typesOf at 1. rewrite firing_entitiesRef, Hg.
  fold (typesOf (spawning props s3)).
  destruct (Rgtb _ _).
  - rewrite map_app. fold (typesOf (spawning props s3)).
    rewrite H4, H3, !count_app, Hc. cbn. lia.
  - fold (typesOf (spawning props s3)).
    rewrite H4, H3, !count_app, Hc. lia.
Qed.

(** A shot leaves at speed 6 whenever the ship is not at its aim. *)
Lemma aimVelocity_speed ship aim :
  norm (minus aim ship) <> 0 -> norm (aimVelocity ship aim) = 6.
Proof.
  intros Hn. unfold aimVelocity. cbv zeta.
  set (d := minus aim ship) in *.
  set (n := norm d) in *.
  assert (Hsq : n * n
                = Vector3.x d * Vector3.x d + Vector3.y d * Vector3.y d
                  + Vector3.z d * Vector3.z d).
  { unfold n, norm. apply sqrt_sqrt. nra. }
  unfold norm at 1. cbn [Vector3.x Vector3.y Vector3.z].
  replace (Vector3.x d / n * 6 * (Vector3.x d / n * 6)
           + Vector3.y d / n * 6 * (Vector3.y d / n * 6)
           + Vector3.z d / n * 6 * (Vector3.z d / n * 6))
    with (6 * 6).
  - apply sqrt_square. lra.
  - transitivity
      (36 * (Vector3.x d * Vector3.x d + Vector3.y d * Vector3.y d
             + Vector3.z d * Vector3.z d) / (n * n)).
    + rewrite <- Hsq. field. exact Hn.
    + field. exact Hn.
Qed.

(** C6, as the code has it.  The firing phase spawns exactly one player
    projectile when strictly more than 100 ms of wall time have passed
    since the last shot, and none when at most 100 ms have passed; no key
    and no pointer flag takes part in the decision.  The shot leaves the
    ship along the normalized vector toward the unprojection of the raw
    input at world Z = 400, and it is the only player projectile a step
    adds to the store. *)
Theorem autofire_rate_gate props dt st :
  let ship := Entity.position (playerRef st) in
  let shot := projectileOf ship (aimPoint props st) true
                (randomSource st 0%nat) in
  Entity.type shot = Entity.PROJECTILE_Player
  /\ Entity.velocity shot = aimVelocity ship (aimPoint props st)
  /\ (sinceLastShot st > 100 ->
      entitiesRef (firing props st) = entitiesRef st ++ [shot])
  /\ (sinceLastShot st <= 100 ->
      entitiesRef (firing props st) = entitiesRef st)
  /\ (forall keys active,
         entitiesRef
           (firing props
              (set_keysRef keys
                 (set_inputRef
                    (Input.mk (Input.x (inputRef st)) (Input.y (inputRef st))
                       active) st)))
         = entitiesRef (firing props st))
  /\ countPlayerProjectiles (typesOf (beforeCompaction props dt st))
     = (countPlayerProjectiles (typesOf st)
        + if Rgtb (sinceLastShot st) 100 then 1 else 0)%nat.
Proof.
  intros ship shot. split; [reflexivity |].
  split.
  { unfold shot, projectileOf, aimVelocity, norm, minus. cbv zeta.
    cbn [Entity.velocity Vector3.x Vector3.y Vector3.z].
    f_equal; lra. }
  split.
  { intros Hgt. rewrite firing_entitiesRef. unfold FIRE_RATE.
    rewrite (Rgtb_true_intro _ _ Hgt). reflexivity. }
  split.
  { intros Hle. rewrite firing_entitiesRef. unfold FIRE_RATE.
    rewrite (Rgtb_false_intro _ _ Hle). reflexivity. }
  split.
  { intros keys active. rewrite !firing_entitiesRef. reflexivity. }
  apply beforeCompaction_count.
Qed.

(** C6, counterexample to the claim as stated: the last shot was at
    wall time 1700000000000 and the step reads 1700000000100, so 100 ms
    ("at least 100 ms") have passed, and the firing phase spawns
    nothing. *)
Lemma autofire_silent_at_100ms :
  let props := mkProps (MissionData.mk "" "" "#ff00ff" 0.5 1) 800 600 false in
  let st :=
    set_lastFireTimeRef 1700000000000
      (initialState (fun _ => 0.5) (fun _ => 1700000000100)) in
  sinceLastShot st >= 100
  /\ entitiesRef (firing props st) = entitiesRef st
  /\ countPlayerProjectiles (typesOf (beforeCompaction props 16 st))
     = countPlayerProjectiles (typesOf st).
Proof.
  intros props st.
  assert (Hg : sinceLastShot st = 100) by (unfold sinceLastShot; cbn; lra).
  assert (Hf : Rgtb (sinceLastShot st) FIRE_RATE = false).
  { apply Rgtb_false_intro. unfold FIRE_RATE. lra. }
  split; [lra |]. split.
  - rewrite firing_entitiesRef, Hf. reflexivity.
  - rewrite beforeCompaction_count, Hf. lia.
Qed.

End Firing.

(** ** Reporting to the shell *)

Section Reporting.
Import GameEngine Vocabulary.

Lemma animate_simulated props time st :
  animate props time st = report props (emit Render (simulated props time st)).
Proof. reflexivity. Qed.

(** The update part of a frame writes neither the log, nor the pending
    request, nor the last reported values, and does not raise the
    health. *)
Lemma simulated_frame props time st :
  log (simulated props time st) = log st
  /\ requestRef (simulated props time st) = requestRef st
  /\ lastReportedScoreRef (simulated props time st) = lastReportedScoreRef st
  /\ lastReportedHealthRef (simulated props time st)
     = lastReportedHealthRef st
  /\ Entity.health (playerRef (simulated props time st))
     <= Entity.health (playerRef st).
Proof.
  unfold simulated. cbv zeta.
  destruct (negb (paused props)).
  - match goal with
    | |- context [update props ?d ?s] =>
        destruct (update_steady props d s) as [Hl Hr Hs Hh _ _ _ _ Hhp]
    end.
    rewrite Hl, Hr, Hs, Hh.
    destruct (Reqb (lastTimeRef st) 0); cbn in *; repeat split; auto.
  - destruct (Reqb (lastTimeRef st) 0); cbn; repeat split; auto; lra.
Qed.

Lemma report_log props st :
  log (report props st) = log st ++ reports props st.
Proof.
  unfold report, reports, scoreReport, healthReport, gameOverReport.
  destruct (paused props); cbn [negb].
  - cbn. rewrite app_nil_r. reflexivity.
  - destruct (Rneqb (scoreRef st) (lastReportedScoreRef st));
      cbn -[ceil];
      destruct (Rneqb (ceil (Entity.health (playerRef st)))
                  (lastReportedHealthRef st));
      cbn -[ceil];
      destruct (Rgtb (Entity.health (playerRef st)) 0);
      cbn -[ceil];
      rewrite <- ?app_assoc; cbn; rewrite ?app_nil_r; reflexivity.
Qed.

Lemma report_requestRef props st :
  requestRef (report props st)
  = if paused props then true
    else if Rgtb (Entity.health (playerRef st)) 0 then true
         else requestRef st.
Proof.
  unfold report.
  destruct (paused props); cbn [negb]; [reflexivity |].
  destruct (Rneqb (scoreRef st) (lastReportedScoreRef st));
    cbn -[ceil];
    destruct (Rneqb (ceil (Entity.health (playerRef st)))
                (lastReportedHealthRef st));
    cbn -[ceil];
    destruct (Rgtb (Entity.health (playerRef st)) 0);
    reflexivity.
Qed.

Lemma report_lastReportedHealthRef props st :
  lastReportedHealthRef (report props st)
  = if paused props then lastReportedHealthRef st
    else if Rneqb (ceil (Entity.health (playerRef st)))
              (lastReportedHealthRef st)
         then ceil (Entity.health (playerRef st))
         else lastReportedHealthRef st.
Proof.
  unfold report.
  destruct (paused props); cbn [negb]; [reflexivity |].
  destruct (Rneqb (scoreRef st) (lastReportedScoreRef st));
    cbn -[ceil];
    destruct (Rneqb (ceil (Entity.health (playerRef st)))
                (lastReportedHealthRef st));
    cbn -[ceil];
    destruct (Rgtb (Entity.health (playerRef st)) 0);
    reflexivity.
Qed.

(** [report] touches nothing of the simulation. *)
Lemma report_simulation props st :
  playerRef (report props st) = playerRef st
  /\ entitiesRef (report props st) = entitiesRef st
  /\ particlesRef (report props st) = particlesRef st
  /\ scoreRef (report props st) = scoreRef st
  /\ gameTimeRef (report props st) = gameTimeRef st.
Proof.
  unfold report.
  destruct (paused props); cbn [negb]; [repeat split |].
  destruct (Rneqb (scoreRef st) (lastReportedScoreRef st));
    cbn -[ceil];
    destruct (Rneqb (ceil (Entity.health (playerRef st)))
                (lastReportedHealthRef st));
    cbn -[ceil];
    destruct (Rgtb (Entity.health (playerRef st)) 0);
    repeat split.
Qed.

(** The events of one frame. *)
Lemma animate_log props time st :
  log (animate props time st)
  = log st ++ Render :: reports props (simulated props time st).
Proof.
  rewrite animate_simulated, report_log.
  destruct (simulated_frame props time st) as (Hl & _).
  unfold reports, scoreReport, healthReport, gameOverReport.
  cbn -[ceil]. rewrite Hl, <- app_assoc. reflexivity.
Qed.


Lemma ceil_IZR z : ceil (IZR z) = IZR z.
Proof.
  unfold ceil, Zceil. rewrite ZfloorNZ. f_equal. lia.
Qed.



End Reporting.

(** ** Collisions: evaluating one callback *)

Section Collisions.
Import GameEngine Vocabulary.

Lemma spawnExplosion_entitiesRef p c st :
  entitiesRef (spawnExplosion p c st) = entitiesRef st.
Proof. apply cosmetic_entitiesRef, spawnExplosion_cosmetic. Qed.

Lemma spawnExplosion_playerRef p c st :
  playerRef (spawnExplosion p c st) = playerRef st.
Proof. apply cosmetic_playerRef, spawnExplosion_cosmetic. Qed.

Lemma spawnExplosion_scoreRef p c st :
  scoreRef (spawnExplosion p c st) = scoreRef st.
Proof. apply cosmetic_scoreRef, spawnExplosion_cosmetic. Qed.

Lemma cull_inBounds e : inBounds (Entity.position e) -> cull e = e.
Proof.
  intros [Hlo Hhi]. unfold cull. cbv zeta.
  rewrite (Rltb_false_intro _ _ Hlo), (Rgtb_false_intro _ _ Hhi).
  reflexivity.
Qed.

Lemma moveEntity_enemy dt ss B st :
  Entity.isEnemy (Entity.type B) = true ->
  moveEntity dt ss B st
  = (Entity.set_position (enemyMoved ss B) B,
     if enemyShoots ss B st
     then spawnProjectile (enemyMoved ss B)
            (Entity.position (playerRef st)) false (snd (random st))
     else snd (random st)).
Proof.
  intros Hty. unfold moveEntity, enemyShoots, enemyMoved.
  destruct (Entity.type B); try discriminate;
    cbn -[spawnProjectile]; destruct (_ && _); reflexivity.
Qed.


(** The state after an enemy's move: the store has grown by its shot,
    if any; the player and the score are as before. *)
Lemma afterEnemyMove_entitiesRef dt ss B st :
  Entity.isEnemy (Entity.type B) = true ->
  entitiesRef (snd (moveEntity dt ss B st))
  = entitiesRef st ++ enemyShot ss B st.
Proof.
  intros Hty. rewrite (moveEntity_enemy dt ss B st Hty). cbn [snd].
  unfold enemyShot. destruct (enemyShoots ss B st).
  - rewrite spawnProjectile_eq. reflexivity.
  - cbn. rewrite app_nil_r. reflexivity.
Qed.

Lemma afterEnemyMove_playerRef dt ss B st :
  playerRef (snd (moveEntity dt ss B st)) = playerRef st.
Proof.
  unfold moveEntity.
  destruct (Entity.type B); cbn; try reflexivity;
    destruct (_ && _); reflexivity.
Qed.

Lemma afterEnemyMove_scoreRef dt ss B st :
  scoreRef (snd (moveEntity dt ss B st)) = scoreRef st.
Proof.
  unfold moveEntity.
  destruct (Entity.type B); cbn; try reflexivity;
    destruct (_ && _); reflexivity.
Qed.

Lemma enemyShot_types ss B st :
  Forall (fun e => Entity.type e = Entity.PROJECTILE_Enemy
                   /\ Entity.active e = true)
    (enemyShot ss B st).
Proof.
  unfold enemyShot. destruct (enemyShoots ss B st); repeat constructor.
Qed.

Lemma enemyProjectileHitsPlayer_other e st :
  Entity.isEnemyProjectile (Entity.type e) = false ->
  enemyProjectileHitsPlayer e st = (e, st).
Proof. intros H. unfold enemyProjectileHitsPlayer. rewrite H. reflexivity. Qed.


Lemma isEnemy_not_projectile ty :
  Entity.isEnemy ty = true ->
  Entity.isPlayerProjectile ty = false /\ Entity.isEnemyProjectile ty = false.
Proof. destruct ty; try discriminate; auto. Qed.

(** The callback of an inactive element does nothing; the callback of
    an active player projectile moves it and culls it. *)
Lemma entityCallback_inactive dt ss st i e :
  holds i e st -> Entity.active e = false -> entityCallback dt ss st i = st.
Proof.
  intros H Ha. unfold entityCallback. rewrite H, Ha. reflexivity.
Qed.


(** The callback of an active enemy that stays in bounds, as the three
    steps that matter: its move, the projectiles, the player. *)
Lemma entityCallback_enemy dt ss st i B :
  holds i B st ->
  Entity.isEnemy (Entity.type B) = true ->
  Entity.active B = true ->
  inBounds (enemyMoved ss B) ->
  let B1 := Entity.set_position (enemyMoved ss B) B in
  let st2 := storeEntity i B1 (snd (moveEntity dt ss B st)) in
  let hit := fold_left projectileHit (activePlayerProjectiles st2) (B1, st2) in
  let out := enemyHitsPlayer (fst hit) (snd hit) in
  entityCallback dt ss st i = storeEntity i (fst out) (snd out).
Proof.
  intros H Hty Ha Hin B1 st2 hit out. unfold entityCallback.
  rewrite H, Ha. cbn [negb].
  rewrite (moveEntity_enemy dt ss B st Hty).
  rewrite (cull_inBounds (Entity.set_position (enemyMoved ss B) B)) by exact Hin.
  assert (E : storeEntity i (Entity.set_position (enemyMoved ss B) B)
                (if enemyShoots ss B st
                 then spawnProjectile (enemyMoved ss B)
                        (Entity.position (playerRef st)) false
                        (snd (random st))
                 else snd (random st)) = st2).
  { unfold st2. rewrite (moveEntity_enemy dt ss B st Hty). reflexivity. }
  rewrite E. fold B1.
  unfold enemyCollisions.
  assert (Hc : Entity.isEnemy (Entity.type B1) && Entity.active B1 = true).
  { unfold B1. cbn. rewrite Hty, Ha. reflexivity. }
  rewrite Hc. fold hit.
  destruct hit as [e3 s3] eqn:Ehit. cbn [fst snd] in out.
  fold out. destruct out as [e4 s4] eqn:Eout. cbn [fst snd].
  assert (Ht4 : Entity.type e4 = Entity.type B).
  { pose proof (fold_projectileHit_appendsEnemyShots
                  (activePlayerProjectiles st2) B1 st2) as [Ht _].
    unfold hit in Ehit. rewrite Ehit in Ht. cbn [fst] in Ht.
    pose proof (enemyHitsPlayer_appendsEnemyShots e3 s3) as [Ht' _].
    unfold out in Eout. rewrite Eout in Ht'. cbn [fst] in Ht'.
    rewrite Ht', Ht. reflexivity. }
  rewrite enemyProjectileHitsPlayer_other; [reflexivity |].
  rewrite Ht4. apply (isEnemy_not_projectile _ Hty).
Qed.

Lemma projectileHit_hit ent st j proj :
  nth_error (entitiesRef st) j = Some proj ->
  VectorMath.checkCollision (Entity.position ent) (Entity.radius ent)
    (Entity.position proj) (Entity.radius proj) = true ->
  let ent' := Entity.set_health (Entity.health ent - 50) ent in
  let st' :=
    spawnExplosion (Entity.position ent') (Entity.color ent')
      (storeEntity j (Entity.set_active false proj) st) in
  projectileHit (ent, st) j
  = if Rleb (Entity.health ent') 0
    then (Entity.set_active false ent',
          set_scoreRef (scoreRef st' + Entity.scoreValue ent') st')
    else (ent', st').
Proof.
  intros Hj Hc ent' st'. unfold projectileHit. rewrite Hj, Hc. reflexivity.
Qed.

Lemma enemyHitsPlayer_hit ent st :
  VectorMath.checkCollision (Entity.position (playerRef st))
    (Entity.radius (playerRef st)) (Entity.position ent) (Entity.radius ent)
  = true ->
  let st1 :=
    set_playerRef
      (Entity.set_health (Entity.health (playerRef st) - 20) (playerRef st))
      st in
  enemyHitsPlayer ent st
  = (Entity.set_active false ent,
     spawnExplosion (Entity.position (playerRef st1)) "#ff0000" st1).
Proof.
  intros Hc st1. unfold enemyHitsPlayer. rewrite Hc. reflexivity.
Qed.

Lemma activeFrom_filter l : forall k,
  filter
    (fun j =>
       match nth_error l (j - k) with
       | Some p => Entity.isPlayerProjectile (Entity.type p) && Entity.active p
       | None => false
       end)
    (seq k (List.length l))
  = activeFrom k l.
Proof.
  induction l as [| e t IH]; intros k; [reflexivity |].
  cbn [List.length seq filter activeFrom].
  replace (k - k)%nat with 0%nat by lia. cbn [nth_error].
  assert (E : filter
                (fun j =>
                   match nth_error (e :: t) (j - k) with
                   | Some p =>
                       Entity.isPlayerProjectile (Entity.type p)
                       && Entity.active p
                   | None => false
                   end)
                (seq (S k) (List.length t))
              = activeFrom (S k) t).
  { rewrite <- IH. apply filter_ext_in. intros j Hj.
    apply in_seq in Hj.
    replace (j - k)%nat with (S (j - S k)) by lia. reflexivity. }
  rewrite E. reflexivity.
Qed.

Lemma activePlayerProjectiles_eq st :
  activePlayerProjectiles st = activeFrom 0 (entitiesRef st).
Proof.
  unfold activePlayerProjectiles. rewrite <- activeFrom_filter.
  apply filter_ext. intros j. rewrite Nat.sub_0_r. reflexivity.
Qed.

Lemma activeFrom_enemyShot ss B st k : activeFrom k (enemyShot ss B st) = [].
Proof. unfold enemyShot. destruct (enemyShoots ss B st); reflexivity. Qed.

(** A store with one enemy that rams the player. *)
Lemma lone_enemy_rams dt ss st B :
  entitiesRef st = [B] ->
  Entity.isEnemy (Entity.type B) = true ->
  Entity.active B = true ->
  inBounds (enemyMoved ss B) ->
  VectorMath.checkCollision (Entity.position (playerRef st))
    (Entity.radius (playerRef st)) (enemyMoved ss B) (Entity.radius B)
  = true ->
  playerRef (entitiesPass dt ss st)
  = Entity.set_health (Entity.health (playerRef st) - 20) (playerRef st)
  /\ scoreRef (entitiesPass dt ss st) = scoreRef st
  /\ entitiesRef (entitiesPass dt ss st)
     = Entity.set_active false (Entity.set_position (enemyMoved ss B) B)
       :: enemyShot ss B st.
Proof.
  intros Hst Hty Ha Hin Hc.
  assert (H0 : holds 0 B st) by (unfold holds; rewrite Hst; reflexivity).
  unfold entitiesPass. rewrite Hst. cbn [List.length seq fold_left].
  rewrite (entityCallback_enemy dt ss st 0 B H0 Hty Ha Hin). cbv zeta.
  set (B1 := Entity.set_position (enemyMoved ss B) B).
  set (st2 := storeEntity 0 B1 (snd (moveEntity dt ss B st))).
  assert (He2 : entitiesRef st2 = B1 :: enemyShot ss B st).
  { unfold st2. cbn [storeEntity entitiesRef set_entitiesRef].
    rewrite (afterEnemyMove_entitiesRef dt ss B st Hty), Hst. reflexivity. }
  assert (Hp2 : playerRef st2 = playerRef st).
  { unfold st2. cbn [storeEntity playerRef set_entitiesRef].
    apply afterEnemyMove_playerRef. }
  assert (Hs2 : scoreRef st2 = scoreRef st).
  { unfold st2. cbn [storeEntity scoreRef set_entitiesRef].
    apply afterEnemyMove_scoreRef. }
  assert (Hnone : activePlayerProjectiles st2 = []).
  { rewrite activePlayerProjectiles_eq, He2. cbn [activeFrom].
    unfold B1. cbn [Entity.type Entity.set_position].
    destruct (isEnemy_not_projectile _ Hty) as [Hpp _]. rewrite Hpp.
    cbn [andb]. apply activeFrom_enemyShot. }
  rewrite Hnone. cbn [fold_left fst snd].
  rewrite enemyHitsPlayer_hit
    by (rewrite Hp2; unfold B1; cbn [Entity.position Entity.radius
                                       Entity.set_position]; exact Hc).
  cbv zeta. cbn [fst snd]. forget_explosions.
  clearbody st2.
  cbn [storeEntity playerRef scoreRef entitiesRef set_entitiesRef
       set_playerRef set_particlesRef set_randomSource].
  rewrite He2, Hp2, Hs2. cbn [replaceAt]. auto.
Qed.

End Collisions.

(** ** A frame that ends the game *)

Section Ramming.
Import GameEngine Vocabulary.

Lemma firing_playerRef props st : playerRef (firing props st) = playerRef st.
Proof.
  unfold firing. destruct (isFiring st); [| reflexivity].
  cbn. destruct (Rgtb _ _); reflexivity.
Qed.

Lemma firing_scoreRef props st : scoreRef (firing props st) = scoreRef st.
Proof.
  unfold firing. destruct (isFiring st); [| reflexivity].
  cbn. destruct (Rgtb _ _); reflexivity.
Qed.

Lemma spawning_idle props st :
  gameTimeRef st <= 1500 -> spawning props st = st.
Proof.
  intros H. unfold spawning. rewrite (Rgtb_false_intro _ _ H). reflexivity.
Qed.

(** A step inside the grace period and inside the fire-rate interval
    reaches the entity pass with the store and the score it started
    with, and with the ship moved. *)
Lemma quiet_prelude props s :
  gameTimeRef s <= 1500 ->
  sinceLastShot s <= 100 ->
  let s5 :=
    firing props
      (spawning props (thrusters (moveShip props (updateReticle s)))) in
  entitiesRef s5 = entitiesRef s
  /\ playerRef s5 = playerRef (moveShip props s)
  /\ scoreRef s5 = scoreRef s.
Proof.
  intros Hg Hf s5. unfold s5.
  set (s2 := moveShip props (updateReticle s)).
  pose proof (thrusters_cosmetic s2) as Hc.
  assert (Hg3 : gameTimeRef (thrusters s2) <= 1500).
  { rewrite (cosmetic_gameTimeRef _ _ Hc). exact Hg. }
  rewrite (spawning_idle props _ Hg3).
  assert (Hf3 : sinceLastShot (thrusters s2) <= 100).
  { unfold sinceLastShot.
    rewrite (cosmetic_clock _ _ Hc), (cosmetic_lastFireTimeRef _ _ Hc).
    exact Hf. }
  rewrite firing_entitiesRef, firing_playerRef, firing_scoreRef.
  unfold FIRE_RATE. rewrite (Rgtb_false_intro _ _ Hf3).
  rewrite (cosmetic_entitiesRef _ _ Hc), (cosmetic_playerRef _ _ Hc),
    (cosmetic_scoreRef _ _ Hc).
  repeat split.
Qed.

Lemma update_lone_enemy props dt s B :
  gameTimeRef s <= 1500 ->
  sinceLastShot s <= 100 ->
  entitiesRef s = [B] ->
  Entity.isEnemy (Entity.type B) = true ->
  Entity.active B = true ->
  inBounds (enemyMoved (scrollSpeedOf props dt) B) ->
  VectorMath.checkCollision
    (Entity.position (playerRef (moveShip props s)))
    (Entity.radius (playerRef (moveShip props s)))
    (enemyMoved (scrollSpeedOf props dt) B) (Entity.radius B) = true ->
  Entity.health (playerRef (update props dt s))
  = Entity.health (playerRef s) - 20
  /\ scoreRef (update props dt s) = scoreRef s.
Proof.
  intros Hg Hf Hst Hty Ha Hin Hc.
  destruct (quiet_prelude props s Hg Hf) as (He5 & Hp5 & Hs5).
  cbv zeta in He5, Hp5, Hs5.
  unfold update.
  set (s5 := firing props
               (spawning props
                  (thrusters (moveShip props (updateReticle s))))) in *.
  rewrite <- Hp5 in Hc. rewrite <- He5 in Hst.
  destruct (lone_enemy_rams dt (scrollSpeedOf props dt) s5 B Hst Hty Ha Hin Hc)
    as (Hp & Hs & _).
  set (s6 := entitiesPass dt (scrollSpeedOf props dt) s5) in *.
  pose proof (particlesPass_cosmetic dt (compactEntities s6)) as Hcos.
  rewrite (cosmetic_playerRef _ _ Hcos), (cosmetic_scoreRef _ _ Hcos).
  cbn [compactEntities playerRef scoreRef set_entitiesRef].
  rewrite Hp, Hs, Hp5, Hs5. cbn. auto.
Qed.

(** The unprojection of the centre of the screen at depth 0. *)
Lemma unproject_centre W H :
  Vector3.x (VectorMath.unprojectVector 0 0 0 W H) = 0
  /\ 8 <= Vector3.y (VectorMath.unprojectVector 0 0 0 W H) <= 14.2.
Proof.
  assert (Hs0 : VectorMath.slopeY 0 H = 0).
  { unfold VectorMath.slopeY, VectorMath.FOV. lra. }
  assert (Hd : 1 - VectorMath.slopeY 0 H * tan 0.2 <> 0).
  { rewrite Hs0. lra. }
  rewrite unprojectVector_unfold. cbv zeta.
  rewrite (unproject_depth 0 0 H Hd), Hs0.
  cbn [Vector3.x Vector3.y].
  pose proof cos_pitch_bounds as [Hcl Hcu].
  pose proof sin_pitch_bounds as [Hsl Hsu].
  replace (cos 0.2 - 0 * sin 0.2) with (cos 0.2) by lra.
  replace (0 + 30) with 30 by lra.
  split; [unfold Rdiv; ring |].
  assert (Hi : 1 <= / cos 0.2 < / 0.98).
  { split.
    - rewrite <- Rinv_1 at 1. apply Rinv_le_contravar; lra.
    - apply Rinv_lt_contravar; nra. }
  assert (Hi2 : / 0.98 < 1.03) by lra.
  unfold Rdiv.
  set (ic := / cos 0.2) in *. set (sn := sin 0.2) in *.
  split; nra.
Qed.

(** Where the ship goes when it starts at the origin with the pointer
    centred. *)
Lemma moveShip_centred props s :
  Input.x (inputRef s) = 0 ->
  Input.y (inputRef s) = 0 ->
  Entity.position (playerRef s) = Vector3.mk 0 0 0 ->
  let p := Entity.position (playerRef (moveShip props s)) in
  Vector3.x p = 0 /\ -0.4 <= Vector3.y p <= 1.2 /\ Vector3.z p = 0.
Proof.
  intros Hx Hy Hp p. unfold p, moveShip. cbv zeta.
  cbn [playerRef set_playerRef Entity.position Entity.set_position
       Entity.set_rotation Vector3.x Vector3.y Vector3.z].
  rewrite Hx, Hy, Hp. cbn [Vector3.x Vector3.y Vector3.z].
  destruct (unproject_centre (width props) (height props)) as (Hux & Huy).
  rewrite Hux.
  set (xLimit := Rmax 10 _).
  set (yMax := _ - 3).
  set (my := Vector3.y _) in *.
  assert (HxL : 10 <= xLimit) by apply Rmax_l.
  rewrite (Rmin_right xLimit 0) by lra.
  rewrite (Rmax_right (- xLimit) 0) by lra.
  assert (Hty : -5 <= Rmax (FLOOR_Y + 1) (Rmin yMax my) <= 14.2).
  { split.
    - eapply Rle_trans; [| apply Rmax_l]. unfold FLOOR_Y. lra.
    - apply Rmax_lub; [unfold FLOOR_Y; lra |].
      eapply Rle_trans; [apply Rmin_r | lra]. }
  unfold SHIP_LAG. repeat split; lra.
Qed.

Lemma moveShip_radius_health props s :
  Entity.radius (playerRef (moveShip props s)) = Entity.radius (playerRef s)
  /\ Entity.health (playerRef (moveShip props s))
     = Entity.health (playerRef s).
Proof. split; reflexivity. Qed.

(** The update of the scenario's frame: the interceptor reaches the
    ship, the ship loses 20 points and is left with -10. *)
Lemma ramming_update :
  let s :=
    set_gameTimeRef (1000 + (1016 - 1000))
      (set_lastTimeRef 1016 (set_requestRef false rammingState)) in
  Entity.health (playerRef (update rammingProps (1016 - 1000) s)) = -10
  /\ scoreRef (update rammingProps (1016 - 1000) s) = 0.
Proof.
  intros s.
  assert (Hss : scrollSpeedOf rammingProps (1016 - 1000) = 2.5).
  { unfold scrollSpeedOf, BASE_SCROLL_SPEED. cbn. lra. }
  assert (Hm : enemyMoved (scrollSpeedOf rammingProps (1016 - 1000))
                 rammingEnemy
               = Vector3.mk (0 + sin ((9 - 2.5) * 0.02 + 0.5) * 0.3) 0
                   (9 - 2.5)).
  { rewrite Hss. reflexivity. }
  destruct (update_lone_enemy rammingProps (1016 - 1000) s rammingEnemy)
    as [Hh Hsc].
  - cbn. lra.
  - unfold sinceLastShot. cbn. lra.
  - reflexivity.
  - reflexivity.
  - reflexivity.
  - rewrite Hm. unfold inBounds. cbn. lra.
  - rewrite Hm.
    destruct (moveShip_centred rammingProps s) as (Hx & Hy & Hz);
      try reflexivity.
    cbv zeta in Hx, Hy, Hz.
    apply checkCollision_spec. unfold VectorMath.distSq.
    rewrite Hx, Hz. cbn [Vector3.x Vector3.y Vector3.z].
    destruct (moveShip_radius_health rammingProps s) as [Hr _].
    rewrite Hr. cbn [Entity.radius playerRef s set_gameTimeRef
                       set_lastTimeRef set_requestRef rammingState
                       Entity.set_health initialPlayer rammingEnemy].
    pose proof (SIN_bound ((9 - 2.5) * 0.02 + 0.5)) as Hsin.
    set (w := sin _) in *.
    set (y := Vector3.y _) in *.
    nra.
  - split; [rewrite Hh; cbn; lra | rewrite Hsc; reflexivity].
Qed.

End Ramming.

(** ** The end of the game *)

Section GameOver.
Import GameEngine Vocabulary.

Lemma ramming_simulated :
  simulated rammingProps 1016 (set_requestRef false rammingState)
  = update rammingProps (1016 - 1000)
      (set_gameTimeRef (1000 + (1016 - 1000))
         (set_lastTimeRef 1016 (set_requestRef false rammingState))).
Proof.
  assert (E : Reqb (lastTimeRef (set_requestRef false rammingState)) 0
              = false).
  { apply Reqb_false. cbn. lra. }
  unfold simulated. rewrite E. reflexivity.
Qed.

Lemma ceil_minus_ten : ceil (-10) = -10.
Proof.
  replace (-10) with (IZR (-10)) by (cbn; lra). apply ceil_IZR.
Qed.

(** The frame of the scenario, as the shell sees it: one render, the
    health report -10, the game-over report with score 0, and no
    further frame requested. *)
Lemma ramming_frame :
  let st' := host rammingProps rammingState (Refresh 1016) in
  log st' = [Render; OnHealthUpdate (-10); OnGameOver 0]
  /\ requestRef st' = false
  /\ Entity.health (playerRef st') = -10
  /\ scoreRef st' = 0.
Proof.
  intros st'. unfold st'.
  change (host rammingProps rammingState (Refresh 1016))
    with (animate rammingProps 1016 (set_requestRef false rammingState)).
  set (st0 := set_requestRef false rammingState).
  destruct ramming_update as [Hh Hs]. cbv zeta in Hh, Hs.
  rewrite <- ramming_simulated in Hh, Hs. fold st0 in Hh, Hs.
  destruct (simulated_frame rammingProps 1016 st0)
    as (Hl & Hr & Hls & Hlh & _).
  rewrite animate_log, animate_simulated.
  destruct (report_simulation rammingProps
              (emit Render (simulated rammingProps 1016 st0)))
    as (Hp & _ & _ & Hsc & _).
  rewrite Hp, Hsc, report_requestRef.
  change (playerRef (emit Render (simulated rammingProps 1016 st0)))
    with (playerRef (simulated rammingProps 1016 st0)).
  change (scoreRef (emit Render (simulated rammingProps 1016 st0)))
    with (scoreRef (simulated rammingProps 1016 st0)).
  change (requestRef (emit Render (simulated rammingProps 1016 st0)))
    with (requestRef (simulated rammingProps 1016 st0)).
  unfold reports, scoreReport, healthReport, gameOverReport.
  rewrite Hh, Hs, Hr, Hls, Hlh, ceil_minus_ten.
  change (paused rammingProps) with false.
  change (lastReportedScoreRef st0) with 0.
  change (lastReportedHealthRef st0) with 10.
  change (requestRef st0) with false.
  change (log st0) with (@nil Event).
  assert (E1 : Rneqb 0 0 = false) by (apply Rneqb_false; reflexivity).
  assert (E2 : Rneqb (-10) 10 = true) by (apply Rneqb_true; lra).
  assert (E3 : Rgtb (-10) 0 = false) by (apply Rgtb_false_intro; lra).
  rewrite E1, E2, E3. cbn [app]. auto.
Qed.


(** With no frame pending, the host runs nothing of the loop: input
    events still reach their handlers, and that is all. *)
Lemma host_halted props st e :
  requestRef st = false ->
  let st' := host props st e in
  log st' = log st /\ requestRef st' = false
  /\ playerRef st' = playerRef st /\ entitiesRef st' = entitiesRef st
  /\ particlesRef st' = particlesRef st /\ scoreRef st' = scoreRef st
  /\ gameTimeRef st' = gameTimeRef st.
Proof.
  intros Hr st'. unfold st'.
  destruct e as [code | code | x y | time]; cbn.
  - repeat split; assumption.
  - repeat split; assumption.
  - unfold handleMove. destruct (paused props); cbn; repeat split; assumption.
  - rewrite Hr. repeat split; assumption.
Qed.

Lemma run_halted props es : forall st,
  requestRef st = false ->
  let st' := run props es st in
  log st' = log st /\ requestRef st' = false
  /\ playerRef st' = playerRef st /\ entitiesRef st' = entitiesRef st
  /\ particlesRef st' = particlesRef st /\ scoreRef st' = scoreRef st
  /\ gameTimeRef st' = gameTimeRef st.
Proof.
  induction es as [| e es IH]; intros st Hr; cbn.
  - repeat split; assumption.
  - destruct (host_halted props st e Hr) as (Hl & Hr' & Hp & He & Hpa & Hs & Hg).
    cbv zeta in Hl, Hr', Hp, He, Hpa, Hs, Hg.
    destruct (IH (host props st e) Hr') as (Hl2 & Hr2 & Hp2 & He2 & Hpa2 & Hs2 & Hg2).
    cbv zeta in Hl2, Hr2, Hp2, He2, Hpa2, Hs2, Hg2.
    unfold run in *.
    rewrite Hl2, Hp2, He2, Hpa2, Hs2, Hg2.
    repeat split; assumption.
Qed.

(** C3, as the code has it.  When an unpaused frame ends with the
    player's health at or below zero, that frame is rendered, its last
    event is the one game-over notification of the frame, carrying the
    score of that frame, and no further frame is requested: whatever
    the host delivers afterwards, nothing is simulated, rendered or
    reported any more. *)
Theorem game_over_is_final props time st es :
  paused props = false ->
  requestRef st = true ->
  Entity.health (playerRef (host props st (Refresh time))) <= 0 ->
  let st' := host props st (Refresh time) in
  (exists evs,
      log st' = log st ++ Render :: evs ++ [OnGameOver (scoreRef st')]
      /\ filter isGameOver evs = []
      /\ filter isRender evs = [])
  /\ requestRef st' = false
  /\ log (run props es st') = log st'
  /\ playerRef (run props es st') = playerRef st'
  /\ entitiesRef (run props es st') = entitiesRef st'
  /\ particlesRef (run props es st') = particlesRef st'
  /\ scoreRef (run props es st') = scoreRef st'
  /\ gameTimeRef (run props es st') = gameTimeRef st'.
Proof.
  intros Hpa Hrq Hh st'.
  assert (Hst' : st' = animate props time (set_requestRef false st)).
  { unfold st'. cbn. rewrite Hrq. reflexivity. }
  set (st0 := set_requestRef false st) in *.
  set (s := simulated props time st0).
  destruct (simulated_frame props time st0) as (Hl & Hr & _ & _ & _).
  fold s in Hl, Hr.
  destruct (report_simulation props (emit Render s)) as (Hp & _ & _ & Hsc & _).
  assert (Hhs : Entity.health (playerRef s) <= 0).
  { fold st' in Hh. rewrite Hst', animate_simulated in Hh. fold s in Hh.
    rewrite Hp in Hh. exact Hh. }
  assert (Hgo : Rgtb (Entity.health (playerRef s)) 0 = false)
    by (apply Rgtb_false_intro; exact Hhs).
  assert (Hreq : requestRef st' = false).
  { rewrite Hst', animate_simulated. fold s.
    rewrite report_requestRef, Hpa.
    change (playerRef (emit Render s)) with (playerRef s).
    rewrite Hgo. change (requestRef (emit Render s)) with (requestRef s).
    rewrite Hr. reflexivity. }
  split.
  { exists (scoreReport s ++ healthReport s).
    rewrite Hst', animate_log. fold s.
    rewrite animate_simulated. fold s. rewrite Hsc.
    change (scoreRef (emit Render s)) with (scoreRef s).
    change (log st0) with (log st).
    unfold reports, gameOverReport. rewrite Hpa, Hgo.
    rewrite <- !app_assoc.
    split; [reflexivity |].
    unfold scoreReport, healthReport.
    destruct (Rneqb (scoreRef s) (lastReportedScoreRef s));
      destruct (Rneqb (ceil (Entity.health (playerRef s)))
                  (lastReportedHealthRef s));
      split; reflexivity. }
  split; [exact Hreq |].
  destruct (run_halted props es st' Hreq) as (H1 & _ & H3 & H4 & H5 & H6 & H7).
  repeat split; assumption.
Qed.

Lemma game_over_is_final_witness :
  let st' := host rammingProps rammingState (Refresh 1016) in
  let es := [Refresh 1032; KeyDown "Space"; Refresh 1048] in
  (exists evs,
      log st' = log rammingState
                ++ Render :: evs ++ [OnGameOver (scoreRef st')]
      /\ filter isGameOver evs = []
      /\ filter isRender evs = [])
  /\ requestRef st' = false
  /\ log (run rammingProps es st') = log st'
  /\ playerRef (run rammingProps es st') = playerRef st'
  /\ entitiesRef (run rammingProps es st') = entitiesRef st'
  /\ particlesRef (run rammingProps es st') = particlesRef st'
  /\ scoreRef (run rammingProps es st') = scoreRef st'
  /\ gameTimeRef (run rammingProps es st') = gameTimeRef st'.
Proof.
  intros st' es.
  apply (game_over_is_final rammingProps 1016 rammingState es).
  - reflexivity.
  - reflexivity.
  - destruct ramming_frame as (_ & _ & Hh & _). cbv zeta in Hh.
    rewrite Hh. lra.
Defined.

(** C3, counterexample to the claim as stated: the frame of the
    scenario ends the game, and the display refresh that follows it
    renders nothing; the log stays as the game-over frame left it. *)
Lemma no_render_after_game_over :
  let st1 := host rammingProps rammingState (Refresh 1016) in
  Entity.health (playerRef st1) <= 0
  /\ log st1 = [Render; OnHealthUpdate (-10); OnGameOver 0]
  /\ log (host rammingProps st1 (Refresh 1032)) = log st1.
Proof.
  intros st1.
  destruct ramming_frame as (Hl & Hr & Hh & _).
  cbv zeta in Hl, Hr, Hh. fold st1 in Hl, Hr, Hh.
  split; [rewrite Hh; lra |].
  split; [exact Hl |].
  destruct (host_halted rammingProps st1 (Refresh 1032) Hr) as (H & _).
  exact H.
Qed.

End GameOver.

(** ** One projectile, one enemy, the player: both orders of the store *)

Section Order.
Import GameEngine Vocabulary.

(** The callback of an enemy that is hit by the one active player
    projectile of the store and that reaches the player. *)
Lemma enemy_turn_hit dt ss st iB B jA Acur :
  holds iB B st ->
  Entity.isEnemy (Entity.type B) = true ->
  Entity.active B = true ->
  inBounds (enemyMoved ss B) ->
  let B1 := Entity.set_position (enemyMoved ss B) B in
  let st2 := storeEntity iB B1 (snd (moveEntity dt ss B st)) in
  activePlayerProjectiles st2 = [jA] ->
  nth_error (entitiesRef st2) jA = Some Acur ->
  VectorMath.checkCollision (enemyMoved ss B) (Entity.radius B)
    (Entity.position Acur) (Entity.radius Acur) = true ->
  VectorMath.checkCollision (Entity.position (playerRef st))
    (Entity.radius (playerRef st)) (enemyMoved ss B) (Entity.radius B)
  = true ->
  playerRef (entityCallback dt ss st iB)
  = Entity.set_health (Entity.health (playerRef st) - 20) (playerRef st)
  /\ scoreRef (entityCallback dt ss st iB) = scoreRef st + killBonus B
  /\ entitiesRef (entityCallback dt ss st iB)
     = replaceAt iB (rammedEnemy ss B)
         (replaceAt jA (Entity.set_active false Acur) (entitiesRef st2)).
Proof.
  intros HB Hty Ha Hin B1 st2 Hact Hj HcA HcP.
  rewrite (entityCallback_enemy dt ss st iB B HB Hty Ha Hin). cbv zeta.
  fold B1. fold st2.
  assert (Hp2 : playerRef st2 = playerRef st).
  { unfold st2. cbn [storeEntity playerRef set_entitiesRef].
    apply afterEnemyMove_playerRef. }
  assert (Hs2 : scoreRef st2 = scoreRef st).
  { unfold st2. cbn [storeEntity scoreRef set_entitiesRef].
    apply afterEnemyMove_scoreRef. }
  clearbody st2.
  rewrite Hact. cbn [fold_left].
  rewrite (projectileHit_hit B1 st2 jA Acur Hj)
    by (unfold B1; cbn [Entity.position Entity.radius Entity.set_position];
        exact HcA).
  cbv zeta. forget_explosions.
  unfold killBonus, rammedEnemy. fold B1.
  change (Entity.health (Entity.set_health (Entity.health B1 - 50) B1))
    with (Entity.health B - 50).
  destruct (Rleb (Entity.health B - 50) 0); cbn [fst snd].
  - rewrite enemyHitsPlayer_hit.
    + cbv zeta. cbn [fst snd]. forget_explosions.
      cbn [storeEntity playerRef scoreRef entitiesRef set_entitiesRef
           set_playerRef set_particlesRef set_randomSource set_scoreRef].
      rewrite Hp2, Hs2. repeat split; reflexivity.
    + cbn [storeEntity playerRef scoreRef entitiesRef set_entitiesRef
           set_playerRef set_particlesRef set_randomSource set_scoreRef].
      rewrite Hp2. unfold B1.
      cbn [Entity.position Entity.radius Entity.set_position
           Entity.set_health Entity.set_active].
      exact HcP.
  - rewrite enemyHitsPlayer_hit.
    + cbv zeta. cbn [fst snd]. forget_explosions.
      cbn [storeEntity playerRef scoreRef entitiesRef set_entitiesRef
           set_playerRef set_particlesRef set_randomSource set_scoreRef].
      rewrite Hp2, Hs2. repeat split; try reflexivity. lra.
    + cbn [storeEntity playerRef scoreRef entitiesRef set_entitiesRef
           set_playerRef set_particlesRef set_randomSource set_scoreRef].
      rewrite Hp2. unfold B1.
      cbn [Entity.position Entity.radius Entity.set_position
           Entity.set_health Entity.set_active].
      exact HcP.
Qed.



(** The store the enemy's callback works on, after its move, when the
    store started as a pair. *)
Lemma afterEnemyMove_pair dt ss s X Y B :
  entitiesRef s = [X; Y] ->
  Entity.isEnemy (Entity.type B) = true ->
  entitiesRef (snd (moveEntity dt ss B s)) = X :: Y :: enemyShot ss B s.
Proof.
  intros Hs Hty. rewrite (afterEnemyMove_entitiesRef dt ss B s Hty), Hs.
  reflexivity.
Qed.

(** The enemy first, the projectile after it. *)
Lemma pass_enemy_first dt ss s A B :
  entitiesRef s = [B; A] ->
  Entity.type A = Entity.PROJECTILE_Player ->
  Entity.active A = true ->
  Entity.isEnemy (Entity.type B) = true ->
  Entity.active B = true ->
  inBounds (enemyMoved ss B) ->
  VectorMath.checkCollision (enemyMoved ss B) (Entity.radius B)
    (Entity.position A) (Entity.radius A) = true ->
  VectorMath.checkCollision (Entity.position (playerRef s))
    (Entity.radius (playerRef s)) (enemyMoved ss B) (Entity.radius B)
  = true ->
  playerRef (entitiesPass dt ss s)
  = Entity.set_health (Entity.health (playerRef s) - 20) (playerRef s)
  /\ scoreRef (entitiesPass dt ss s) = scoreRef s + killBonus B
  /\ entitiesRef (entitiesPass dt ss s)
     = rammedEnemy ss B :: Entity.set_active false A :: enemyShot ss B s.
Proof.
  intros Hs HtA HaA HtB HaB Hin HcA HcP.
  assert (H0 : holds 0 B s) by (unfold holds; rewrite Hs; reflexivity).
  destruct (isEnemy_not_projectile _ HtB) as [HppB _].
  pose proof (afterEnemyMove_pair dt ss s B A B Hs HtB) as He1.
  assert (He2 : entitiesRef
                  (storeEntity 0
                     (Entity.set_position (enemyMoved ss B) B)
                     (snd (moveEntity dt ss B s)))
                = Entity.set_position (enemyMoved ss B) B :: A
                  :: enemyShot ss B s).
  { cbn [storeEntity entitiesRef set_entitiesRef]. rewrite He1. reflexivity. }
  destruct (enemy_turn_hit dt ss s 0 B 1 A H0 HtB HaB Hin)
    as (Hp & Hsc & He); try assumption.
  - rewrite activePlayerProjectiles_eq, He2. cbn [activeFrom].
    cbn [Entity.type Entity.set_position]. rewrite HppB, HtA, HaA.
    cbn [Entity.isPlayerProjectile andb].
    rewrite activeFrom_enemyShot. reflexivity.
  - rewrite He2. reflexivity.
  - rewrite He2 in He. cbn [replaceAt] in He.
    unfold entitiesPass. rewrite Hs. cbn [List.length seq fold_left].
    rewrite (entityCallback_inactive dt ss _ 1 (Entity.set_active false A)).
    + auto.
    + unfold holds. rewrite He. reflexivity.
    + reflexivity.
Qed.






(** The numbers of the second scenario. *)
Lemma duel_enemyMoved z :
  exists w, -1 <= w <= 1
    /\ enemyMoved 2.5 (duelEnemy z) = Vector3.mk (0 + w * 0.3) 0 (z - 2.5).
Proof.
  exists (sin ((z - 2.5) * 0.02 + 0.5)). split; [apply SIN_bound |].
  reflexivity.
Qed.




End Order.

(** ** A frame that scores *)

Section Scoring.
Import GameEngine Vocabulary.

(** The frame of the third scenario: the interceptor is visited first,
    meets the shot, dies of it, and its 100 points are added. *)
Lemma kill_frame_score :
  scoreRef (simulate [(rammingProps, 16)] killState) = 100.
Proof.
  change (simulate [(rammingProps, 16)] killState)
    with (update rammingProps 16 killState).
  set (s := killState).
  set (B := duelEnemy 6.9). set (A := duelShot).
  assert (Hss : scrollSpeedOf rammingProps 16 = 2.5).
  { unfold scrollSpeedOf, BASE_SCROLL_SPEED. cbn. lra. }
  destruct (duel_enemyMoved 6.9) as (w & Hw & Hm). fold B in Hm.
  destruct (quiet_prelude rammingProps s) as (He5 & Hp5 & Hs5).
  { cbn. lra. }
  { unfold sinceLastShot. cbn. lra. }
  cbv zeta in He5, Hp5, Hs5.
  unfold update.
  set (s5 := firing rammingProps
               (spawning rammingProps
                  (thrusters (moveShip rammingProps (updateReticle s)))))
    in *.
  rewrite Hss.
  destruct (moveShip_centred rammingProps s) as (Hx & Hy & Hz);
    try reflexivity.
  cbv zeta in Hx, Hy, Hz.
  destruct (moveShip_radius_health rammingProps s) as [Hr _].
  destruct (pass_enemy_first 16 2.5 s5 A B) as (_ & Hsc & _).
  - rewrite He5. reflexivity.
  - reflexivity.
  - reflexivity.
  - reflexivity.
  - reflexivity.
  - rewrite Hm. unfold inBounds. cbn. lra.
  - rewrite Hm. apply checkCollision_spec.
    unfold VectorMath.distSq. cbn. nra.
  - rewrite Hp5, Hm. apply checkCollision_spec.
    unfold VectorMath.distSq. rewrite Hx, Hz, Hr.
    cbn [Vector3.x Vector3.y Vector3.z Entity.radius B duelEnemy].
    change (Entity.radius (playerRef s)) with 3.
    set (y := Vector3.y _) in *.
    nra.
  - set (s6 := entitiesPass 16 2.5 s5) in *.
    pose proof (particlesPass_cosmetic 16 (compactEntities s6)) as Hcos.
    rewrite (cosmetic_scoreRef _ _ Hcos).
    cbn [compactEntities scoreRef set_entitiesRef].
    rewrite Hsc, Hs5. unfold killBonus.
    rewrite Rleb_true_intro by (cbn; lra). cbn. lra.
Qed.

Lemma score_monotone_witness :
  let st := killState in
  let steps := [(rammingProps, 16)] in
  let more := [(rammingProps, 16)] in
  scoresNonneg st
  /\ scoreRef (simulate steps st) = 100
  /\ scoreRef st <= scoreRef (simulate steps st)
  /\ scoreRef (simulate steps st) <= scoreRef (simulate (steps ++ more) st)
  /\ scoresNonneg (simulate (steps ++ more) st)
  /\ (exists vs,
        scoreRef (simulate steps st) = scoreRef st + sumR vs
        /\ Forall (enemyValue st) vs
        /\ Forall (fun v => 0 <= v) vs)
  /\ (forall c s, exists e,
        entitiesRef (spawnEnemy c s) = entitiesRef s ++ [e]
        /\ Entity.scoreValue e = 100)
  /\ (forall a b p s, exists e,
        entitiesRef (spawnProjectile a b p s) = entitiesRef s ++ [e]
        /\ Entity.scoreValue e = 0)
  /\ (forall rnd clk,
        Entity.scoreValue (playerRef (initialState rnd clk)) = 0).
Proof.
  intros st steps more.
  assert (Hst : scoresNonneg st).
  { repeat constructor; unfold nonnegScore; cbn; lra. }
  split; [exact Hst |].
  split; [exact kill_frame_score |].
  apply (score_monotone steps more st Hst).
Defined.

End Scoring.

(** * Further properties *)

(** ** The projection module, continued *)

Section ProjectionMore.
Import VectorMath.

(** X1.  The collision test is symmetric in its two spheres. *)
Theorem checkCollision_symmetric (a : Vector3.t) (rA : R) (b : Vector3.t)
  (rB : R) :
  checkCollision a rA b rB = checkCollision b rB a rA.
Proof.
  unfold checkCollision. cbv zeta. f_equal; ring.
Qed.

(** X2.  Two spheres on the same centre collide unless their radii add up
    to zero; in particular two points (radius 0) never collide, not even
    with themselves. *)
Theorem checkCollision_same_centre (a : Vector3.t) (rA rB : R) :
  (checkCollision a rA a rB = true <-> rA + rB <> 0)
  /\ checkCollision a 0 a 0 = false.
Proof.
  split.
  - rewrite checkCollision_spec. unfold distSq.
    replace ((Vector3.x a - Vector3.x a) * (Vector3.x a - Vector3.x a)
             + (Vector3.y a - Vector3.y a) * (Vector3.y a - Vector3.y a)
             + (Vector3.z a - Vector3.z a) * (Vector3.z a - Vector3.z a))
      with 0 by ring.
    split; intros H.
    + intros E. rewrite E in H. lra.
    + assert (0 < (rA + rB) * (rA + rB) \/ rA + rB = 0) as [Hp | Hz]
        by nra; [exact Hp | contradiction].
  - apply checkCollision_false. unfold distSq. nra.
Qed.

(** What a successful projection tells about its point. *)
Lemma projectVector_Some (p : Vector3.t) (W H c : R) (s : Vector2.t) :
  projectVector p W H c = Some s ->
  1 < pitchedDepth p <= 5000
  /\ s = Vector2.mk
           ((Vector3.x p - 0) * (500 / pitchedDepth p) + W / 2)
           (- pitchedY p * (500 / pitchedDepth p) + H / 2).
Proof.
  intros Hs.
  destruct (Rle_dec (pitchedDepth p) 1) as [Hn | Hn].
  { rewrite projectVector_clipped in Hs by (left; exact Hn). discriminate. }
  destruct (Rlt_dec 5000 (pitchedDepth p)) as [Hf | Hf].
  { rewrite projectVector_clipped in Hs by (right; lra). discriminate. }
  assert (Hv : 1 < pitchedDepth p <= 5000) by lra.
  rewrite (projectVector_visible p W H c Hv) in Hs.
  split; [exact Hv | congruence].
Qed.

(** X3.  The other round trip, over real arithmetic (the numbers of
    the code read as real numbers; in floating point the point comes
    back up to rounding only): a visible point is recovered from its
    screen point.  Normalizing the screen point as the pointer handler
    does and unprojecting it at the point's own depth gives the point
    back, on a surface of non-zero size and for a point that is not in
    the camera's own plane z = -30. *)
Theorem unproject_project (p : Vector3.t) (W H c : R) (s : Vector2.t) :
  W <> 0 -> H <> 0 -> Vector3.z p + 30 <> 0 ->
  projectVector p W H c = Some s ->
  unprojectVector ((Vector2.x s - W / 2) / (W / 2))
    ((Vector2.y s - H / 2) / (H / 2)) (Vector3.z p) W H = p.
Proof.
  intros HW HH HZ Hs.
  destruct (projectVector_Some p W H c s Hs) as [[Hlo Hhi] ->].
  cbn [Vector2.x Vector2.y].
  pose proof cos_pitch_pos as Hc.
  pose proof pythagoras_pitch as Hpy.
  unfold pitchedDepth, pitchedY in *.
  set (rY := Vector3.y p - 8) in *.
  set (rZ := Vector3.z p + 30) in *.
  set (cs := cos 0.2) in *. set (sn := sin 0.2) in *.
  set (pz := rY * sn + rZ * cs) in *.
  set (py := rY * cs - rZ * sn) in *.
  assert (Hpz : pz <> 0) by lra.
  assert (HrZ : pz * cs - py * sn = rZ).
  { unfold pz, py.
    replace ((rY * sn + rZ * cs) * cs - (rY * cs - rZ * sn) * sn)
      with (rZ * (sn * sn + cs * cs)) by ring.
    rewrite Hpy. ring. }
  assert (HrY : py * cs + pz * sn = rY).
  { unfold pz, py.
    replace ((rY * cs - rZ * sn) * cs + (rY * sn + rZ * cs) * sn)
      with (rY * (sn * sn + cs * cs)) by ring.
    rewrite Hpy. ring. }
  assert (Hslope : slopeY ((- py * (500 / pz) + H / 2 - H / 2) / (H / 2)) H
                   = py / pz).
  { unfold slopeY, FOV. field. split; assumption. }
  assert (Hcs : cs - py / pz * sn = rZ / pz).
  { rewrite <- HrZ. field. exact Hpz. }
  assert (Hd : 1 - slopeY ((- py * (500 / pz) + H / 2 - H / 2) / (H / 2)) H
                   * tan 0.2 <> 0).
  { rewrite Hslope, tan_pitch. fold cs sn.
    replace (1 - py / pz * (sn / cs)) with ((cs - py / pz * sn) / cs)
      by (field; split; lra).
    rewrite Hcs. intros E.
    assert (E' : rZ / pz / cs * (pz * cs) = 0) by (rewrite E; ring).
    replace (rZ / pz / cs * (pz * cs)) with rZ in E'
      by (field; split; lra).
    contradiction. }
  rewrite unprojectVector_unfold. cbv zeta.
  rewrite (unproject_depth _ (Vector3.z p) H Hd).
  fold rZ cs sn. rewrite Hslope, Hcs.
  replace (rZ / (rZ / pz)) with pz by (field; split; assumption).
  destruct p as [px pyy pzz]. cbn [Vector3.x Vector3.y Vector3.z] in *.
  f_equal.
  - field. split; assumption.
  - replace (py / pz * pz * cs + pz * sn + 8) with (py * cs + pz * sn + 8)
      by (field; exact Hpz).
    rewrite HrY. unfold rY. ring.
Qed.

Lemma unproject_project_witness :
  unprojectVector
    ((Vector2.x (Vector2.mk ((10 - 0) * (500 / pitchedDepth (Vector3.mk 10 8 70)) + 800 / 2)
                   (- pitchedY (Vector3.mk 10 8 70)
                    * (500 / pitchedDepth (Vector3.mk 10 8 70)) + 600 / 2))
      - 800 / 2) / (800 / 2))
    ((Vector2.y (Vector2.mk ((10 - 0) * (500 / pitchedDepth (Vector3.mk 10 8 70)) + 800 / 2)
                   (- pitchedY (Vector3.mk 10 8 70)
                    * (500 / pitchedDepth (Vector3.mk 10 8 70)) + 600 / 2))
      - 600 / 2) / (600 / 2))
    (Vector3.z (Vector3.mk 10 8 70)) 800 600
  = Vector3.mk 10 8 70.
Proof.
  apply (unproject_project (Vector3.mk 10 8 70) 800 600 0).
  - lra.
  - lra.
  - cbn. lra.
  - apply projectVector_visible.
    unfold pitchedDepth. cbn [Vector3.y Vector3.z].
    pose proof cos_pitch_bounds. pose proof sin_pitch_bounds. lra.
Defined.

Lemma getScaleFactor_unfold (z c : R) :
  getScaleFactor z c
  = if Rleb (pitchedDepth (Vector3.mk 0 0 z)) 1 then 0
    else 500 / pitchedDepth (Vector3.mk 0 0 z).
Proof.
  unfold getScaleFactor, pitchedDepth, CAMERA_POS, CAMERA_PITCH, NEAR_CLIP,
    FOV.
  cbn [Vector3.x Vector3.y Vector3.z].
  replace (z - -30) with (z + 30) by lra. reflexivity.
Qed.

(** X4.  The scale factor is never negative; it is 0 exactly at or behind
    the near clip; for a visible point at height 0 it is the scale the
    projector itself applies to x; and, having no far clip, it stays
    positive beyond the view distance, where the projector gives up. *)
Theorem getScaleFactor_properties (z c : R) :
  0 <= getScaleFactor z c
  /\ (getScaleFactor z c = 0 <-> pitchedDepth (Vector3.mk 0 0 z) <= 1)
  /\ (forall x W H c' s,
        projectVector (Vector3.mk x 0 z) W H c' = Some s ->
        Vector2.x s = x * getScaleFactor z c + W / 2)
  /\ (forall x W H c',
        pitchedDepth (Vector3.mk 0 0 z) > 5000 ->
        projectVector (Vector3.mk x 0 z) W H c' = None
        /\ 0 < getScaleFactor z c).
Proof.
  rewrite getScaleFactor_unfold.
  set (d := pitchedDepth (Vector3.mk 0 0 z)).
  assert (Hd : forall x, pitchedDepth (Vector3.mk x 0 z) = d) by reflexivity.
  destruct (Rle_dec d 1) as [Hn | Hn].
  - rewrite (Rleb_true_intro _ _ Hn).
    split; [lra |]. split; [tauto |]. split.
    + intros x W H c' s Hs.
      destruct (projectVector_Some _ _ _ _ _ Hs) as [[Hlo _] _].
      rewrite Hd in Hlo. lra.
    + intros x W H c' Hfar. lra.
  - assert (Hpos : 1 < d) by lra.
    rewrite (Rleb_false_intro _ _ Hpos).
    assert (Hq : 0 < 500 / d) by (apply Rdiv_lt_0_compat; lra).
    split; [lra |]. split; [split; intros; lra |]. split.
    + intros x W H c' s Hs.
      destruct (projectVector_Some _ _ _ _ _ Hs) as [_ ->].
      rewrite Hd. cbn [Vector2.x Vector3.x]. ring.
    + intros x W H c' Hfar. split; [| exact Hq].
      apply projectVector_clipped. right. rewrite Hd. exact Hfar.
Qed.

(** X5.  Perspective: of two visible points with the same x and y, the
    one farther along z lands at least as close to the vertical centre
    line of the surface. *)
Theorem projection_shrinks_with_depth (p q : Vector3.t) (W H c : R)
  (sp sq : Vector2.t) :
  Vector3.x p = Vector3.x q ->
  Vector3.y p = Vector3.y q ->
  Vector3.z p <= Vector3.z q ->
  projectVector p W H c = Some sp ->
  projectVector q W H c = Some sq ->
  Rabs (Vector2.x sq - W / 2) <= Rabs (Vector2.x sp - W / 2).
Proof.
  intros Hx Hy Hz Hp Hq.
  destruct (projectVector_Some _ _ _ _ _ Hp) as [[Hp1 _] ->].
  destruct (projectVector_Some _ _ _ _ _ Hq) as [[Hq1 _] ->].
  cbn [Vector2.x]. rewrite <- Hx.
  assert (Hdep : pitchedDepth p <= pitchedDepth q).
  { unfold pitchedDepth. rewrite Hy. pose proof cos_pitch_pos. nra. }
  replace ((Vector3.x p - 0) * (500 / pitchedDepth q) + W / 2 - W / 2)
    with (Vector3.x p * (500 / pitchedDepth q)) by ring.
  replace ((Vector3.x p - 0) * (500 / pitchedDepth p) + W / 2 - W / 2)
    with (Vector3.x p * (500 / pitchedDepth p)) by ring.
  rewrite !Rabs_mult.
  assert (Hsp : 0 < 500 / pitchedDepth p) by (apply Rdiv_lt_0_compat; lra).
  assert (Hsq : 0 < 500 / pitchedDepth q) by (apply Rdiv_lt_0_compat; lra).
  rewrite (Rabs_right (500 / pitchedDepth p)) by lra.
  rewrite (Rabs_right (500 / pitchedDepth q)) by lra.
  apply Rmult_le_compat_l; [apply Rabs_pos |].
  unfold Rdiv. apply Rmult_le_compat_l; [lra |].
  apply Rinv_le_contravar; lra.
Qed.

Lemma projection_shrinks_with_depth_witness :
  Rabs (Vector2.x
          (Vector2.mk ((10 - 0) * (500 / pitchedDepth (Vector3.mk 10 8 170)) + 800 / 2)
             (- pitchedY (Vector3.mk 10 8 170)
              * (500 / pitchedDepth (Vector3.mk 10 8 170)) + 600 / 2))
        - 800 / 2)
  <= Rabs (Vector2.x
             (Vector2.mk ((10 - 0) * (500 / pitchedDepth (Vector3.mk 10 8 70)) + 800 / 2)
                (- pitchedY (Vector3.mk 10 8 70)
                 * (500 / pitchedDepth (Vector3.mk 10 8 70)) + 600 / 2))
           - 800 / 2).
Proof.
  apply (projection_shrinks_with_depth (Vector3.mk 10 8 70)
           (Vector3.mk 10 8 170) 800 600 0).
  - reflexivity.
  - reflexivity.
  - cbn. lra.
  - apply projectVector_visible.
    unfold pitchedDepth. cbn [Vector3.y Vector3.z].
    pose proof cos_pitch_bounds. pose proof sin_pitch_bounds. lra.
  - apply projectVector_visible.
    unfold pitchedDepth. cbn [Vector3.y Vector3.z].
    pose proof cos_pitch_bounds. pose proof sin_pitch_bounds. lra.
Defined.

End ProjectionMore.

(** ** Frames: pause, elapsed time, reports, the end *)

Section FramesMore.
Import GameEngine Vocabulary.

Lemma report_other_cells props st :
  lastTimeRef (report props st) = lastTimeRef st
  /\ reticleRef (report props st) = reticleRef st
  /\ inputRef (report props st) = inputRef st
  /\ lastFireTimeRef (report props st) = lastFireTimeRef st.
Proof.
  unfold report.
  destruct (paused props); cbn [negb]; [repeat split |].
  destruct (Rneqb (scoreRef st) (lastReportedScoreRef st));
    cbn -[ceil];
    destruct (Rneqb (ceil (Entity.health (playerRef st)))
                (lastReportedHealthRef st));
    cbn -[ceil];
    destruct (Rgtb (Entity.health (playerRef st)) 0);
    repeat split.
Qed.

(** One frame while paused. *)
Lemma paused_frame props time st :
  paused props = true ->
  let st' := animate props time st in
  log st' = log st ++ [Render]
  /\ requestRef st' = true
  /\ lastTimeRef st' = time
  /\ playerRef st' = playerRef st
  /\ entitiesRef st' = entitiesRef st
  /\ particlesRef st' = particlesRef st
  /\ scoreRef st' = scoreRef st
  /\ gameTimeRef st' = gameTimeRef st
  /\ reticleRef st' = reticleRef st
  /\ inputRef st' = inputRef st
  /\ lastFireTimeRef st' = lastFireTimeRef st.
Proof.
  intros Hp st'. unfold st', animate, report. rewrite Hp. cbn [negb].
  destruct (Reqb (lastTimeRef st) 0); cbn; repeat split.
Qed.

(** X6.  Pause freezes the game and keeps the picture alive.  With
    [paused] set, whatever the host delivers, every display refresh adds
    one render to the log and nothing else, a frame stays requested, and
    the simulation (ship, entities, particles, score, game time, raw
    input, reticle, time of the last shot) is exactly as it was; pointer
    moves are ignored. *)
Theorem pause_freezes_the_game props es : forall st,
  paused props = true ->
  requestRef st = true ->
  let st' := run props es st in
  log st' = log st ++ repeat Render (refreshes es)
  /\ requestRef st' = true
  /\ playerRef st' = playerRef st
  /\ entitiesRef st' = entitiesRef st
  /\ particlesRef st' = particlesRef st
  /\ scoreRef st' = scoreRef st
  /\ gameTimeRef st' = gameTimeRef st
  /\ reticleRef st' = reticleRef st
  /\ inputRef st' = inputRef st
  /\ lastFireTimeRef st' = lastFireTimeRef st.
Proof.
  induction es as [| e es IH]; intros st Hp Hr; cbn zeta.
  - cbn. rewrite app_nil_r. repeat split; assumption.
  - change (run props (e :: es) st) with (run props es (host props st e)).
    assert (Hstep :
      let s1 := host props st e in
      log s1 = log st ++ (if isRefresh e then [Render] else [])
      /\ requestRef s1 = true
      /\ playerRef s1 = playerRef st
      /\ entitiesRef s1 = entitiesRef st
      /\ particlesRef s1 = particlesRef st
      /\ scoreRef s1 = scoreRef st
      /\ gameTimeRef s1 = gameTimeRef st
      /\ reticleRef s1 = reticleRef st
      /\ inputRef s1 = inputRef st
      /\ lastFireTimeRef s1 = lastFireTimeRef st).
    { destruct e as [code | code | x y | time]; cbn zeta;
        cbn [host isRefresh].
      - cbn. rewrite app_nil_r. repeat split; assumption.
      - cbn. rewrite app_nil_r. repeat split; assumption.
      - unfold handleMove. rewrite Hp. rewrite app_nil_r.
        repeat split; assumption.
      - rewrite Hr.
        destruct (paused_frame props time (set_requestRef false st) Hp)
          as (H1 & H2 & _ & H4 & H5 & H6 & H7 & H8 & H9 & H10 & H11).
        cbv zeta in H1, H2, H4, H5, H6, H7, H8, H9, H10, H11.
        rewrite H1, H2, H4, H5, H6, H7, H8, H9, H10, H11.
        repeat split. }
    cbv zeta in Hstep.
    destruct Hstep as (H1 & H2 & H3 & H4 & H5 & H6 & H7 & H8 & H9 & H10).
    destruct (IH (host props st e) Hp H2)
      as (I1 & I2 & I3 & I4 & I5 & I6 & I7 & I8 & I9 & I10).
    cbv zeta in I1, I2, I3, I4, I5, I6, I7, I8, I9, I10.
    rewrite I1, I2, I3, I4, I5, I6, I7, I8, I9, I10.
    rewrite H1, H3, H4, H5, H6, H7, H8, H9, H10.
    split; [| repeat split].
    rewrite <- app_assoc. f_equal.
    unfold refreshes. cbn [filter].
    destruct (isRefresh e); reflexivity.
Qed.

Lemma pause_freezes_the_game_witness :
  let props := mkProps (MissionData.mk "" "" "#ff00ff" 0.5 1) 800 600 true in
  let es := [Refresh 1016; PointerMove 10 20; KeyDown "Space"; Refresh 1032] in
  let st := rammingState in
  let st' := run props es st in
  log st' = log st ++ repeat Render (refreshes es)
  /\ requestRef st' = true
  /\ playerRef st' = playerRef st
  /\ entitiesRef st' = entitiesRef st
  /\ particlesRef st' = particlesRef st
  /\ scoreRef st' = scoreRef st
  /\ gameTimeRef st' = gameTimeRef st
  /\ reticleRef st' = reticleRef st
  /\ inputRef st' = inputRef st
  /\ lastFireTimeRef st' = lastFireTimeRef st.
Proof.
  intros props es st.
  apply (pause_freezes_the_game props es st); reflexivity.
Defined.

Lemma simulated_clocks props time st :
  paused props = false ->
  lastTimeRef (simulated props time st) = time
  /\ gameTimeRef (simulated props time st)
     = gameTimeRef st
       + (time - (if Reqb (lastTimeRef st) 0 then time else lastTimeRef st)).
Proof.
  intros Hp. unfold simulated. cbv zeta. rewrite Hp. cbn [negb].
  match goal with
  | |- context [update props ?d ?s] =>
      destruct (update_steady props d s) as [_ _ _ _ Hlt Hgt _ _ _]
  end.
  rewrite Hlt, Hgt.
  destruct (Reqb (lastTimeRef st) 0); cbn; split; reflexivity.
Qed.

(** X7.  Game time.  An unpaused frame sets the time of the last frame
    to its own timestamp and adds to the game time exactly the time
    since the previous frame; on the very first frame (no previous
    timestamp, [lastTimeRef] still 0) it adds nothing. *)
Theorem frame_advances_game_time props time st :
  paused props = false ->
  lastTimeRef (animate props time st) = time
  /\ (lastTimeRef st <> 0 ->
      gameTimeRef (animate props time st)
      = gameTimeRef st + (time - lastTimeRef st))
  /\ (lastTimeRef st = 0 ->
      gameTimeRef (animate props time st) = gameTimeRef st).
Proof.
  intros Hp.
  destruct (simulated_clocks props time st Hp) as [Hl Hg].
  rewrite animate_simulated.
  destruct (report_other_cells props (emit Render (simulated props time st)))
    as (Hlt & _).
  destruct (report_simulation props (emit Render (simulated props time st)))
    as (_ & _ & _ & _ & Hgt).
  rewrite Hlt, Hgt.
  change (lastTimeRef (emit Render (simulated props time st)))
    with (lastTimeRef (simulated props time st)).
  change (gameTimeRef (emit Render (simulated props time st)))
    with (gameTimeRef (simulated props time st)).
  rewrite Hl, Hg.
  split; [reflexivity |]. split; intros H0.
  - apply Reqb_false in H0. rewrite H0. reflexivity.
  - apply Reqb_true in H0. rewrite H0. lra.
Qed.

Lemma frame_advances_game_time_witness :
  lastTimeRef (animate rammingProps 1016 rammingState) = 1016
  /\ (lastTimeRef rammingState <> 0 ->
      gameTimeRef (animate rammingProps 1016 rammingState)
      = gameTimeRef rammingState + (1016 - lastTimeRef rammingState))
  /\ (lastTimeRef rammingState = 0 ->
      gameTimeRef (animate rammingProps 1016 rammingState)
      = gameTimeRef rammingState).
Proof.
  apply (frame_advances_game_time rammingProps 1016 rammingState).
  reflexivity.
Defined.

Lemma report_lastReportedScoreRef props st :
  lastReportedScoreRef (report props st)
  = if paused props then lastReportedScoreRef st
    else if Rneqb (scoreRef st) (lastReportedScoreRef st)
         then scoreRef st else lastReportedScoreRef st.
Proof.
  unfold report.
  destruct (paused props); cbn [negb]; [reflexivity |].
  destruct (Rneqb (scoreRef st) (lastReportedScoreRef st));
    cbn -[ceil];
    destruct (Rneqb (ceil (Entity.health (playerRef st)))
                (lastReportedHealthRef st));
    cbn -[ceil];
    destruct (Rgtb (Entity.health (playerRef st)) 0);
    reflexivity.
Qed.

(** X8.  What the shell knows after an unpaused frame is up to date: the
    score reported last is the score, and the health reported last is
    the ceiling of the health.  The frame sends at most one score-changed
    notification, and only with a score that differs from the one
    reported before. *)
Theorem reports_are_in_sync props time st :
  paused props = false ->
  let st' := animate props time st in
  lastReportedScoreRef st' = scoreRef st'
  /\ lastReportedHealthRef st' = ceil (Entity.health (playerRef st'))
  /\ exists evs,
       log st' = log st ++ evs
       /\ (List.length (filter isScoreUpdate evs) <= 1)%nat
       /\ (forall v, In (OnScoreUpdate v) evs ->
             v = scoreRef st' /\ v <> lastReportedScoreRef st).
Proof.
  intros Hp st'. unfold st'.
  destruct (simulated_frame props time st) as (_ & _ & Hls & Hlh & _).
  rewrite animate_log, animate_simulated.
  set (s := simulated props time st) in *.
  destruct (report_simulation props (emit Render s)) as (Hpl & _ & _ & Hsc & _).
  rewrite Hpl, Hsc, report_lastReportedScoreRef, report_lastReportedHealthRef.
  change (playerRef (emit Render s)) with (playerRef s).
  change (scoreRef (emit Render s)) with (scoreRef s).
  change (lastReportedScoreRef (emit Render s))
    with (lastReportedScoreRef s).
  change (lastReportedHealthRef (emit Render s))
    with (lastReportedHealthRef s).
  rewrite Hp. clearbody s.
  split.
  { destruct (Rneqb (scoreRef s) (lastReportedScoreRef s)) eqn:E;
      [reflexivity |].
    apply Rneqb_false in E. congruence. }
  split.
  { destruct (Rneqb (ceil (Entity.health (playerRef s)))
                (lastReportedHealthRef s)) eqn:E; [reflexivity |].
    apply Rneqb_false in E. congruence. }
  exists (Render :: reports props s).
  split; [reflexivity |].
  unfold reports, scoreReport, healthReport, gameOverReport.
  rewrite Hp, Hls.
  destruct (Rneqb (scoreRef s) (lastReportedScoreRef st)) eqn:E;
    destruct (Rneqb (ceil (Entity.health (playerRef s)))
                (lastReportedHealthRef s));
    destruct (Rgtb (Entity.health (playerRef s)) 0);
    cbn -[ceil];
    (split; [lia |]);
    intros v Hin;
    repeat (destruct Hin as [Hin | Hin]; try discriminate);
    try contradiction;
    injection Hin as <-;
    (split; [reflexivity | apply Rneqb_true; exact E]).
Qed.

Lemma reports_are_in_sync_witness :
  let st' := animate rammingProps 1016 rammingState in
  lastReportedScoreRef st' = scoreRef st'
  /\ lastReportedHealthRef st' = ceil (Entity.health (playerRef st'))
  /\ exists evs,
       log st' = log rammingState ++ evs
       /\ (List.length (filter isScoreUpdate evs) <= 1)%nat
       /\ (forall v, In (OnScoreUpdate v) evs ->
             v = scoreRef st' /\ v <> lastReportedScoreRef rammingState).
Proof.
  apply (reports_are_in_sync rammingProps 1016 rammingState). reflexivity.
Defined.

Lemma filter_isGameOver_reports (s : State) :
  filter isGameOver (scoreReport s ++ healthReport s) = [].
Proof.
  unfold scoreReport, healthReport.
  destruct (Rneqb (scoreRef s) (lastReportedScoreRef s));
    destruct (Rneqb (ceil (Entity.health (playerRef s)))
                (lastReportedHealthRef s)); reflexivity.
Qed.

Lemma host_gameOverOnceLast props st e :
  gameOverOnceLast st -> gameOverOnceLast (host props st e).
Proof.
  intros Inv.
  destruct e as [code | code | x y | time].
  - exact Inv.
  - exact Inv.
  - cbn [host]. unfold handleMove. destruct (paused props); exact Inv.
  - cbn [host]. destruct (requestRef st) eqn:Hr; [| exact Inv].
    assert (Hno : filter isGameOver (log st) = []).
    { destruct Inv as [H | (Hf & _)]; [exact H | congruence]. }
    set (st0 := set_requestRef false st).
    set (s := simulated props time st0).
    destruct (simulated_frame props time st0) as (_ & Hrq & _).
    fold s in Hrq.
    assert (Hlog : log (animate props time st0)
                   = log st ++ Render :: reports props s)
      by apply animate_log.
    assert (Hreq : requestRef (animate props time st0)
                   = if paused props then true
                     else if Rgtb (Entity.health (playerRef s)) 0 then true
                          else false).
    { rewrite animate_simulated. fold s. rewrite report_requestRef.
      change (playerRef (emit Render s)) with (playerRef s).
      change (requestRef (emit Render s)) with (requestRef s).
      rewrite Hrq. reflexivity. }
    unfold gameOverOnceLast. rewrite Hlog, Hreq.
    unfold reports, gameOverReport.
    destruct (paused props).
    + left. rewrite filter_app, Hno. reflexivity.
    + destruct (Rgtb (Entity.health (playerRef s)) 0).
      * left. rewrite app_nil_r, filter_app, Hno. cbn [filter isGameOver app].
        apply filter_isGameOver_reports.
      * right. split; [reflexivity |].
        exists (log st ++ Render :: scoreReport s ++ healthReport s),
          (scoreRef s).
        split.
        -- rewrite <- !app_assoc. cbn [app]. rewrite <- !app_assoc.
           reflexivity.
        -- rewrite filter_app, Hno. cbn [filter isGameOver app].
           apply filter_isGameOver_reports.
Qed.

Lemma run_gameOverOnceLast props es : forall st,
  gameOverOnceLast st -> gameOverOnceLast (run props es st).
Proof.
  induction es as [| e es IH]; intros st Inv; [exact Inv |].
  apply (IH (host props st e)), host_gameOverOnceLast, Inv.
Qed.

(** X9.  Over a whole run that starts with no game-over notification in
    the log, whatever the host delivers, the shell is told at most once
    that the game is over, and if it is told, that is the last thing it
    is told and no frame is pending any more. *)
Theorem game_over_at_most_once props es st :
  filter isGameOver (log st) = [] ->
  let st' := run props es st in
  (List.length (filter isGameOver (log st')) <= 1)%nat
  /\ (forall l s l',
        log st' = l ++ OnGameOver s :: l' ->
        l' = [] /\ requestRef st' = false).
Proof.
  intros H0 st'.
  assert (Inv : gameOverOnceLast st')
    by (apply run_gameOverOnceLast; left; exact H0).
  destruct Inv as [Hno | (Hr & l0 & s0 & Hl & Hf)].
  - split; [rewrite Hno; cbn; lia |].
    intros l s l' E. rewrite E in Hno.
    rewrite filter_app in Hno. cbn [filter isGameOver] in Hno.
    apply app_eq_nil in Hno. destruct Hno as [_ Hno]. discriminate.
  - split.
    + rewrite Hl, filter_app, Hf. cbn. lia.
    + intros l s l' E. split; [| exact Hr].
      rewrite Hl in E.
      destruct l' as [| x l'] using rev_ind; [reflexivity |].
      exfalso.
      rewrite app_comm_cons, app_assoc in E.
      apply app_inj_tail in E. destruct E as [E _].
      rewrite E in Hf. rewrite filter_app in Hf.
      cbn [filter isGameOver] in Hf.
      apply app_eq_nil in Hf. destruct Hf as [_ Hf]. discriminate.
Qed.

Lemma game_over_at_most_once_witness :
  let es := [Refresh 1016; Refresh 1032; KeyDown "Space"; Refresh 1048] in
  let st' := run rammingProps es rammingState in
  (List.length (filter isGameOver (log st')) <= 1)%nat
  /\ (forall l s l',
        log st' = l ++ OnGameOver s :: l' ->
        l' = [] /\ requestRef st' = false).
Proof.
  intros es.
  apply (game_over_at_most_once rammingProps es rammingState). reflexivity.
Defined.

End FramesMore.

(** ** The simulation step: what it may change *)

Section SimulationOnly.
Import GameEngine Vocabulary.

Lemma simulationOnly_make (st st' : State) h :
  h <= Entity.health (playerRef st) ->
  playerRef st' = Entity.set_health h (playerRef st) ->
  lastTimeRef st' = lastTimeRef st ->
  lastReportedScoreRef st' = lastReportedScoreRef st ->
  lastReportedHealthRef st' = lastReportedHealthRef st ->
  gameTimeRef st' = gameTimeRef st ->
  keysRef st' = keysRef st ->
  inputRef st' = inputRef st ->
  reticleRef st' = reticleRef st ->
  requestRef st' = requestRef st ->
  log st' = log st ->
  simulationOnly st st'.
Proof.
  intros Hh Hp H1 H2 H3 H4 H5 H6 H7 H8 H9.
  exists h, (entitiesRef st'), (particlesRef st'), (scoreRef st'),
    (randomSource st'), (clock st'), (lastFireTimeRef st').
  split; [exact Hh |].
  destruct st, st'. cbn in *. subst. reflexivity.
Qed.

Lemma simulationOnly_health st st' :
  simulationOnly st st' ->
  exists h, h <= Entity.health (playerRef st)
            /\ playerRef st' = Entity.set_health h (playerRef st).
Proof.
  intros (h & es & ps & sc & r & c & lf & Hh & ->). exists h.
  split; [exact Hh | reflexivity].
Qed.

Lemma simulationOnly_cells st st' :
  simulationOnly st st' ->
  lastTimeRef st' = lastTimeRef st
  /\ lastReportedScoreRef st' = lastReportedScoreRef st
  /\ lastReportedHealthRef st' = lastReportedHealthRef st
  /\ gameTimeRef st' = gameTimeRef st
  /\ keysRef st' = keysRef st
  /\ inputRef st' = inputRef st
  /\ reticleRef st' = reticleRef st
  /\ requestRef st' = requestRef st
  /\ log st' = log st.
Proof.
  intros (h & es & ps & sc & r & c & lf & Hh & ->). repeat split.
Qed.

Lemma simulationOnly_refl st : simulationOnly st st.
Proof.
  apply (simulationOnly_make st st (Entity.health (playerRef st)));
    try reflexivity; try lra.
  destruct (playerRef st); reflexivity.
Qed.

Lemma simulationOnly_trans a b c :
  simulationOnly a b -> simulationOnly b c -> simulationOnly a c.
Proof.
  intros (h & es & ps & sc & r & k & lf & Hh & ->)
         (h' & es' & ps' & sc' & r' & k' & lf' & Hh' & ->).
  cbn in Hh'.
  apply (simulationOnly_make a _ h'); try reflexivity.
  lra.
Qed.

Lemma cosmetic_simulationOnly st st' : cosmetic st st' -> simulationOnly st st'.
Proof.
  intros (ps & r & ->).
  apply (simulationOnly_make st _ (Entity.health (playerRef st)));
    try reflexivity; try lra.
  cbn. destruct (playerRef st); reflexivity.
Qed.

Ltac simulationOnly_same_ship st :=
  apply (simulationOnly_make st _ (Entity.health (playerRef st)));
  try reflexivity; try lra;
  cbn; destruct (playerRef st); reflexivity.

Lemma pushEntity_simulationOnly e st : simulationOnly st (pushEntity e st).
Proof. simulationOnly_same_ship st. Qed.

Lemma storeEntity_simulationOnly i e st :
  simulationOnly st (storeEntity i e st).
Proof. simulationOnly_same_ship st. Qed.

Lemma spawnProjectile_simulationOnly s t b st :
  simulationOnly st (spawnProjectile s t b st).
Proof.
  rewrite spawnProjectile_eq.
  eapply simulationOnly_trans;
    [apply cosmetic_simulationOnly, random_cosmetic
    | apply pushEntity_simulationOnly].
Qed.

Lemma spawning_simulationOnly props st :
  simulationOnly st (spawning props st).
Proof.
  unfold spawning. destruct (Rgtb _ _); [| apply simulationOnly_refl].
  cbn -[spawnEnemy]. destruct (Rltb _ _).
  - rewrite spawnEnemy_eq.
    eapply simulationOnly_trans; [| apply pushEntity_simulationOnly].
    simulationOnly_same_ship st.
  - apply cosmetic_simulationOnly, random_cosmetic.
Qed.

Lemma firing_simulationOnly props st : simulationOnly st (firing props st).
Proof.
  unfold firing. destruct (isFiring st); [| apply simulationOnly_refl].
  cbn. destruct (Rgtb _ _); simulationOnly_same_ship st.
Qed.

Lemma moveEntity_simulationOnly dt ss ent st :
  simulationOnly st (snd (moveEntity dt ss ent st)).
Proof.
  unfold moveEntity.
  destruct (Entity.type ent); cbn -[spawnProjectile];
    try apply simulationOnly_refl;
    destruct (_ && _); cbn -[spawnProjectile];
    try (apply cosmetic_simulationOnly, random_cosmetic);
    (eapply simulationOnly_trans;
     [apply cosmetic_simulationOnly, random_cosmetic
     | apply spawnProjectile_simulationOnly]).
Qed.

Lemma projectileHit_simulationOnly ent st j :
  simulationOnly st (snd (projectileHit (ent, st) j)).
Proof.
  unfold projectileHit.
  destruct (nth_error _ _) as [proj |]; [| apply simulationOnly_refl].
  destruct (VectorMath.checkCollision _ _ _ _); [| apply simulationOnly_refl].
  cbv zeta. forget_explosions.
  destruct (Rleb _ _); cbn [snd]; simulationOnly_same_ship st.
Qed.

Lemma fold_projectileHit_simulationOnly js : forall ent st,
  simulationOnly st (snd (fold_left projectileHit js (ent, st))).
Proof.
  induction js as [| j js IH]; intros ent st; cbn [fold_left].
  - apply simulationOnly_refl.
  - pose proof (projectileHit_simulationOnly ent st j) as H.
    destruct (projectileHit (ent, st) j) as [ent' st'].
    eapply simulationOnly_trans; [exact H | apply IH].
Qed.

Lemma enemyHitsPlayer_simulationOnly ent st :
  simulationOnly st (snd (enemyHitsPlayer ent st)).
Proof.
  unfold enemyHitsPlayer.
  destruct (VectorMath.checkCollision _ _ _ _); [| apply simulationOnly_refl].
  cbv zeta. cbn [snd]. forget_explosions.
  apply (simulationOnly_make st _ (Entity.health (playerRef st) - 20));
    try reflexivity. lra.
Qed.

Lemma enemyProjectileHitsPlayer_simulationOnly ent st :
  simulationOnly st (snd (enemyProjectileHitsPlayer ent st)).
Proof.
  unfold enemyProjectileHitsPlayer.
  destruct (_ && _); [| apply simulationOnly_refl].
  cbv zeta. cbn [snd]. forget_explosions.
  apply (simulationOnly_make st _ (Entity.health (playerRef st) - 10));
    try reflexivity. lra.
Qed.

Lemma enemyCollisions_simulationOnly ent st :
  simulationOnly st (snd (enemyCollisions ent st)).
Proof.
  unfold enemyCollisions.
  destruct (_ && _); [| apply simulationOnly_refl].
  pose proof (fold_projectileHit_simulationOnly
                (activePlayerProjectiles st) ent st) as H.
  destruct (fold_left _ _ _) as [ent' st'].
  eapply simulationOnly_trans; [exact H | apply enemyHitsPlayer_simulationOnly].
Qed.

Lemma entityCallback_simulationOnly dt ss st i :
  simulationOnly st (entityCallback dt ss st i).
Proof.
  unfold entityCallback.
  destruct (nth_error _ _) as [ent |]; [| apply simulationOnly_refl].
  destruct (negb _); [apply simulationOnly_refl |].
  pose proof (moveEntity_simulationOnly dt ss ent st) as H1.
  destruct (moveEntity dt ss ent st) as [ent1 st1]. cbn [snd] in H1.
  cbv zeta.
  pose proof (enemyCollisions_simulationOnly (cull ent1)
                (storeEntity i (cull ent1) st1)) as H2.
  destruct (enemyCollisions _ _) as [ent2 st2]. cbn [snd] in H2.
  pose proof (enemyProjectileHitsPlayer_simulationOnly ent2 st2) as H3.
  destruct (enemyProjectileHitsPlayer ent2 st2) as [ent3 st3].
  cbn [snd] in H3.
  eapply simulationOnly_trans; [exact H1 |].
  eapply simulationOnly_trans; [apply storeEntity_simulationOnly |].
  eapply simulationOnly_trans; [exact H2 |].
  eapply simulationOnly_trans; [exact H3 |].
  apply storeEntity_simulationOnly.
Qed.

Lemma entitiesPass_simulationOnly dt ss st :
  simulationOnly st (entitiesPass dt ss st).
Proof.
  unfold entitiesPass. generalize (seq 0 (List.length (entitiesRef st))).
  intros idx. revert st.
  induction idx as [| i idx IH]; intros st; cbn [fold_left].
  - apply simulationOnly_refl.
  - eapply simulationOnly_trans;
      [apply entityCallback_simulationOnly | apply IH].
Qed.

Lemma compactEntities_simulationOnly st :
  simulationOnly st (compactEntities st).
Proof. simulationOnly_same_ship st. Qed.

Lemma afterShip_simulationOnly props dt st :
  simulationOnly st (afterShip props dt st).
Proof.
  unfold afterShip.
  eapply simulationOnly_trans;
    [apply cosmetic_simulationOnly, thrusters_cosmetic |].
  eapply simulationOnly_trans; [apply spawning_simulationOnly |].
  eapply simulationOnly_trans; [apply firing_simulationOnly |].
  eapply simulationOnly_trans; [apply entitiesPass_simulationOnly |].
  eapply simulationOnly_trans; [apply compactEntities_simulationOnly |].
  apply cosmetic_simulationOnly, particlesPass_cosmetic.
Qed.

Lemma update_afterShip props dt st :
  update props dt st = afterShip props dt (moveShip props (updateReticle st)).
Proof. reflexivity. Qed.

(** One update, seen from the ship. *)
Lemma update_ship props dt st :
  exists h,
    h <= Entity.health (playerRef st)
    /\ playerRef (update props dt st)
       = Entity.set_health h (playerRef (moveShip props st)).
Proof.
  rewrite update_afterShip.
  destruct (simulationOnly_health _ _
              (afterShip_simulationOnly props dt
                 (moveShip props (updateReticle st)))) as (h & Hh & Hp).
  exists h. split; [exact Hh | exact Hp].
Qed.

Lemma update_cells props dt st :
  reticleRef (update props dt st) = reticleRef (updateReticle st)
  /\ inputRef (update props dt st) = inputRef st
  /\ keysRef (update props dt st) = keysRef st.
Proof.
  rewrite update_afterShip.
  destruct (simulationOnly_cells _ _
              (afterShip_simulationOnly props dt
                 (moveShip props (updateReticle st))))
    as (_ & _ & _ & _ & Hk & Hi & Hr & _).
  rewrite Hk, Hi, Hr. repeat split.
Qed.

(** X10.  Along any sequence of simulation steps the ship's health never
    grows, and nothing else of the ship changes but its x, its y and its
    bank angle: it stays on the plane of its z, and keeps its radius,
    type, id, score value, scale, velocity, colour and liveness flag. *)
Theorem ship_health_never_grows steps : forall st,
  let p := playerRef st in
  let p' := playerRef (simulate steps st) in
  Entity.health p' <= Entity.health p
  /\ Vector3.z (Entity.position p') = Vector3.z (Entity.position p)
  /\ Entity.radius p' = Entity.radius p
  /\ Entity.type p' = Entity.type p
  /\ Entity.id p' = Entity.id p
  /\ Entity.scoreValue p' = Entity.scoreValue p
  /\ Entity.scale p' = Entity.scale p
  /\ Entity.velocity p' = Entity.velocity p
  /\ Entity.color p' = Entity.color p
  /\ Entity.active p' = Entity.active p.
Proof.
  induction steps as [| [props dt] steps IH]; intros st; cbv zeta.
  - cbn. repeat split; lra.
  - change (simulate ((props, dt) :: steps) st)
      with (simulate steps (update props dt st)).
    destruct (IH (update props dt st))
      as (I1 & I2 & I3 & I4 & I5 & I6 & I7 & I8 & I9 & I10).
    cbv zeta in I1, I2, I3, I4, I5, I6, I7, I8, I9, I10.
    destruct (update_ship props dt st) as (h & Hh & Hp).
    rewrite I2, I3, I4, I5, I6, I7, I8, I9, I10, Hp.
    rewrite Hp in I1. cbn in I1.
    split; [lra |]. repeat split.
Qed.

(** X11.  Steering.  One update moves the ship 8% of the way to its
    target, as the code writes it: x += (targetX - x) * 0.08, the same
    for y, and sets the bank angle to 0.06 times what is then left of
    the way in x.  The target is the unprojected raw input clamped by
    Math.max(lo, Math.min(hi, .)): its x is always within
    [-xLimit, xLimit]; its y is never below the floor margin
    FLOOR_Y + 1 and never above the larger of the floor margin and
    yMax, so it is at most yMax when yMax is not below the floor margin,
    and it is the floor margin itself when yMax is below it (the lower
    clamp wins; the target is then above yMax).  A ship within
    [-xLimit, xLimit] stays within; a ship not below the floor margin
    stays not below it; and, when yMax is not below the floor margin, a
    ship not above yMax stays not above it. *)
Theorem ship_steering props dt st :
  let p := Entity.position (playerRef st) in
  let p' := Entity.position (playerRef (update props dt st)) in
  let tx := fst (shipTarget props (inputRef st)) in
  let ty := snd (shipTarget props (inputRef st)) in
  Vector3.x p' = Vector3.x p + (tx - Vector3.x p) * SHIP_LAG
  /\ Vector3.y p' = Vector3.y p + (ty - Vector3.y p) * SHIP_LAG
  /\ SHIP_LAG = 0.08
  /\ Entity.rotation (playerRef (update props dt st))
     = (Vector3.x p' - tx) * 0.06
  /\ - xLimit props <= tx <= xLimit props
  /\ FLOOR_Y + 1 <= ty <= Rmax (FLOOR_Y + 1) (yMax props)
  /\ (FLOOR_Y + 1 <= yMax props -> ty <= yMax props)
  /\ (yMax props < FLOOR_Y + 1 -> ty = FLOOR_Y + 1)
  /\ (- xLimit props <= Vector3.x p <= xLimit props ->
      - xLimit props <= Vector3.x p' <= xLimit props)
  /\ (FLOOR_Y + 1 <= Vector3.y p -> FLOOR_Y + 1 <= Vector3.y p')
  /\ (FLOOR_Y + 1 <= yMax props -> Vector3.y p <= yMax props ->
      Vector3.y p' <= yMax props).
Proof.
  cbv zeta.
  destruct (update_ship props dt st) as (h & _ & Hp). rewrite Hp.
  unfold shipTarget, moveShip. cbv zeta.
  fold (xLimit props). fold (yMax props).
  cbn [fst snd playerRef set_playerRef Entity.position Entity.rotation
       Entity.set_health Entity.set_position Entity.set_rotation
       Vector3.x Vector3.y].
  set (m := VectorMath.unprojectVector _ _ 0 _ _).
  set (tx := Rmax (- xLimit props) (Rmin (xLimit props) (Vector3.x m))).
  set (ty := Rmax (FLOOR_Y + 1) (Rmin (yMax props) (Vector3.y m))).
  assert (HxL : 10 <= xLimit props) by apply Rmax_l.
  assert (Htx : - xLimit props <= tx <= xLimit props).
  { unfold tx. split; [apply Rmax_l |].
    apply Rmax_lub; [lra | apply Rmin_l]. }
  assert (Hmin : Rmin (yMax props) (Vector3.y m) <= yMax props)
    by apply Rmin_l.
  assert (Hty : FLOOR_Y + 1 <= ty <= Rmax (FLOOR_Y + 1) (yMax props)).
  { unfold ty. split; [apply Rmax_l |].
    apply Rmax_lub; [apply Rmax_l |].
    eapply Rle_trans; [exact Hmin | apply Rmax_r]. }
  assert (Hup : FLOOR_Y + 1 <= yMax props -> ty <= yMax props).
  { intros Hle. destruct Hty as [_ Hty].
    rewrite (Rmax_right _ _ Hle) in Hty. exact Hty. }
  assert (Hlow : yMax props < FLOOR_Y + 1 -> ty = FLOOR_Y + 1).
  { intros Hlt. unfold ty. apply Rmax_left. lra. }
  unfold SHIP_LAG.
  split; [reflexivity |]. split; [reflexivity |]. split; [reflexivity |].
  split; [reflexivity |].
  split; [exact Htx |]. split; [exact Hty |].
  split; [exact Hup |]. split; [exact Hlow |].
  split; [intros; lra |]. split; [intros; lra |].
  intros Hle Hy. specialize (Hup Hle). lra.
Qed.

Lemma reticle_step props dt st :
  Reticle.x (reticleRef (update props dt st)) - Input.x (inputRef st)
  = 0.85 * (Reticle.x (reticleRef st) - Input.x (inputRef st))
  /\ Reticle.y (reticleRef (update props dt st)) - Input.y (inputRef st)
     = 0.85 * (Reticle.y (reticleRef st) - Input.y (inputRef st)).
Proof.
  destruct (update_cells props dt st) as (Hr & _ & _). rewrite Hr.
  unfold updateReticle, RETICLE_LAG. cbn. split; lra.
Qed.

Lemma simulate_inputRef steps : forall st,
  inputRef (simulate steps st) = inputRef st.
Proof.
  induction steps as [| [props dt] steps IH]; intros st; [reflexivity |].
  change (simulate ((props, dt) :: steps) st)
    with (simulate steps (update props dt st)).
  rewrite IH. apply update_cells.
Qed.

(** X12.  Reticle lag.  Each simulation step, whatever its elapsed
    time, sets the lagged reticle as the code writes it,
    r += (input - r) * 0.15 on each axis, and leaves the raw input
    alone.  Hence, over real arithmetic (the numbers of the code read as
    real numbers; in floating point the equality holds up to rounding
    only), each step leaves 85% of the distance between the reticle and
    the input: after n steps the reticle is off by 0.85^n times what it
    was off by, on each axis. *)
Theorem reticle_lag_closed_form steps : forall st,
  let n := List.length steps in
  (forall props dt,
     Reticle.x (reticleRef (update props dt st))
     = Reticle.x (reticleRef st)
       + (Input.x (inputRef st) - Reticle.x (reticleRef st)) * RETICLE_LAG
     /\ Reticle.y (reticleRef (update props dt st))
        = Reticle.y (reticleRef st)
          + (Input.y (inputRef st) - Reticle.y (reticleRef st)) * RETICLE_LAG
     /\ inputRef (update props dt st) = inputRef st)
  /\ RETICLE_LAG = 0.15
  /\ Reticle.x (reticleRef (simulate steps st)) - Input.x (inputRef st)
     = 0.85 ^ n * (Reticle.x (reticleRef st) - Input.x (inputRef st))
  /\ Reticle.y (reticleRef (simulate steps st)) - Input.y (inputRef st)
     = 0.85 ^ n * (Reticle.y (reticleRef st) - Input.y (inputRef st)).
Proof.
  intros st. cbv zeta.
  split.
  { intros props dt.
    destruct (update_cells props dt st) as (Hr & Hi & _).
    rewrite Hr, Hi. repeat split. }
  split; [reflexivity |].
  revert st.
  induction steps as [| [props dt] steps IH]; intros st.
  - cbn. split; lra.
  - change (simulate ((props, dt) :: steps) st)
      with (simulate steps (update props dt st)).
    destruct (IH (update props dt st)) as [Ix Iy].
    destruct (update_cells props dt st) as (_ & Hi & _).
    rewrite Hi in Ix, Iy.
    destruct (reticle_step props dt st) as [Sx Sy].
    rewrite Ix, Iy, Sx, Sy. cbn [List.length pow]. split; ring.
Qed.

End SimulationOnly.

(** ** Spawning: explosions and enemies *)

Section Spawns.
Import GameEngine Vocabulary.

Lemma explosionParticle_effect pos c st :
  exists p,
    particlesRef (explosionParticle pos c st) = particlesRef st ++ [p]
    /\ explosionParticleAt pos c p
    /\ (forall n, randomSource (explosionParticle pos c st) n
                  = randomSource st (n + 3)%nat)
    /\ ((forall k, (k < 3)%nat -> 0 <= randomSource st k < 1) ->
        slowParticle p).
Proof.
  eexists. split; [reflexivity |].
  split; [repeat split |].
  split.
  - intros n. cbn. replace (n + 3)%nat with (S (S (S n))) by lia. reflexivity.
  - intros Hr.
    pose proof (Hr 0%nat ltac:(lia)) as H0.
    pose proof (Hr 1%nat ltac:(lia)) as H1.
    pose proof (Hr 2%nat ltac:(lia)) as H2.
    unfold slowParticle. cbn. lra.
Qed.

Lemma iterated_explosion pos c n : forall st,
  exists ps,
    particlesRef (Nat.iter n (explosionParticle pos c) st)
    = particlesRef st ++ ps
    /\ List.length ps = n
    /\ Forall (explosionParticleAt pos c) ps
    /\ (forall m, randomSource (Nat.iter n (explosionParticle pos c) st) m
                  = randomSource st (m + 3 * n)%nat)
    /\ (unitRandoms st -> Forall slowParticle ps).
Proof.
  induction n as [| n IH]; intros st.
  - exists []. cbn [Nat.iter]. rewrite app_nil_r.
    split; [reflexivity |]. split; [reflexivity |]. split; [constructor |].
    split; [| intros _; constructor].
    intros m. f_equal. lia.
  - change (Nat.iter (S n) (explosionParticle pos c) st)
      with (explosionParticle pos c (Nat.iter n (explosionParticle pos c) st)).
    destruct (IH st) as (ps & Hp & Hl & Hf & Hr & Hs).
    set (s := Nat.iter n (explosionParticle pos c) st) in *. clearbody s.
    destruct (explosionParticle_effect pos c s) as (p & Ep & Eat & Er & Es).
    exists (ps ++ [p]).
    split; [rewrite Ep, Hp, app_assoc; reflexivity |].
    split; [rewrite length_app, Hl; cbn; lia |].
    split;
      [apply Forall_app; split;
       [exact Hf | constructor; [exact Eat | constructor]] |].
    split.
    + intros m. rewrite Er, Hr. f_equal. lia.
    + intros Hu. apply Forall_app. split; [apply Hs, Hu |].
      constructor; [| constructor]. apply Es.
      intros k _. rewrite Hr. apply Hu.
Qed.

(** X13.  An explosion adds exactly 15 particles to the end of the
    particle list, each at the place of the explosion, in its colour,
    with 500 ms to live; it reads 45 random numbers and touches nothing
    else; with random numbers of [0, 1) no particle flies faster than 1.5
    units per axis. *)
Theorem spawnExplosion_effect pos c st :
  cosmetic st (spawnExplosion pos c st)
  /\ exists ps,
       particlesRef (spawnExplosion pos c st) = particlesRef st ++ ps
       /\ List.length ps = 15%nat
       /\ Forall (explosionParticleAt pos c) ps
       /\ (forall m, randomSource (spawnExplosion pos c st) m
                     = randomSource st (m + 45)%nat)
       /\ (unitRandoms st -> Forall slowParticle ps).
Proof.
  split; [apply spawnExplosion_cosmetic |].
  unfold spawnExplosion.
  destruct (iterated_explosion pos c 15 st) as (ps & Hp & Hl & Hf & Hr & Hs).
  exists ps. repeat split; assumption.
Qed.

(** X14.  Enemy spawning.  During the first 1500 ms of game time nothing
    is spawned and no random number is read.  After that one random
    number decides: at or above 0.02 times the mission's enemy density
    nothing is spawned (so never, for a density of 0 or less and random
    numbers that are not negative); below it, one interceptor is pushed
    to the end of the store, active, in the mission's theme colour, at
    z = 400, with 50 health, score value 100 and radius 4, and with
    random numbers of [0, 1) its x is in [-40, 40) and its y in [0, 20). *)
Theorem spawning_effect props st :
  let density := MissionData.enemyDensity (mission props) in
  (gameTimeRef st <= 1500 -> spawning props st = st)
  /\ (gameTimeRef st > 1500 ->
      0.02 * density <= randomSource st 0%nat ->
      entitiesRef (spawning props st) = entitiesRef st)
  /\ (gameTimeRef st > 1500 ->
      randomSource st 0%nat < 0.02 * density ->
      exists e,
        entitiesRef (spawning props st) = entitiesRef st ++ [e]
        /\ Entity.type e = Entity.ENEMY_Interceptor
        /\ Entity.active e = true
        /\ Entity.color e = MissionData.themeColor (mission props)
        /\ Vector3.z (Entity.position e) = 400
        /\ Entity.health e = 50
        /\ Entity.scoreValue e = 100
        /\ Entity.radius e = 4
        /\ (unitRandoms st ->
            -40 <= Vector3.x (Entity.position e) < 40
            /\ 0 <= Vector3.y (Entity.position e) < 20))
  /\ (density <= 0 -> unitRandoms st ->
      entitiesRef (spawning props st) = entitiesRef st).
Proof.
  cbv zeta.
  assert (Hno : forall r, 0.02 * MissionData.enemyDensity (mission props) <= r ->
                  Rltb r (0.02 * MissionData.enemyDensity (mission props))
                  = false) by (intros; apply Rltb_false_intro; assumption).
  split; [apply spawning_idle |].
  split.
  { intros Hg Hr. unfold spawning. rewrite (Rgtb_true_intro _ _ Hg).
    cbn -[spawnEnemy]. rewrite (Hno _ Hr). reflexivity. }
  split.
  { intros Hg Hr. unfold spawning. rewrite (Rgtb_true_intro _ _ Hg).
    cbn -[spawnEnemy]. rewrite (Rltb_true_intro _ _ Hr).
    rewrite spawnEnemy_eq.
    eexists. split; [reflexivity |].
    repeat split; cbn;
      try (pose proof (H 1%nat); lra);
      try (pose proof (H 2%nat); lra);
      try (pose proof (H 3%nat); lra). }
  intros Hd Hu. unfold spawning.
  destruct (Rgtb (gameTimeRef st) 1500); [| reflexivity].
  cbn -[spawnEnemy]. rewrite Hno; [reflexivity |].
  pose proof (Hu 0%nat). nra.
Qed.

End Spawns.

(** ** The keyboard takes no part in the game *)

Section Keyboard.
Import GameEngine Vocabulary.

Lemma set_keysRef_twice k k' st :
  set_keysRef k' (set_keysRef k st) = set_keysRef k' st.
Proof. reflexivity. Qed.

Lemma set_keysRef_same st : set_keysRef (keysRef st) st = st.
Proof. destruct st; reflexivity. Qed.

Lemma explosionParticle_keys pos c k st :
  explosionParticle pos c (set_keysRef k st)
  = set_keysRef k (explosionParticle pos c st).
Proof. reflexivity. Qed.

Lemma spawnExplosion_keys pos c k st :
  spawnExplosion pos c (set_keysRef k st)
  = set_keysRef k (spawnExplosion pos c st).
Proof.
  unfold spawnExplosion. generalize 15%nat. intros n.
  induction n as [| n IH]; [reflexivity |].
  change (Nat.iter (S n) (explosionParticle pos c) (set_keysRef k st))
    with (explosionParticle pos c
            (Nat.iter n (explosionParticle pos c) (set_keysRef k st))).
  change (Nat.iter (S n) (explosionParticle pos c) st)
    with (explosionParticle pos c (Nat.iter n (explosionParticle pos c) st)).
  rewrite IH. apply explosionParticle_keys.
Qed.

Lemma spawnProjectile_keys s t b k st :
  spawnProjectile s t b (set_keysRef k st)
  = set_keysRef k (spawnProjectile s t b st).
Proof. reflexivity. Qed.

Lemma thrusters_keys k st :
  thrusters (set_keysRef k st) = set_keysRef k (thrusters st).
Proof.
  unfold thrusters.
  change (gameTimeRef (set_keysRef k st)) with (gameTimeRef st).
  destruct (Rltb _ _); reflexivity.
Qed.

Lemma spawning_keys props k st :
  spawning props (set_keysRef k st) = set_keysRef k (spawning props st).
Proof.
  unfold spawning.
  change (gameTimeRef (set_keysRef k st)) with (gameTimeRef st).
  destruct (Rgtb _ _); [| reflexivity].
  cbn. destruct (Rltb _ _); reflexivity.
Qed.

Lemma firing_keys props k st :
  firing props (set_keysRef k st) = set_keysRef k (firing props st).
Proof.
  unfold firing. rewrite !isFiring_always.
  cbn. destruct (Rgtb _ _); reflexivity.
Qed.

Lemma moveEntity_keys dt ss ent k st :
  moveEntity dt ss ent (set_keysRef k st)
  = withKeys k (moveEntity dt ss ent st).
Proof.
  unfold moveEntity, withKeys.
  destruct (Entity.type ent); cbn; try reflexivity;
    destruct (_ && _); reflexivity.
Qed.

Lemma projectileHit_keys ent k st j :
  projectileHit (ent, set_keysRef k st) j
  = withKeys k (projectileHit (ent, st) j).
Proof.
  unfold projectileHit, withKeys.
  change (entitiesRef (set_keysRef k st)) with (entitiesRef st).
  destruct (nth_error _ _) as [proj |]; [| reflexivity].
  destruct (VectorMath.checkCollision _ _ _ _); [| reflexivity].
  cbv zeta.
  change (storeEntity j (Entity.set_active false proj) (set_keysRef k st))
    with (set_keysRef k (storeEntity j (Entity.set_active false proj) st)).
  rewrite spawnExplosion_keys.
  match goal with
  | |- context [spawnExplosion ?p ?c ?s] =>
      generalize (spawnExplosion p c s)
  end.
  intros X. destruct (Rleb _ _); reflexivity.
Qed.

Lemma fold_projectileHit_keys js k : forall ent st,
  fold_left projectileHit js (ent, set_keysRef k st)
  = withKeys k (fold_left projectileHit js (ent, st)).
Proof.
  induction js as [| j js IH]; intros ent st; cbn [fold_left].
  - reflexivity.
  - rewrite projectileHit_keys.
    destruct (projectileHit (ent, st) j) as [ent' st'].
    unfold withKeys at 1. cbn [fst snd]. apply IH.
Qed.

Lemma enemyHitsPlayer_keys ent k st :
  enemyHitsPlayer ent (set_keysRef k st)
  = withKeys k (enemyHitsPlayer ent st).
Proof.
  unfold enemyHitsPlayer, withKeys.
  change (playerRef (set_keysRef k st)) with (playerRef st).
  destruct (VectorMath.checkCollision _ _ _ _); [| reflexivity].
  cbv zeta. cbn [fst snd].
  rewrite <- spawnExplosion_keys. f_equal.
Qed.

Lemma enemyProjectileHitsPlayer_keys ent k st :
  enemyProjectileHitsPlayer ent (set_keysRef k st)
  = withKeys k (enemyProjectileHitsPlayer ent st).
Proof.
  unfold enemyProjectileHitsPlayer, withKeys.
  change (playerRef (set_keysRef k st)) with (playerRef st).
  destruct (_ && _); [| reflexivity].
  cbv zeta. cbn [fst snd].
  rewrite <- spawnExplosion_keys. f_equal.
Qed.

Lemma enemyCollisions_keys ent k st :
  enemyCollisions ent (set_keysRef k st)
  = withKeys k (enemyCollisions ent st).
Proof.
  unfold enemyCollisions.
  destruct (_ && _); [| reflexivity].
  change (activePlayerProjectiles (set_keysRef k st))
    with (activePlayerProjectiles st).
  rewrite fold_projectileHit_keys.
  destruct (fold_left _ _ _) as [ent' st'].
  unfold withKeys at 1. cbn [fst snd]. apply enemyHitsPlayer_keys.
Qed.

Lemma entityCallback_keys dt ss k st i :
  entityCallback dt ss (set_keysRef k st) i
  = set_keysRef k (entityCallback dt ss st i).
Proof.
  unfold entityCallback.
  change (entitiesRef (set_keysRef k st)) with (entitiesRef st).
  destruct (nth_error _ _) as [ent |]; [| reflexivity].
  destruct (negb _); [reflexivity |].
  rewrite moveEntity_keys.
  destruct (moveEntity dt ss ent st) as [ent1 st1].
  unfold withKeys at 1. cbn [fst snd]. cbv zeta.
  change (storeEntity i (cull ent1) (set_keysRef k st1))
    with (set_keysRef k (storeEntity i (cull ent1) st1)).
  rewrite enemyCollisions_keys.
  destruct (enemyCollisions _ _) as [ent2 st2].
  unfold withKeys at 1. cbn [fst snd].
  rewrite enemyProjectileHitsPlayer_keys.
  destruct (enemyProjectileHitsPlayer ent2 st2) as [ent3 st3].
  reflexivity.
Qed.

Lemma entitiesPass_keys dt ss k st :
  entitiesPass dt ss (set_keysRef k st)
  = set_keysRef k (entitiesPass dt ss st).
Proof.
  unfold entitiesPass.
  change (entitiesRef (set_keysRef k st)) with (entitiesRef st).
  generalize (seq 0 (List.length (entitiesRef st))). intros idx. revert st.
  induction idx as [| i idx IH]; intros st; cbn [fold_left].
  - reflexivity.
  - rewrite entityCallback_keys. apply IH.
Qed.

Lemma update_keys props dt k st :
  update props dt (set_keysRef k st) = set_keysRef k (update props dt st).
Proof.
  unfold update.
  change (updateReticle (set_keysRef k st))
    with (set_keysRef k (updateReticle st)).
  change (moveShip props (set_keysRef k (updateReticle st)))
    with (set_keysRef k (moveShip props (updateReticle st))).
  rewrite thrusters_keys, spawning_keys, firing_keys, entitiesPass_keys.
  reflexivity.
Qed.

Lemma report_keys props k st :
  report props (set_keysRef k st) = set_keysRef k (report props st).
Proof.
  unfold report.
  destruct (negb (paused props)); [| reflexivity].
  change (scoreRef (set_keysRef k st)) with (scoreRef st).
  change (lastReportedScoreRef (set_keysRef k st))
    with (lastReportedScoreRef st).
  destruct (Rneqb (scoreRef st) (lastReportedScoreRef st));
    cbn -[ceil];
    destruct (Rneqb (ceil (Entity.health (playerRef st)))
                (lastReportedHealthRef st));
    cbn -[ceil];
    destruct (Rgtb (Entity.health (playerRef st)) 0);
    reflexivity.
Qed.

Lemma set_lastTimeRef_keys v k st :
  set_lastTimeRef v (set_keysRef k st) = set_keysRef k (set_lastTimeRef v st).
Proof. reflexivity. Qed.

Lemma set_gameTimeRef_keys v k st :
  set_gameTimeRef v (set_keysRef k st) = set_keysRef k (set_gameTimeRef v st).
Proof. reflexivity. Qed.

Lemma emit_keys e k st : emit e (set_keysRef k st) = set_keysRef k (emit e st).
Proof. reflexivity. Qed.

Lemma clocks_keys k st :
  lastTimeRef (set_keysRef k st) = lastTimeRef st
  /\ gameTimeRef (set_keysRef k st) = gameTimeRef st.
Proof. split; reflexivity. Qed.

Lemma animate_keys props time k st :
  animate props time (set_keysRef k st)
  = set_keysRef k (animate props time st).
Proof.
  unfold animate. cbv zeta.
  rewrite (proj1 (clocks_keys k st)).
  destruct (Reqb (lastTimeRef st) 0);
    destruct (negb (paused props));
    rewrite ?set_lastTimeRef_keys, ?(proj1 (clocks_keys k _)),
      ?(proj2 (clocks_keys k _)), ?set_gameTimeRef_keys, ?update_keys,
      ?emit_keys;
    rewrite report_keys; reflexivity.
Qed.

Lemma host_keys props k st e :
  isKeyEvent e = false ->
  host props (set_keysRef k st) e = set_keysRef k (host props st e).
Proof.
  intros He. destruct e as [code | code | x y | time]; try discriminate.
  - cbn [host]. unfold handleMove. destruct (paused props); reflexivity.
  - cbn [host]. change (requestRef (set_keysRef k st)) with (requestRef st).
    destruct (requestRef st); [| reflexivity].
    change (set_requestRef false (set_keysRef k st))
      with (set_keysRef k (set_requestRef false st)).
    apply animate_keys.
Qed.

Lemma run_keys props es : forall k st,
  exists k',
    run props es (set_keysRef k st)
    = set_keysRef k' (run props (withoutKeys es) st).
Proof.
  induction es as [| e es IH]; intros k st.
  - exists k. reflexivity.
  - change (run props (e :: es) (set_keysRef k st))
      with (run props es (host props (set_keysRef k st) e)).
    destruct (isKeyEvent e) eqn:He.
    + unfold withoutKeys. cbn [filter]. rewrite He. cbn [negb].
      destruct e as [code | code | x y | time]; try discriminate;
        cbn [host]; rewrite set_keysRef_twice; apply IH.
    + unfold withoutKeys. cbn [filter]. rewrite He. cbn [negb].
      fold (withoutKeys es).
      change (run props (e :: withoutKeys es) st)
        with (run props (withoutKeys es) (host props st e)).
      rewrite (host_keys props k st e He). apply IH.
Qed.

(** X15.  The engine's key map decides nothing.  The engine's own key
    handlers only write the map, and the one place that reads it, the
    fire test, is true whatever the map holds.  So, for a run of the
    engine under props that stay the same (in particular while the
    shell does not change [paused]), taking the key events out of what
    the host delivers to the engine leaves the run as it was, the key
    map apart: the same events are reported to the shell, and the ship,
    the store, the particles, the score and the pending request are the
    same.  (The shell has a key handler of its own, which is no part of
    the engine and of this statement.) *)
Theorem engine_ignores_its_key_map props es st :
  let a := run props es st in
  let b := run props (withoutKeys es) st in
  a = set_keysRef (keysRef a) b
  /\ log a = log b
  /\ playerRef a = playerRef b
  /\ entitiesRef a = entitiesRef b
  /\ particlesRef a = particlesRef b
  /\ scoreRef a = scoreRef b
  /\ requestRef a = requestRef b.
Proof.
  cbv zeta.
  destruct (run_keys props es (keysRef st) st) as (k' & E).
  rewrite set_keysRef_same in E. rewrite E.
  repeat split.
Qed.

End Keyboard.

(** ** Aiming with the pointer *)

Section Aim.
Import GameEngine Vocabulary VectorMath.





End Aim.

(** ** The entity pass, element by element *)

Section PassEffect.
Import GameEngine Vocabulary.

Lemma holds_unique i e e' st : holds i e st -> holds i e' st -> e = e'.
Proof. unfold holds. congruence. Qed.

Lemma holds_lt i e st :
  holds i e st -> (i < List.length (entitiesRef st))%nat.
Proof. unfold holds. intros H. apply nth_error_Some. congruence. Qed.

Lemma lt_holds i st :
  (i < List.length (entitiesRef st))%nat -> exists e, holds i e st.
Proof.
  unfold holds. intros H. apply nth_error_Some in H.
  destruct (nth_error (entitiesRef st) i) as [e |]; [eauto | congruence].
Qed.

Lemma fades_refl e : fades e e.
Proof. left. reflexivity. Qed.

Lemma fades_trans a b c : fades a b -> fades b c -> fades a c.
Proof.
  intros [-> | [Hp ->]] [-> | [Hp' ->]].
  - left. reflexivity.
  - right. split; [exact Hp' | reflexivity].
  - right. split; [exact Hp | reflexivity].
  - right. split; [exact Hp | reflexivity].
Qed.

Lemma fades_shotLike e e' : shotLike e -> fades e e' -> e' = e.
Proof.
  intros (Hty & _) [-> | [Hp _]]; [reflexivity |].
  rewrite Hty in Hp. discriminate.
Qed.

Lemma fades_settles e e' : fades e e' -> settles e e'.
Proof.
  intros [-> | [_ ->]]; unfold settles; cbn; repeat split; auto.
  discriminate.
Qed.

Lemma settles_refl e : settles e e.
Proof. unfold settles. auto. Qed.

Lemma settles_trans a b c : settles a b -> settles b c -> settles a c.
Proof.
  intros (P1 & T1 & V1 & A1) (P2 & T2 & V2 & A2).
  unfold settles. repeat split; try congruence. auto.
Qed.

Lemma spares_refl k st : spares k st st.
Proof.
  split; [lia |]. split.
  - intros i e _ H. exists e. split; [exact H | apply fades_refl].
  - intros i e' Hi H. apply holds_lt in H. lia.
Qed.

Lemma spares_trans k a b c :
  (k < List.length (entitiesRef a))%nat ->
  spares k a b -> spares k b c -> spares k a c.
Proof.
  intros Hk (L1 & O1 & N1) (L2 & O2 & N2).
  split; [lia |]. split.
  - intros i e Hi H.
    destruct (O1 i e Hi H) as (e1 & H1 & F1).
    destruct (O2 i e1 Hi H1) as (e2 & H2 & F2).
    exists e2. split; [exact H2 | eapply fades_trans; eassumption].
  - intros i e' Hi H.
    destruct (Nat.lt_ge_cases i (List.length (entitiesRef b))) as [Hlt | Hge].
    + destruct (lt_holds i b Hlt) as (e1 & H1).
      pose proof (N1 i e1 Hi H1) as Hs.
      assert (Hik : i <> k) by lia.
      destruct (O2 i e1 Hik H1) as (e2 & H2 & F2).
      rewrite (holds_unique i e' e2 c H H2).
      rewrite (fades_shotLike e1 e2 Hs F2). exact Hs.
    + apply (N2 i e' Hge H).
Qed.

Lemma spares_same_store k st st' :
  entitiesRef st' = entitiesRef st -> spares k st st'.
Proof.
  intros E. unfold spares, holds. rewrite E.
  split; [lia |]. split.
  - intros i e _ H. exists e. split; [exact H | apply fades_refl].
  - intros i e' Hi H.
    assert (i < List.length (entitiesRef st))%nat
      by (apply nth_error_Some; congruence).
    lia.
Qed.

Lemma spares_cosmetic k st st' : cosmetic st st' -> spares k st st'.
Proof. intros Hc. apply spares_same_store, cosmetic_entitiesRef, Hc. Qed.

Lemma spares_pushEntity k x st :
  shotLike x -> spares k st (pushEntity x st).
Proof.
  intros Hx. unfold spares, holds. cbn [pushEntity entitiesRef set_entitiesRef].
  split; [rewrite length_app; lia |]. split.
  - intros i e _ H. exists e.
    split; [apply nth_error_snoc_keep; exact H | apply fades_refl].
  - intros i e' Hi H.
    rewrite nth_error_app2 in H by exact Hi.
    destruct (i - List.length (entitiesRef st))%nat as [| m]; cbn in H.
    + congruence.
    + destruct m; discriminate.
Qed.

Lemma spares_storeEntity_own k ent st : spares k st (storeEntity k ent st).
Proof.
  unfold spares, holds. cbn [storeEntity entitiesRef set_entitiesRef].
  rewrite replaceAt_length.
  split; [lia |]. split.
  - intros i e Hi H. exists e.
    rewrite nth_error_replaceAt_other by congruence.
    split; [exact H | apply fades_refl].
  - intros i e' Hi H.
    assert (i < List.length (replaceAt k ent (entitiesRef st)))%nat
      by (apply nth_error_Some; congruence).
    rewrite replaceAt_length in *. lia.
Qed.

Lemma spares_switch_off k j proj st :
  holds j proj st ->
  Entity.isPlayerProjectile (Entity.type proj) = true ->
  spares k st (storeEntity j (Entity.set_active false proj) st).
Proof.
  intros Hj Hp. unfold spares.
  cbn [storeEntity entitiesRef set_entitiesRef].
  rewrite replaceAt_length.
  split; [lia |]. split.
  - intros i e _ H.
    destruct (Nat.eq_dec i j) as [-> | Hne].
    + rewrite (holds_unique j e proj st H Hj).
      exists (Entity.set_active false proj).
      split; [eapply holds_storeEntity_same; exact Hj |].
      right. split; [exact Hp | reflexivity].
    + exists e. split; [| apply fades_refl].
      apply holds_storeEntity_other; [congruence | exact H].
  - intros i e' Hi H. apply holds_lt in H.
    cbn [storeEntity entitiesRef set_entitiesRef] in H.
    rewrite replaceAt_length in H. lia.
Qed.

(** The enemy's shot is pushed inside its band. *)
Lemma enemy_shot_shotLike z' pos target rid :
  Rgtb z' 50 = true -> Rltb z' 300 = true ->
  Vector3.z pos = z' ->
  shotLike (projectileOf pos target false rid).
Proof.
  intros H1 H2 Hz. apply Rgtb_true in H1. apply Rltb_true in H2.
  unfold shotLike. cbn. rewrite Hz. repeat split; lra.
Qed.

Lemma moveEntity_spares k dt ss ent st :
  spares k st (snd (moveEntity dt ss ent st)).
Proof.
  pose proof (spares_cosmetic k _ _ (random_cosmetic st)) as Hr.
  unfold moveEntity.
  destruct (Entity.type ent); cbn -[spawnProjectile];
    try apply spares_refl.
  - match goal with
    | |- context [if ?c then _ else _] => destruct c eqn:Hc
    end; cbn -[spawnProjectile]; [| exact Hr].
    apply andb_true_iff in Hc. destruct Hc as [Hc H3].
    apply andb_true_iff in Hc. destruct Hc as [_ H2].
    rewrite spawnProjectile_eq.
    unfold spares. cbn [pushEntity entitiesRef set_entitiesRef snd random
                         set_randomSource].
    apply (spares_pushEntity k _ st).
    eapply enemy_shot_shotLike; [exact H2 | exact H3 | reflexivity].
  - match goal with
    | |- context [if ?c then _ else _] => destruct c eqn:Hc
    end; cbn -[spawnProjectile]; [| exact Hr].
    apply andb_true_iff in Hc. destruct Hc as [Hc H3].
    apply andb_true_iff in Hc. destruct Hc as [_ H2].
    rewrite spawnProjectile_eq.
    unfold spares. cbn [pushEntity entitiesRef set_entitiesRef snd random
                         set_randomSource].
    apply (spares_pushEntity k _ st).
    eapply enemy_shot_shotLike; [exact H2 | exact H3 | reflexivity].
Qed.

Lemma spares_right k a b b' :
  entitiesRef b' = entitiesRef b -> spares k a b -> spares k a b'.
Proof. unfold spares, holds. intros ->. auto. Qed.

Lemma projectileHit_spares k ent st j :
  nth_error (typesOf st) j = Some Entity.PROJECTILE_Player ->
  spares k st (snd (projectileHit (ent, st) j)).
Proof.
  intros Hty. unfold projectileHit.
  destruct (nth_error (entitiesRef st) j) as [proj |] eqn:Ej;
    [| apply spares_refl].
  destruct (VectorMath.checkCollision _ _ _ _); [| apply spares_refl].
  assert (Hp : Entity.isPlayerProjectile (Entity.type proj) = true).
  { unfold typesOf in Hty. rewrite nth_error_map, Ej in Hty.
    cbn in Hty. injection Hty as ->. reflexivity. }
  pose proof (spares_switch_off k j proj st Ej Hp) as Hsw.
  cbv zeta. forget_explosions.
  destruct (Rleb _ _); cbn [snd];
    (eapply spares_right; [| exact Hsw]); reflexivity.
Qed.

Lemma fold_projectileHit_spares k js : forall ent st,
  (k < List.length (entitiesRef st))%nat ->
  (forall j, In j js ->
     nth_error (typesOf st) j = Some Entity.PROJECTILE_Player) ->
  spares k st (snd (fold_left projectileHit js (ent, st))).
Proof.
  induction js as [| j js IH]; intros ent st Hk Hjs; cbn [fold_left].
  - apply spares_refl.
  - pose proof (projectileHit_spares k ent st j (Hjs j (or_introl eq_refl)))
      as H1.
    destruct (projectileHit_appendsEnemyShots ent st j) as [_ Ha].
    destruct (projectileHit (ent, st) j) as [ent' st']. cbn [snd] in *.
    eapply spares_trans; [exact Hk | exact H1 |].
    apply IH.
    + destruct H1 as (L & _). lia.
    + intros j' Hin. eapply appendsEnemyShots_nth; [exact Ha |].
      apply Hjs. right. exact Hin.
Qed.

Lemma activePlayerProjectiles_types st j :
  In j (activePlayerProjectiles st) ->
  nth_error (typesOf st) j = Some Entity.PROJECTILE_Player.
Proof.
  unfold activePlayerProjectiles. intros Hin.
  apply filter_In in Hin. destruct Hin as [_ Hin].
  unfold typesOf. rewrite nth_error_map.
  destruct (nth_error (entitiesRef st) j) as [p |]; [| discriminate].
  apply andb_true_iff in Hin. destruct Hin as [Hp _].
  cbn. destruct (Entity.type p); try discriminate. reflexivity.
Qed.

Lemma enemyHitsPlayer_entitiesRef ent st :
  entitiesRef (snd (enemyHitsPlayer ent st)) = entitiesRef st.
Proof.
  unfold enemyHitsPlayer.
  destruct (VectorMath.checkCollision _ _ _ _); [| reflexivity].
  cbv zeta. cbn [snd]. rewrite spawnExplosion_entitiesRef. reflexivity.
Qed.

Lemma enemyProjectileHitsPlayer_entitiesRef ent st :
  entitiesRef (snd (enemyProjectileHitsPlayer ent st)) = entitiesRef st.
Proof.
  unfold enemyProjectileHitsPlayer.
  destruct (_ && _); [| reflexivity].
  cbv zeta. cbn [snd]. rewrite spawnExplosion_entitiesRef. reflexivity.
Qed.

Lemma enemyCollisions_spares k ent st :
  (k < List.length (entitiesRef st))%nat ->
  spares k st (snd (enemyCollisions ent st)).
Proof.
  intros Hk. unfold enemyCollisions.
  destruct (Entity.isEnemy (Entity.type ent) && Entity.active ent);
    [| apply spares_refl].
  pose proof (fold_projectileHit_spares k (activePlayerProjectiles st) ent st
                Hk (activePlayerProjectiles_types st)) as Hf.
  destruct (fold_left _ _ _) as [ent' st']. cbn [snd] in Hf.
  eapply spares_right; [apply enemyHitsPlayer_entitiesRef | exact Hf].
Qed.

(** The callback of index [k], seen from the other elements. *)
Lemma entityCallback_spares k dt ss st :
  spares k st (entityCallback dt ss st k).
Proof.
  unfold entityCallback.
  destruct (nth_error _ _) as [ent |] eqn:Ek; [| apply spares_refl].
  destruct (negb _); [apply spares_refl |].
  assert (Hk : (k < List.length (entitiesRef st))%nat)
    by (apply (holds_lt k ent st Ek)).
  pose proof (moveEntity_spares k dt ss ent st) as H1.
  destruct (moveEntity dt ss ent st) as [ent1 st1]. cbn [snd] in H1.
  cbv zeta.
  assert (Hk1 : (k < List.length (entitiesRef st1))%nat)
    by (destruct H1 as (L & _); lia).
  pose proof (spares_storeEntity_own k (cull ent1) st1) as H2.
  assert (Hk2 : (k < List.length
                       (entitiesRef (storeEntity k (cull ent1) st1)))%nat)
    by (destruct H2 as (L & _); lia).
  pose proof (enemyCollisions_spares k (cull ent1) _ Hk2) as H3.
  destruct (enemyCollisions _ _) as [ent3 st3]. cbn [snd] in H3.
  pose proof (enemyProjectileHitsPlayer_entitiesRef ent3 st3) as H4.
  destruct (enemyProjectileHitsPlayer ent3 st3) as [ent4 st4].
  cbn [snd] in H4.
  assert (H14 : spares k st st4).
  { eapply spares_trans; [exact Hk | exact H1 |].
    eapply spares_trans; [exact Hk1 | exact H2 |].
    eapply spares_right; [exact H4 | exact H3]. }
  eapply spares_trans; [exact Hk | exact H14 |].
  apply spares_storeEntity_own.
Qed.

(** The callback's own element. *)
Lemma moveEntity_fst dt ss ent st :
  let ent' := fst (moveEntity dt ss ent st) in
  Entity.position ent' = turnOf dt ss ent
  /\ Entity.type ent' = Entity.type ent
  /\ Entity.velocity ent' = Entity.velocity ent
  /\ Entity.active ent' = Entity.active ent.
Proof.
  unfold moveEntity, turnOf, enemyMoved, projectileMoved.
  destruct (Entity.type ent) eqn:Ety; cbn -[spawnProjectile];
    try (destruct (_ && _)); cbn -[spawnProjectile];
    rewrite ?Ety; auto.
Qed.

Lemma cull_settles e :
  settles e (cull e)
  /\ (Entity.active (cull e) = true -> inBounds (Entity.position e)).
Proof.
  unfold cull, settles, inBounds. cbv zeta.
  destruct (Rltb _ _ || Rgtb _ _) eqn:Hc; cbn.
  - repeat split; auto; discriminate.
  - apply orb_false_iff in Hc. destruct Hc as [H1 H2].
    apply Rltb_false in H1. apply Rgtb_false in H2.
    repeat split; auto; lra.
Qed.

Lemma projectileHit_settles ent st j :
  settles ent (fst (projectileHit (ent, st) j)).
Proof.
  unfold projectileHit.
  destruct (nth_error _ _) as [proj |]; [| apply settles_refl].
  destruct (VectorMath.checkCollision _ _ _ _); [| apply settles_refl].
  cbv zeta. destruct (Rleb _ _); cbn [fst]; unfold settles; cbn;
    repeat split; auto; discriminate.
Qed.

Lemma fold_projectileHit_settles js : forall ent st,
  settles ent (fst (fold_left projectileHit js (ent, st))).
Proof.
  induction js as [| j js IH]; intros ent st; cbn [fold_left].
  - apply settles_refl.
  - pose proof (projectileHit_settles ent st j) as H1.
    destruct (projectileHit (ent, st) j) as [ent' st']. cbn [fst] in H1.
    eapply settles_trans; [exact H1 | apply IH].
Qed.

Lemma enemyHitsPlayer_settles ent st :
  settles ent (fst (enemyHitsPlayer ent st)).
Proof.
  unfold enemyHitsPlayer.
  destruct (VectorMath.checkCollision _ _ _ _); [| apply settles_refl].
  cbv zeta. cbn [fst]. unfold settles. cbn. repeat split; auto; discriminate.
Qed.

Lemma enemyProjectileHitsPlayer_settles ent st :
  settles ent (fst (enemyProjectileHitsPlayer ent st)).
Proof.
  unfold enemyProjectileHitsPlayer.
  destruct (_ && _); [| apply settles_refl].
  cbv zeta. cbn [fst]. unfold settles. cbn. repeat split; auto; discriminate.
Qed.

Lemma enemyCollisions_settles ent st :
  settles ent (fst (enemyCollisions ent st)).
Proof.
  unfold enemyCollisions.
  destruct (_ && _); [| apply settles_refl].
  pose proof (fold_projectileHit_settles (activePlayerProjectiles st) ent st)
    as Hf.
  destruct (fold_left _ _ _) as [ent' st']. cbn [fst] in Hf.
  eapply settles_trans; [exact Hf | apply enemyHitsPlayer_settles].
Qed.

Lemma entityCallback_own dt ss st k e :
  holds k e st -> Entity.active e = true ->
  exists e',
    holds k e' (entityCallback dt ss st k)
    /\ Entity.position e' = turnOf dt ss e
    /\ Entity.type e' = Entity.type e
    /\ Entity.velocity e' = Entity.velocity e
    /\ (Entity.active e' = true -> inBounds (turnOf dt ss e)).
Proof.
  intros H Hact. unfold entityCallback. rewrite H, Hact. cbn [negb].
  pose proof (moveEntity_fst dt ss e st) as Hm.
  pose proof (moveEntity_spares k dt ss e st) as H1.
  destruct (moveEntity dt ss e st) as [ent1 st1]. cbn [fst snd] in *.
  destruct Hm as (Pm & Tm & Vm & Am).
  cbv zeta.
  destruct (cull_settles ent1) as [(Pc & Tc & Vc & Ac) Hb].
  assert (Hk1 : (k < List.length (entitiesRef st1))%nat).
  { destruct H1 as (L & _). apply holds_lt in H. lia. }
  pose proof (spares_storeEntity_own k (cull ent1) st1) as H2.
  assert (Hk2 : (k < List.length
                       (entitiesRef (storeEntity k (cull ent1) st1)))%nat)
    by (destruct H2 as (L & _); lia).
  pose proof (enemyCollisions_spares k (cull ent1) _ Hk2) as H3.
  pose proof (enemyCollisions_settles (cull ent1)
                (storeEntity k (cull ent1) st1)) as S3.
  destruct (enemyCollisions _ _) as [ent3 st3]. cbn [fst snd] in *.
  pose proof (enemyProjectileHitsPlayer_entitiesRef ent3 st3) as H4.
  pose proof (enemyProjectileHitsPlayer_settles ent3 st3) as S4.
  destruct (enemyProjectileHitsPlayer ent3 st3) as [ent4 st4].
  cbn [fst snd] in *.
  assert (Hk4 : (k < List.length (entitiesRef st4))%nat).
  { rewrite H4. destruct H3 as (L & _). lia. }
  destruct (lt_holds k st4 Hk4) as (x & Hx).
  exists ent4. split; [eapply holds_storeEntity_same; exact Hx |].
  destruct S3 as (P3 & T3 & V3 & A3). destruct S4 as (P4 & T4 & V4 & A4).
  split; [congruence |]. split; [congruence |]. split; [congruence |].
  intros Ha. rewrite <- Pm. apply Hb. auto.
Qed.

(** The callbacks of a pass that are not the element's own. *)
Lemma others_fade dt ss i idx : forall st e,
  ~ In i idx -> holds i e st ->
  exists e', holds i e' (fold_left (entityCallback dt ss) idx st)
             /\ fades e e'.
Proof.
  induction idx as [| k idx IH]; intros st e Hni H; cbn [fold_left].
  - exists e. split; [exact H | apply fades_refl].
  - assert (Hik : i <> k) by (intros ->; apply Hni; left; reflexivity).
    destruct (entityCallback_spares k dt ss st) as (_ & O & _).
    destruct (O i e Hik H) as (e1 & H1 & F1).
    destruct (IH _ e1 (fun Hin => Hni (or_intror Hin)) H1) as (e2 & H2 & F2).
    exists e2. split; [exact H2 | eapply fades_trans; eassumption].
Qed.

(** What a pass pushes. *)
Lemma pushed_shots dt ss n idx : forall cur,
  (forall k, In k idx -> (k < n)%nat) ->
  (n <= List.length (entitiesRef cur))%nat ->
  (forall i e, (n <= i)%nat -> holds i e cur -> shotLike e) ->
  forall i e, (n <= i)%nat ->
    holds i e (fold_left (entityCallback dt ss) idx cur) -> shotLike e.
Proof.
  induction idx as [| k idx IH]; intros cur Hidx Hn Hcur; cbn [fold_left].
  - exact Hcur.
  - destruct (entityCallback_spares k dt ss cur) as (L & O & N).
    apply IH.
    + intros k' Hin. apply Hidx. right. exact Hin.
    + lia.
    + intros i e Hi H.
      destruct (Nat.lt_ge_cases i (List.length (entitiesRef cur)))
        as [Hlt | Hge].
      * destruct (lt_holds i cur Hlt) as (e0 & H0).
        pose proof (Hcur i e0 Hi H0) as Hs.
        assert (Hik : i <> k).
        { pose proof (Hidx k (or_introl eq_refl)). lia. }
        destruct (O i e0 Hik H0) as (e1 & H1 & F1).
        rewrite (holds_unique i e e1 _ H H1).
        rewrite (fades_shotLike e0 e1 Hs F1). exact Hs.
      * apply (N i e Hge H).
Qed.

(** The pass, seen from one element of the store: the callbacks before
    its own can only switch it off, and only if it is a player
    projectile; its own callback, if it is still live, moves it and
    culls it; the callbacks after its own can only switch it off. *)
Lemma entity_turn dt ss st i e :
  holds i e st ->
  exists e',
    holds i e' (entitiesPass dt ss st)
    /\ Entity.type e' = Entity.type e
    /\ Entity.velocity e' = Entity.velocity e
    /\ ((Entity.position e' = Entity.position e
         /\ Entity.active e' = false
         /\ (Entity.active e = true ->
             Entity.isPlayerProjectile (Entity.type e) = true))
        \/ (Entity.active e = true
            /\ Entity.position e' = turnOf dt ss e
            /\ (Entity.active e' = true -> inBounds (turnOf dt ss e)))).
Proof.
  intros H.
  rewrite (entitiesPass_split dt ss st i (holds_lt i e st H)).
  destruct (others_fade dt ss i (seq 0 i) st e (not_in_seq_before i) H)
    as (e1 & H1 & F1).
  set (st1 := fold_left (entityCallback dt ss) (seq 0 i) st) in *.
  set (m := (List.length (entitiesRef st) - S i)%nat).
  destruct (Entity.active e1) eqn:A1.
  - assert (E1 : e1 = e).
    { destruct F1 as [-> | [_ ->]]; [reflexivity | discriminate]. }
    subst e1.
    destruct (entityCallback_own dt ss st1 i e H1 A1)
      as (e2 & H2 & P2 & T2 & V2 & B2).
    destruct (others_fade dt ss i (seq (S i) m) _ e2
                (not_in_seq_after i m) H2)
      as (e3 & H3 & F3).
    apply fades_settles in F3. destruct F3 as (P3 & T3 & V3 & A3).
    exists e3. split; [exact H3 |].
    split; [congruence |]. split; [congruence |].
    right. split; [exact A1 |]. split; [congruence | auto].
  - rewrite (entityCallback_inactive dt ss st1 i e1 H1 A1).
    destruct (others_fade dt ss i (seq (S i) m) _ e1
                (not_in_seq_after i m) H1)
      as (e3 & H3 & F3).
    apply fades_settles in F3. destruct F3 as (P3 & T3 & V3 & A3).
    pose proof (fades_settles _ _ F1) as (P1 & T1 & V1 & _).
    exists e3. split; [exact H3 |].
    split; [congruence |]. split; [congruence |].
    left. split; [congruence |]. split.
    + destruct (Entity.active e3); [| reflexivity].
      rewrite A3 in A1 by reflexivity. discriminate.
    + intros Ha. destruct F1 as [-> | [Hp _]]; [congruence | exact Hp].
Qed.

End PassEffect.

(** ** What a frame does to the stored entities *)

Section PassTheorems.
Import GameEngine Vocabulary.

(** X17.  Through the entity pass, an enemy that starts live descends by
    exactly the scroll speed of the frame, keeps its y, and weaves in x
    by [0.3] times the sine of a phase made of its new z and of its id
    read as a number, so by at most [0.3]; its type and its velocity
    are kept, and it is still live afterwards only if its new z is
    inside the band from -40 to 500.  No projectile and no collision of
    the frame changes where it is stored or where it stands. *)
Theorem enemy_weaves dt ss st i e :
  holds i e st ->
  Entity.isEnemy (Entity.type e) = true ->
  Entity.active e = true ->
  exists e',
    holds i e' (entitiesPass dt ss st)
    /\ Entity.type e' = Entity.type e
    /\ Entity.velocity e' = Entity.velocity e
    /\ Vector3.z (Entity.position e') = Vector3.z (Entity.position e) - ss
    /\ Vector3.y (Entity.position e') = Vector3.y (Entity.position e)
    /\ Vector3.x (Entity.position e')
       = Vector3.x (Entity.position e)
         + sin ((Vector3.z (Entity.position e) - ss) * 0.02
                + Entity.idNumber (Entity.id e)) * 0.3
    /\ Rabs (Vector3.x (Entity.position e') - Vector3.x (Entity.position e))
       <= 0.3
    /\ (Entity.active e' = true ->
        -40 <= Vector3.z (Entity.position e) - ss <= 500).
Proof.
  intros H Hen Hact.
  destruct (entity_turn dt ss st i e H) as (e' & H' & T' & V' & Hcase).
  assert (Hturn : turnOf dt ss e = enemyMoved ss e).
  { unfold turnOf. destruct (Entity.type e); try discriminate; reflexivity. }
  exists e'. split; [exact H' |]. split; [exact T' |]. split; [exact V' |].
  destruct Hcase as [(_ & _ & Hpp) | (_ & P' & B')].
  - specialize (Hpp Hact).
    destruct (isEnemy_not_projectile _ Hen) as [Hn _]. congruence.
  - rewrite Hturn in P', B'. rewrite P'. unfold enemyMoved, inBounds in *.
    cbn in *.
    split; [reflexivity |]. split; [reflexivity |]. split; [reflexivity |].
    split; [| exact B'].
    match goal with
    | |- context [sin ?a] => pose proof (SIN_bound a) as Hs
    end.
    apply Rabs_le. lra.
Qed.

Lemma enemy_weaves_witness :
  let e := enemyOf "#ff00ff" 0.5 0.5 0.5 in
  let st :=
    set_entitiesRef [e] (initialState (fun _ => 0.5) (fun _ => 0)) in
  exists e',
    holds 0 e' (entitiesPass 16 2.5 st)
    /\ Entity.type e' = Entity.type e
    /\ Entity.velocity e' = Entity.velocity e
    /\ Vector3.z (Entity.position e') = Vector3.z (Entity.position e) - 2.5
    /\ Vector3.y (Entity.position e') = Vector3.y (Entity.position e)
    /\ Vector3.x (Entity.position e')
       = Vector3.x (Entity.position e)
         + sin ((Vector3.z (Entity.position e) - 2.5) * 0.02
                + Entity.idNumber (Entity.id e)) * 0.3
    /\ Rabs (Vector3.x (Entity.position e') - Vector3.x (Entity.position e))
       <= 0.3
    /\ (Entity.active e' = true ->
        -40 <= Vector3.z (Entity.position e) - 2.5 <= 500).
Proof.
  intros e st.
  apply (enemy_weaves 16 2.5 st 0 e); reflexivity.
Defined.

(** X18.  Through the entity pass, a player projectile that starts live
    ends in one of two ways.  Either an enemy visited before it has
    consumed it: then it has not moved at all in this frame and is
    switched off.  Or it has had its turn: then it stands at its old
    place plus its velocity times [dt / 16], and it is still live only
    if that place has its z inside the band from -40 to 500.  Its type
    and its velocity are kept either way. *)
Theorem player_shot_moves_or_is_spent dt ss st i e :
  holds i e st ->
  Entity.type e = Entity.PROJECTILE_Player ->
  Entity.active e = true ->
  exists e',
    holds i e' (entitiesPass dt ss st)
    /\ Entity.type e' = Entity.PROJECTILE_Player
    /\ Entity.velocity e' = Entity.velocity e
    /\ ((Entity.position e' = Entity.position e
         /\ Entity.active e' = false)
        \/ (Entity.position e' = projectileMoved dt e
            /\ (Entity.active e' = true ->
                inBounds (projectileMoved dt e)))).
Proof.
  intros H Hty Hact.
  destruct (entity_turn dt ss st i e H) as (e' & H' & T' & V' & Hcase).
  assert (Hturn : turnOf dt ss e = projectileMoved dt e).
  { unfold turnOf. rewrite Hty. reflexivity. }
  exists e'. split; [exact H' |]. split; [congruence |].
  split; [exact V' |].
  destruct Hcase as [(P' & A' & _) | (_ & P' & B')].
  - left. split; assumption.
  - right. rewrite Hturn in P', B'. split; assumption.
Qed.

Lemma player_shot_moves_or_is_spent_witness :
  let e :=
    projectileOf (Vector3.mk 0 0 0) (Vector3.mk 0 0 200) true 0.5 in
  let st :=
    set_entitiesRef [e] (initialState (fun _ => 0.5) (fun _ => 0)) in
  exists e',
    holds 0 e' (entitiesPass 16 2.5 st)
    /\ Entity.type e' = Entity.PROJECTILE_Player
    /\ Entity.velocity e' = Entity.velocity e
    /\ ((Entity.position e' = Entity.position e
         /\ Entity.active e' = false)
        \/ (Entity.position e' = projectileMoved 16 e
            /\ (Entity.active e' = true ->
                inBounds (projectileMoved 16 e)))).
Proof.
  intros e st.
  apply (player_shot_moves_or_is_spent 16 2.5 st 0 e); reflexivity.
Defined.

(** X19.  An entity that is already switched off when the pass starts
    is skipped by it: after the pass it is stored at the same index,
    the same in every field. *)
Theorem inactive_entity_is_skipped dt ss st i e :
  holds i e st ->
  Entity.active e = false ->
  holds i e (entitiesPass dt ss st).
Proof.
  intros H Hact.
  rewrite (entitiesPass_split dt ss st i (holds_lt i e st H)).
  assert (Hn : Entity.isPlayerProjectile (Entity.type e) && Entity.active e
               = false) by (rewrite Hact; apply andb_false_r).
  pose proof (holds_fold_entityCallback_other i e dt ss (seq 0 i) st
                (not_in_seq_before i) H Hn) as H1.
  apply holds_fold_entityCallback_other;
    [apply not_in_seq_after | | exact Hn].
  rewrite (entityCallback_inactive dt ss _ i e H1 Hact). exact H1.
Qed.

Lemma inactive_entity_is_skipped_witness :
  let e := Entity.set_active false (enemyOf "#ff00ff" 0.5 0.5 0.5) in
  let st :=
    set_entitiesRef [e] (initialState (fun _ => 0.5) (fun _ => 0)) in
  holds 0 e (entitiesPass 16 2.5 st).
Proof.
  intros e st.
  apply (inactive_entity_is_skipped 16 2.5 st 0 e); reflexivity.
Defined.

Lemma holds_skipn n j e st :
  nth_error (skipn n (entitiesRef st)) j = Some e -> holds (n + j) e st.
Proof. unfold holds. rewrite nth_error_skipn. auto. Qed.

Lemma pass_pushed dt ss st i e :
  (List.length (entitiesRef st) <= i)%nat ->
  holds i e (entitiesPass dt ss st) -> shotLike e.
Proof.
  intros Hi H.
  apply (pushed_shots dt ss (List.length (entitiesRef st))
           (seq 0 (List.length (entitiesRef st))) st) with (i := i);
    [ | lia | | exact Hi | exact H].
  - intros k Hk. apply in_seq in Hk. lia.
  - intros i0 e0 Hi0 H0. apply holds_lt in H0. lia.
Qed.

(** X20.  The entity pass visits the entities the store has when it
    starts, and never the ones it pushes: whatever stands in the store
    behind them after the pass is an enemy's shot exactly as it was
    pushed, a live enemy projectile with z strictly between 45 and 295,
    and the store is never shorter than before. *)
Theorem pass_appends_only_enemy_shots dt ss st :
  (List.length (entitiesRef st)
   <= List.length (entitiesRef (entitiesPass dt ss st)))%nat
  /\ Forall shotLike
       (skipn (List.length (entitiesRef st))
          (entitiesRef (entitiesPass dt ss st))).
Proof.
  split.
  - destruct (entitiesPass_appendsEnemyShots dt ss st) as (x & Hx & _).
    unfold typesOf in Hx.
    apply (f_equal (@List.length _)) in Hx.
    rewrite length_app, !length_map in Hx. lia.
  - apply Forall_forall. intros e Hin.
    apply In_nth_error in Hin. destruct Hin as (j & Hj).
    apply holds_skipn in Hj.
    apply (pass_pushed dt ss st _ e) in Hj; [exact Hj | lia].
Qed.

Lemma shotLike_kept e : shotLike e -> keptEntity e.
Proof.
  intros (_ & Ha & Hz). split; [exact Ha |]. unfold inBounds. lra.
Qed.

(** X21.  Whatever the state a step starts from, every entity in the
    store after the step is live and has its z inside the band from -40
    to 500: the cull of the pass and the compaction after it leave
    nothing else for the next render. *)
Theorem update_keeps_only_live_entities_in_bounds props dt st :
  Forall keptEntity (entitiesRef (update props dt st)).
Proof.
  rewrite update_beforeCompaction. unfold beforeCompaction.
  set (ss := scrollSpeedOf props dt).
  set (st0 := firing props _).
  change (entitiesRef (particlesPass dt (compactEntities (entitiesPass dt ss st0))))
    with (filter Entity.active (entitiesRef (entitiesPass dt ss st0))).
  apply Forall_forall. intros x Hin.
  apply filter_In in Hin. destruct Hin as [Hin Hact].
  apply In_nth_error in Hin. destruct Hin as (i & Hi).
  destruct (Nat.lt_ge_cases i (List.length (entitiesRef st0))) as [Hlt | Hge].
  - destruct (lt_holds i st0 Hlt) as (e & He).
    destruct (entity_turn dt ss st0 i e He) as (e' & H' & _ & _ & Hcase).
    assert (Ex : x = e') by (apply (holds_unique i x e' _ Hi H')).
    subst e'. split; [exact Hact |].
    destruct Hcase as [(_ & A' & _) | (_ & P' & B')]; [congruence |].
    rewrite P'. auto.
  - apply shotLike_kept.
    apply (pass_pushed dt ss st0 i x Hge Hi).
Qed.

End PassTheorems.

(** ** Particles *)

Section Particles.
Import GameEngine Vocabulary.

Lemma addsParticles_refl st : addsParticles st st.
Proof. exists []. rewrite app_nil_r. split; [reflexivity | constructor]. Qed.

Lemma addsParticles_trans a b c :
  addsParticles a b -> addsParticles b c -> addsParticles a c.
Proof.
  intros (x & Hx & Fx) (y & Hy & Fy). exists (x ++ y).
  rewrite Hy, Hx, app_assoc. split; [reflexivity |].
  apply Forall_app. split; assumption.
Qed.

Lemma addsParticles_same st st' :
  particlesRef st' = particlesRef st -> addsParticles st st'.
Proof.
  intros E. exists []. rewrite app_nil_r. split; [exact E | constructor].
Qed.

Lemma addsParticles_right a b b' :
  particlesRef b' = particlesRef b -> addsParticles a b -> addsParticles a b'.
Proof. unfold addsParticles. intros ->. auto. Qed.

Lemma spawnThrusterParticle_addsParticles pos rot st :
  addsParticles st (spawnThrusterParticle pos rot st).
Proof.
  unfold spawnThrusterParticle, addsParticles. cbn -[app].
  eexists. split; [rewrite <- app_assoc; reflexivity |].
  repeat constructor; unfold withinLife; cbn; lra.
Qed.

Lemma thrusters_addsParticles st : addsParticles st (thrusters st).
Proof.
  unfold thrusters. destruct (Rltb _ _); [| apply addsParticles_refl].
  apply spawnThrusterParticle_addsParticles.
Qed.

Lemma spawnExplosion_addsParticles pos c st :
  addsParticles st (spawnExplosion pos c st).
Proof.
  unfold spawnExplosion.
  destruct (iterated_explosion pos c 15 st) as (ps & Hp & _ & Hf & _).
  exists ps. split; [exact Hp |].
  eapply Forall_impl; [| exact Hf].
  intros p (_ & Hl & Hm & _). unfold withinLife. lra.
Qed.

Lemma spawnProjectile_particlesRef s t b st :
  particlesRef (spawnProjectile s t b st) = particlesRef st.
Proof. rewrite spawnProjectile_eq. reflexivity. Qed.

Lemma spawning_particlesRef props st :
  particlesRef (spawning props st) = particlesRef st.
Proof.
  unfold spawning. destruct (Rgtb _ _); [| reflexivity].
  cbn -[spawnEnemy]. destruct (Rltb _ _); [| reflexivity].
  rewrite spawnEnemy_eq. reflexivity.
Qed.

Lemma firing_particlesRef props st :
  particlesRef (firing props st) = particlesRef st.
Proof.
  unfold firing. rewrite isFiring_always. cbn -[spawnProjectile].
  destruct (Rgtb _ _); [| reflexivity].
  cbn -[spawnProjectile]. rewrite spawnProjectile_particlesRef. reflexivity.
Qed.

Lemma moveEntity_particlesRef dt ss ent st :
  particlesRef (snd (moveEntity dt ss ent st)) = particlesRef st.
Proof.
  unfold moveEntity.
  destruct (Entity.type ent); cbn -[spawnProjectile]; try reflexivity;
    destruct (_ && _); cbn -[spawnProjectile]; try reflexivity;
    rewrite spawnProjectile_particlesRef; reflexivity.
Qed.

Lemma explosion_addsParticles_after a b pos c :
  particlesRef b = particlesRef a ->
  addsParticles a (spawnExplosion pos c b).
Proof.
  intros E.
  eapply addsParticles_trans;
    [apply addsParticles_same; exact E | apply spawnExplosion_addsParticles].
Qed.

Lemma projectileHit_addsParticles ent st j :
  addsParticles st (snd (projectileHit (ent, st) j)).
Proof.
  unfold projectileHit.
  destruct (nth_error _ _) as [proj |]; [| apply addsParticles_refl].
  destruct (VectorMath.checkCollision _ _ _ _); [| apply addsParticles_refl].
  cbv zeta.
  match goal with
  | |- context [spawnExplosion ?p ?c ?s] =>
      pose proof (explosion_addsParticles_after st s p c eq_refl) as H2;
      generalize dependent (spawnExplosion p c s)
  end.
  intros s2 H2.
  destruct (Rleb _ _); cbn [snd].
  - eapply addsParticles_right; [| exact H2]. reflexivity.
  - exact H2.
Qed.

Lemma fold_projectileHit_addsParticles js : forall ent st,
  addsParticles st (snd (fold_left projectileHit js (ent, st))).
Proof.
  induction js as [| j js IH]; intros ent st; cbn [fold_left].
  - apply addsParticles_refl.
  - pose proof (projectileHit_addsParticles ent st j) as H1.
    destruct (projectileHit (ent, st) j) as [ent' st']. cbn [snd] in H1.
    eapply addsParticles_trans; [exact H1 | apply IH].
Qed.

Lemma enemyHitsPlayer_addsParticles ent st :
  addsParticles st (snd (enemyHitsPlayer ent st)).
Proof.
  unfold enemyHitsPlayer.
  destruct (VectorMath.checkCollision _ _ _ _); [| apply addsParticles_refl].
  cbv zeta. cbn [snd].
  apply explosion_addsParticles_after. reflexivity.
Qed.

Lemma enemyProjectileHitsPlayer_addsParticles ent st :
  addsParticles st (snd (enemyProjectileHitsPlayer ent st)).
Proof.
  unfold enemyProjectileHitsPlayer.
  destruct (_ && _); [| apply addsParticles_refl].
  cbv zeta. cbn [snd].
  apply explosion_addsParticles_after. reflexivity.
Qed.

Lemma enemyCollisions_addsParticles ent st :
  addsParticles st (snd (enemyCollisions ent st)).
Proof.
  unfold enemyCollisions.
  destruct (_ && _); [| apply addsParticles_refl].
  pose proof (fold_projectileHit_addsParticles (activePlayerProjectiles st)
                ent st) as Hf.
  destruct (fold_left _ _ _) as [ent' st']. cbn [snd] in Hf.
  eapply addsParticles_trans; [exact Hf | apply enemyHitsPlayer_addsParticles].
Qed.

Lemma entityCallback_addsParticles dt ss st i :
  addsParticles st (entityCallback dt ss st i).
Proof.
  unfold entityCallback.
  destruct (nth_error _ _) as [ent |]; [| apply addsParticles_refl].
  destruct (negb _); [apply addsParticles_refl |].
  pose proof (moveEntity_particlesRef dt ss ent st) as H1.
  destruct (moveEntity dt ss ent st) as [ent1 st1]. cbn [snd] in H1.
  cbv zeta.
  pose proof (enemyCollisions_addsParticles (cull ent1)
                (storeEntity i (cull ent1) st1)) as H3.
  destruct (enemyCollisions _ _) as [ent3 st3]. cbn [snd] in H3.
  pose proof (enemyProjectileHitsPlayer_addsParticles ent3 st3) as H4.
  destruct (enemyProjectileHitsPlayer ent3 st3) as [ent4 st4].
  cbn [snd] in H4.
  eapply addsParticles_right with (b := st4); [reflexivity |].
  eapply addsParticles_trans; [| exact H4].
  eapply addsParticles_trans; [| exact H3].
  apply addsParticles_same. exact H1.
Qed.

Lemma entitiesPass_addsParticles dt ss st :
  addsParticles st (entitiesPass dt ss st).
Proof.
  unfold entitiesPass. generalize (seq 0 (List.length (entitiesRef st))).
  intros idx. revert st.
  induction idx as [| i idx IH]; intros st; cbn [fold_left].
  - apply addsParticles_refl.
  - eapply addsParticles_trans;
      [apply entityCallback_addsParticles | apply IH].
Qed.

Lemma beforeParticles_addsParticles props dt st :
  addsParticles st (compactEntities (beforeCompaction props dt st)).
Proof.
  unfold beforeCompaction.
  eapply addsParticles_right with
    (b := entitiesPass dt (scrollSpeedOf props dt)
            (firing props
               (spawning props
                  (thrusters (moveShip props (updateReticle st))))));
    [reflexivity |].
  eapply addsParticles_trans; [| apply entitiesPass_addsParticles].
  eapply addsParticles_right; [apply firing_particlesRef |].
  eapply addsParticles_right; [apply spawning_particlesRef |].
  eapply addsParticles_trans; [| apply thrusters_addsParticles].
  apply addsParticles_same. reflexivity.
Qed.

(** X22.  If time has not run backwards in a frame and no particle had
    more life than its allowance when the step started, then every
    particle left after the step has life in (0, allowance]: the
    opacity [life / maxLife] the renderer gives it is in (0, 1].  The
    particles added by the step (thruster sparks, explosions) start at
    their allowance, and the property carries over to the next frame. *)
Theorem particles_stay_lit props dt st :
  0 <= dt ->
  Forall withinLife (particlesRef st) ->
  Forall litParticle (particlesRef (update props dt st)).
Proof.
  intros Hdt Hinv.
  rewrite update_beforeCompaction.
  destruct (beforeParticles_addsParticles props dt st) as (ps & Hp & Hf).
  set (s := compactEntities (beforeCompaction props dt st)) in *.
  change (particlesRef (particlesPass dt s))
    with (filter (fun p => Rgtb (Particle.life p) 0)
            (map (integrateParticle dt) (particlesRef s))).
  rewrite Hp.
  apply Forall_forall. intros q Hq.
  apply filter_In in Hq. destruct Hq as [Hq Hpos].
  apply Rgtb_true in Hpos.
  apply in_map_iff in Hq. destruct Hq as (p & <- & Hin).
  assert (Hw : withinLife p).
  { apply in_app_or in Hin.
    destruct Hin as [Hin | Hin];
      [exact (proj1 (Forall_forall _ _) Hinv p Hin)
      | exact (proj1 (Forall_forall _ _) Hf p Hin)]. }
  unfold litParticle, withinLife in *. cbn in *. lra.
Qed.

Lemma particles_stay_lit_witness :
  let props := mkProps (MissionData.mk "Run" "Go" "#ff00ff" 0.5 1)
                 800 600 false in
  let st := initialState (fun _ => 0.5) (fun _ => 0) in
  Forall litParticle (particlesRef (update props 16 st)).
Proof.
  intros props st.
  apply (particles_stay_lit props 16 st); [lra | constructor].
Defined.

End Particles.
